(** * Space Invaders: the simulation tick and the high-score table

    A shallow embedding of [SpaceInvadersGame.py]: the [GameWorker] game
    logic ([reset_state], [create_aliens], [calculate_mystery_ship_score],
    [update_logic]), the key handlers of the [SpaceInvadersGame] widget as
    far as they touch the worker, and the [HighScores] table.

    Python integers are unbounded, so every number is a [Z].  The state
    dictionary of the worker always carries the same keys after
    [reset_state]; it is a record here, one field per key.  Python's
    [random] module is an oracle tape that the code reads cell by cell. *)

From Stdlib Require Import ZArith NArith List Bool Lia Permutation Sorted.
Import ListNotations.

Local Open Scope Z_scope.

(* ------------------------------------------------------------------ *)
(** ** Constants *)

Definition WORLD_W : Z := 1000.
Definition WORLD_H : Z := 800.
Definition PLAYER_WIDTH : Z := 60.
Definition PLAYER_HEIGHT : Z := 40.
Definition GROUND_HEIGHT : Z := 50.

(* ------------------------------------------------------------------ *)
(** ** Rectangles

    [QRect(x, y, w, h)] of Qt, with [QRect::intersects] as Qt computes it
    for rectangles of positive width and height: the rectangle covers the
    pixels [x .. x + w - 1] by [y .. y + h - 1], and two rectangles
    intersect when they share a pixel.  Every rectangle the game builds
    has a constant positive size. *)

Record QRect : Type := mkQRect { rx : Z; ry : Z; rw : Z; rh : Z }.

Definition rect_right (r : QRect) : Z := rx r + rw r - 1.
Definition rect_bottom (r : QRect) : Z := ry r + rh r - 1.

Definition intersects (a b : QRect) : bool :=
  negb ((rx a >? rect_right b) || (rx b >? rect_right a))
  && negb ((ry a >? rect_bottom b) || (ry b >? rect_bottom a)).

(* ------------------------------------------------------------------ *)
(** ** The random module

    The generator is an oracle: a tape of raw draws and a cursor.
    [randbelow n] is Python's [_randbelow]: some value in [0, n).
    [randint a b] is [a + _randbelow(b - a + 1)], so both ends are
    possible; [choice seq] is [seq[_randbelow(len(seq))]]. *)

Record Rng : Type := mkRng { tape : nat -> Z; cursor : nat }.

Definition randbelow (n : Z) (g : Rng) : Z * Rng :=
  (tape g (cursor g) mod n, mkRng (tape g) (S (cursor g))).

Definition randint (a b : Z) (g : Rng) : Z * Rng :=
  let (r, g') := randbelow (b - a + 1) g in (a + r, g').

Definition choice {A : Type} (seq : list A) (dflt : A) (g : Rng) : A * Rng :=
  let (i, g') := randbelow (Z.of_nat (length seq)) g in
  (nth (Z.to_nat i) seq dflt, g').

(** [random.random() < 0.3]: the float draw is read in tenths. *)
Definition random_lt_03 (g : Rng) : bool * Rng :=
  let (r, g') := randbelow 10 g in (r <? 3, g').

(* ------------------------------------------------------------------ *)
(** ** Entities and the state dictionary *)

(** A bullet is the two-element list [[x, y]]; the mystery ship too. *)
Definition Bullet : Type := (Z * Z)%type.

Inductive AlienType : Type := squid | crab | octopus.

Record Alien : Type := mkAlien {
  alien_x : Z;
  alien_y : Z;
  alien_type : AlienType;
  color_index : Z;
  frame : Z
}.

Record Keys : Type := mkKeys { key_left : bool; key_right : bool }.

Inductive Difficulty : Type := E | M | H.

Record State : Type := mkState {
  player_x : Z;
  player_y : Z;
  bullets : list Bullet;
  alien_bullets : list Bullet;
  aliens : list Alien;
  alien_direction : Z;
  alien_speed : Z;
  alien_anim_counter : Z;
  score : Z;
  lives : Z;
  level : Z;
  game_over : bool;
  keys_pressed : Keys;
  alien_shoot_cooldown : Z;
  paused : bool;
  shots_fired : Z;
  mystery_ship : option Bullet;
  mystery_ship_direction : Z;
  mystery_ship_cooldown : Z
}.

Definition set_player_x (v : Z) (s : State) : State :=
  mkState v (player_y s) (bullets s) (alien_bullets s) (aliens s)
    (alien_direction s) (alien_speed s) (alien_anim_counter s) (score s)
    (lives s) (level s) (game_over s) (keys_pressed s)
    (alien_shoot_cooldown s) (paused s) (shots_fired s) (mystery_ship s)
    (mystery_ship_direction s) (mystery_ship_cooldown s).

Definition set_bullets (v : list Bullet) (s : State) : State :=
  mkState (player_x s) (player_y s) v (alien_bullets s) (aliens s)
    (alien_direction s) (alien_speed s) (alien_anim_counter s) (score s)
    (lives s) (level s) (game_over s) (keys_pressed s)
    (alien_shoot_cooldown s) (paused s) (shots_fired s) (mystery_ship s)
    (mystery_ship_direction s) (mystery_ship_cooldown s).

Definition set_alien_bullets (v : list Bullet) (s : State) : State :=
  mkState (player_x s) (player_y s) (bullets s) v (aliens s)
    (alien_direction s) (alien_speed s) (alien_anim_counter s) (score s)
    (lives s) (level s) (game_over s) (keys_pressed s)
    (alien_shoot_cooldown s) (paused s) (shots_fired s) (mystery_ship s)
    (mystery_ship_direction s) (mystery_ship_cooldown s).

Definition set_aliens (v : list Alien) (s : State) : State :=
  mkState (player_x s) (player_y s) (bullets s) (alien_bullets s) v
    (alien_direction s) (alien_speed s) (alien_anim_counter s) (score s)
    (lives s) (level s) (game_over s) (keys_pressed s)
    (alien_shoot_cooldown s) (paused s) (shots_fired s) (mystery_ship s)
    (mystery_ship_direction s) (mystery_ship_cooldown s).

Definition set_alien_direction (v : Z) (s : State) : State :=
  mkState (player_x s) (player_y s) (bullets s) (alien_bullets s) (aliens s) v
    (alien_speed s) (alien_anim_counter s) (score s) (lives s) (level s)
    (game_over s) (keys_pressed s) (alien_shoot_cooldown s) (paused s)
    (shots_fired s) (mystery_ship s) (mystery_ship_direction s)
    (mystery_ship_cooldown s).

Definition set_alien_speed (v : Z) (s : State) : State :=
  mkState (player_x s) (player_y s) (bullets s) (alien_bullets s) (aliens s)
    (alien_direction s) v (alien_anim_counter s) (score s) (lives s) (level s)
    (game_over s) (keys_pressed s) (alien_shoot_cooldown s) (paused s)
    (shots_fired s) (mystery_ship s) (mystery_ship_direction s)
    (mystery_ship_cooldown s).

Definition set_alien_anim_counter (v : Z) (s : State) : State :=
  mkState (player_x s) (player_y s) (bullets s) (alien_bullets s) (aliens s)
    (alien_direction s) (alien_speed s) v (score s) (lives s) (level s)
    (game_over s) (keys_pressed s) (alien_shoot_cooldown s) (paused s)
    (shots_fired s) (mystery_ship s) (mystery_ship_direction s)
    (mystery_ship_cooldown s).

Definition set_score (v : Z) (s : State) : State :=
  mkState (player_x s) (player_y s) (bullets s) (alien_bullets s) (aliens s)
    (alien_direction s) (alien_speed s) (alien_anim_counter s) v (lives s)
    (level s) (game_over s) (keys_pressed s) (alien_shoot_cooldown s)
    (paused s) (shots_fired s) (mystery_ship s) (mystery_ship_direction s)
    (mystery_ship_cooldown s).

Definition set_lives (v : Z) (s : State) : State :=
  mkState (player_x s) (player_y s) (bullets s) (alien_bullets s) (aliens s)
    (alien_direction s) (alien_speed s) (alien_anim_counter s) (score s) v
    (level s) (game_over s) (keys_pressed s) (alien_shoot_cooldown s)
    (paused s) (shots_fired s) (mystery_ship s) (mystery_ship_direction s)
    (mystery_ship_cooldown s).

Definition set_level (v : Z) (s : State) : State :=
  mkState (player_x s) (player_y s) (bullets s) (alien_bullets s) (aliens s)
    (alien_direction s) (alien_speed s) (alien_anim_counter s) (score s)
    (lives s) v (game_over s) (keys_pressed s) (alien_shoot_cooldown s)
    (paused s) (shots_fired s) (mystery_ship s) (mystery_ship_direction s)
    (mystery_ship_cooldown s).

Definition set_game_over (v : bool) (s : State) : State :=
  mkState (player_x s) (player_y s) (bullets s) (alien_bullets s) (aliens s)
    (alien_direction s) (alien_speed s) (alien_anim_counter s) (score s)
    (lives s) (level s) v (keys_pressed s) (alien_shoot_cooldown s) (paused s)
    (shots_fired s) (mystery_ship s) (mystery_ship_direction s)
    (mystery_ship_cooldown s).

Definition set_keys_pressed (v : Keys) (s : State) : State :=
  mkState (player_x s) (player_y s) (bullets s) (alien_bullets s) (aliens s)
    (alien_direction s) (alien_speed s) (alien_anim_counter s) (score s)
    (lives s) (level s) (game_over s) v (alien_shoot_cooldown s) (paused s)
    (shots_fired s) (mystery_ship s) (mystery_ship_direction s)
    (mystery_ship_cooldown s).

Definition set_alien_shoot_cooldown (v : Z) (s : State) : State :=
  mkState (player_x s) (player_y s) (bullets s) (alien_bullets s) (aliens s)
    (alien_direction s) (alien_speed s) (alien_anim_counter s) (score s)
    (lives s) (level s) (game_over s) (keys_pressed s) v (paused s)
    (shots_fired s) (mystery_ship s) (mystery_ship_direction s)
    (mystery_ship_cooldown s).

Definition set_paused (v : bool) (s : State) : State :=
  mkState (player_x s) (player_y s) (bullets s) (alien_bullets s) (aliens s)
    (alien_direction s) (alien_speed s) (alien_anim_counter s) (score s)
    (lives s) (level s) (game_over s) (keys_pressed s)
    (alien_shoot_cooldown s) v (shots_fired s) (mystery_ship s)
    (mystery_ship_direction s) (mystery_ship_cooldown s).

Definition set_shots_fired (v : Z) (s : State) : State :=
  mkState (player_x s) (player_y s) (bullets s) (alien_bullets s) (aliens s)
    (alien_direction s) (alien_speed s) (alien_anim_counter s) (score s)
    (lives s) (level s) (game_over s) (keys_pressed s)
    (alien_shoot_cooldown s) (paused s) v (mystery_ship s)
    (mystery_ship_direction s) (mystery_ship_cooldown s).

Definition set_mystery_ship (v : option Bullet) (s : State) : State :=
  mkState (player_x s) (player_y s) (bullets s) (alien_bullets s) (aliens s)
    (alien_direction s) (alien_speed s) (alien_anim_counter s) (score s)
    (lives s) (level s) (game_over s) (keys_pressed s)
    (alien_shoot_cooldown s) (paused s) (shots_fired s) v
    (mystery_ship_direction s) (mystery_ship_cooldown s).

Definition set_mystery_ship_direction (v : Z) (s : State) : State :=
  mkState (player_x s) (player_y s) (bullets s) (alien_bullets s) (aliens s)
    (alien_direction s) (alien_speed s) (alien_anim_counter s) (score s)
    (lives s) (level s) (game_over s) (keys_pressed s)
    (alien_shoot_cooldown s) (paused s) (shots_fired s) (mystery_ship s) v
    (mystery_ship_cooldown s).

Definition set_mystery_ship_cooldown (v : Z) (s : State) : State :=
  mkState (player_x s) (player_y s) (bullets s) (alien_bullets s) (aliens s)
    (alien_direction s) (alien_speed s) (alien_anim_counter s) (score s)
    (lives s) (level s) (game_over s) (keys_pressed s)
    (alien_shoot_cooldown s) (paused s) (shots_fired s) (mystery_ship s)
    (mystery_ship_direction s) v.
(** [request_initials = pyqtSignal(int)]: the argument of [emit] is
    converted to a C++ [int], so a Python integer outside
    -2^31 .. 2^31 - 1 is delivered wrapped to 32 bits. *)
Definition c_int (z : Z) : Z := (z + 2 ^ 31) mod 2 ^ 32 - 2 ^ 31.

(** Signals the worker emits: [update_signal] carries either the
    one-key dictionary [{'alien_fire': True}] or a shallow copy of the
    state; [request_initials] carries a C++ [int], the score as
    [c_int] converts it. *)
Inductive Signal : Type :=
| UpdateAlienFire
| UpdateState (snapshot : State)
| RequestInitials (final_score : Z).

(** The [GameWorker] object: its state dictionary, [self.difficulty],
    [self.running], the generator it draws from and the signals it has
    emitted so far, oldest first. *)
Record Worker : Type := mkWorker {
  state : State;
  difficulty : Difficulty;
  running : bool;
  rng : Rng;
  emitted : list Signal
}.

Definition set_state (s : State) (w : Worker) : Worker :=
  mkWorker s (difficulty w) (running w) (rng w) (emitted w).

Definition set_difficulty (d : Difficulty) (w : Worker) : Worker :=
  mkWorker (state w) d (running w) (rng w) (emitted w).

Definition set_running (b : bool) (w : Worker) : Worker :=
  mkWorker (state w) (difficulty w) b (rng w) (emitted w).

Definition set_rng (g : Rng) (w : Worker) : Worker :=
  mkWorker (state w) (difficulty w) (running w) g (emitted w).

Definition emit (sig : Signal) (w : Worker) : Worker :=
  mkWorker (state w) (difficulty w) (running w) (rng w) (emitted w ++ [sig]).

Definition on_state (f : State -> State) (w : Worker) : Worker :=
  set_state (f (state w)) w.

(* ------------------------------------------------------------------ *)
(** ** [GameWorker.create_aliens] and [GameWorker.reset_state] *)

Definition alien_rows : list AlienType := [squid; crab; crab; octopus; octopus].

(** [enumerate(seq)], counting from [start]. *)
Fixpoint enumerate {A : Type} (start : Z) (seq : list A) : list (Z * A) :=
  match seq with
  | [] => []
  | a :: rest => (start, a) :: enumerate (start + 1) rest
  end.

(** [range(n)]. *)
Definition range (n : nat) : list Z := map Z.of_nat (seq 0 n).

(** The inner loop [for col in range(11)]: one colour draw per alien,
    each alien appended to the list. *)
Fixpoint create_row (row : Z) (ty : AlienType) (cols : list Z)
    (acc : list Alien) (g : Rng) : list Alien * Rng :=
  match cols with
  | [] => (acc, g)
  | col :: cols' =>
      let (colour, g') := randint 0 5 g in
      create_row row ty cols'
        (acc ++ [mkAlien (50 + col * 50) (50 + row * 40) ty colour 0]) g'
  end.

(** The outer loop [for row, alien_type in enumerate(alien_rows)]. *)
Fixpoint create_rows (rows : list (Z * AlienType)) (acc : list Alien)
    (g : Rng) : list Alien * Rng :=
  match rows with
  | [] => (acc, g)
  | (row, ty) :: rows' =>
      let (acc', g') := create_row row ty (range 11) acc g in
      create_rows rows' acc' g'
  end.

Definition create_aliens (w : Worker) : Worker :=
  let (formation, g) := create_rows (enumerate 0 alien_rows) [] (rng w) in
  set_rng g (on_state (set_aliens formation) w).

(** [reset_state] builds a new dictionary (the countdown is drawn while
    the literal is evaluated) and then fills the formation.  The
    worker's own [keys_pressed] attribute never changes from both keys
    released, so the copy stored in the state is that. *)
Definition reset_state (w : Worker) : Worker :=
  let (countdown, g) := randint 600 1000 (rng w) in
  create_aliens
    (set_rng g
       (set_state
          (mkState ((WORLD_W - PLAYER_WIDTH) / 2)
             (WORLD_H - GROUND_HEIGHT - PLAYER_HEIGHT)
             [] [] [] 1 10 0 0 3 1 false (mkKeys false false) 0 false 0
             None 1 countdown)
          w)).

Definition start_game (d : Difficulty) (w : Worker) : Worker :=
  set_running true
    (on_state (set_alien_anim_counter 0) (reset_state (set_difficulty d w))).

(** [calculate_mystery_ship_score]: the counter is bumped first and the
    formula reads the bumped value.  Returns the points and the state. *)
Definition calculate_mystery_ship_score (s : State) : Z * State :=
  let s' := set_shots_fired (shots_fired s + 1) s in
  let increment := ((shots_fired s' + 22) mod 15) * 50 in
  (Z.min (50 + increment) 300, s').

(* ------------------------------------------------------------------ *)
(** ** [GameWorker.update_logic], phase by phase *)

(** Player movement: both tests run, left first. *)
Definition player_movement (s : State) : State :=
  let s1 :=
    if key_left (keys_pressed s)
    then set_player_x (Z.max 0 (player_x s - 10)) s
    else s in
  if key_right (keys_pressed s1)
  then set_player_x (Z.min (WORLD_W - PLAYER_WIDTH) (player_x s1 + 10)) s1
  else s1.

(** [[[bx, by - 20] for bx, by in bullets if by > 0]] *)
Fixpoint advance_bullets (bs : list Bullet) : list Bullet :=
  match bs with
  | [] => []
  | (bx, by_) :: rest =>
      if by_ >? 0 then (bx, by_ - 20) :: advance_bullets rest
      else advance_bullets rest
  end.

(** [[[bx, by + 15] for bx, by in alien_bullets if by < WORLD_H]] *)
Fixpoint advance_alien_bullets (bs : list Bullet) : list Bullet :=
  match bs with
  | [] => []
  | (bx, by_) :: rest =>
      if by_ <? WORLD_H then (bx, by_ + 15) :: advance_alien_bullets rest
      else advance_alien_bullets rest
  end.

Definition move_bullets (s : State) : State :=
  let s1 := set_bullets (advance_bullets (bullets s)) s in
  set_alien_bullets (advance_alien_bullets (alien_bullets s1)) s1.

Definition set_alien_xy (x y : Z) (a : Alien) : Alien :=
  mkAlien x y (alien_type a) (color_index a) (frame a).

Definition set_frame (f : Z) (a : Alien) : Alien :=
  mkAlien (alien_x a) (alien_y a) (alien_type a) (color_index a) f.

(** The movement loop: every alien's x advances by [dx]; [edge_hit]
    becomes true as soon as one moved alien is at an edge. *)
Fixpoint move_loop (dx : Z) (formation : list Alien) (edge_hit : bool)
    : list Alien * bool :=
  match formation with
  | [] => ([], edge_hit)
  | alien :: rest =>
      let x' := alien_x alien + dx in
      let edge_hit' :=
        if (x' <=? 0) || (x' >=? WORLD_W - 40) then true else edge_hit in
      let (rest', final) := move_loop dx rest edge_hit' in
      (set_alien_xy x' (alien_y alien) alien :: rest', final)
  end.

Definition toggle_frame (a : Alien) : Alien := set_frame ((frame a + 1) mod 2) a.

Definition step_down (a : Alien) : Alien :=
  set_alien_xy (alien_x a) (alien_y a + 20) a.

Definition ANIM_SPEED : Z := 5.

Definition move_aliens_and_animate (s : State) : State :=
  let s1 := set_alien_anim_counter (alien_anim_counter s + 1) s in
  let (moved, edge_hit) :=
    move_loop (alien_direction s1 * alien_speed s1) (aliens s1) false in
  let s2 := set_aliens moved s1 in
  let s3 :=
    if alien_anim_counter s2 >=? ANIM_SPEED
    then set_alien_anim_counter 0 (set_aliens (map toggle_frame (aliens s2)) s2)
    else s2 in
  if edge_hit
  then
    let s4 := set_alien_direction (alien_direction s3 * -1) s3 in
    set_aliens (map step_down (aliens s4)) s4
  else s3.

Definition cooldowns (d : Difficulty) : Z :=
  match d with E => 15 | M => 7 | H => 3 end.

(** Alien shooting.  [random.random()] is only called when the
    formation is not empty; the shooter is drawn after it. *)
Definition alien_shooting (w : Worker) : Worker :=
  let s := state w in
  if alien_shoot_cooldown s <=? 0 then
    match aliens s with
    | [] => w
    | first :: _ =>
        let (fires, g1) := random_lt_03 (rng w) in
        if fires then
          let (shooter, g2) := choice (aliens s) first g1 in
          let s1 :=
            set_alien_bullets
              (alien_bullets s ++ [(alien_x shooter + 18, alien_y shooter + 30)])
              s in
          let s2 := set_alien_shoot_cooldown (cooldowns (difficulty w)) s1 in
          emit UpdateAlienFire (set_rng g2 (set_state s2 w))
        else set_rng g1 w
    end
  else on_state (set_alien_shoot_cooldown (alien_shoot_cooldown s - 1)) w.

(** Mystery ship movement: count down and spawn, or move and leave. *)
Definition mystery_ship_movement (w : Worker) : Worker :=
  let s := state w in
  match mystery_ship s with
  | None =>
      let s1 := set_mystery_ship_cooldown (mystery_ship_cooldown s - 1) s in
      if mystery_ship_cooldown s1 <=? 0 then
        let (from_left, g) := choice [true; false] true (rng w) in
        let start_x := if from_left then 0 else WORLD_W - 60 in
        let direction := if start_x =? 0 then 1 else -1 in
        set_rng g
          (set_state
             (set_mystery_ship_direction direction
                (set_mystery_ship (Some (start_x, 50)) s1))
             w)
      else set_state s1 w
  | Some (mx, my) =>
      let mx' := mx + mystery_ship_direction s * 5 in
      let s1 := set_mystery_ship (Some (mx', my)) s in
      if (mx' <? -60) || (mx' >? WORLD_W) then
        let (countdown, g) := randint 600 1000 (rng w) in
        set_rng g
          (set_state
             (set_mystery_ship_cooldown countdown (set_mystery_ship None s1))
             w)
      else set_state s1 w
  end.

Definition bullet_rect (b : Bullet) : QRect := mkQRect (fst b) (snd b) 5 15.

Definition alien_hitbox (a : Alien) : QRect :=
  let padding := 5 in
  mkQRect (alien_x a - padding) (alien_y a - padding) (40 + padding) (30 + padding).

Definition ship_rect (ship : Bullet) : QRect := mkQRect (fst ship) (snd ship) 60 30.

Definition player_rect (s : State) : QRect :=
  mkQRect (player_x s) (player_y s) PLAYER_WIDTH PLAYER_HEIGHT.

Definition bullet_eqb (a b : Bullet) : bool :=
  (fst a =? fst b) && (snd a =? snd b).

(** [list.remove(b)]: drops the first element equal to [b]. *)
Fixpoint remove_bullet (b : Bullet) (bs : list Bullet) : list Bullet :=
  match bs with
  | [] => []
  | c :: rest => if bullet_eqb c b then rest else c :: remove_bullet b rest
  end.

(** The inner loop [for b in bullets: if ...intersects(target): ... break]:
    the first bullet whose rectangle meets [target], if any. *)
Fixpoint first_hit (target : QRect) (bs : list Bullet) : option Bullet :=
  match bs with
  | [] => None
  | b :: rest =>
      if intersects (bullet_rect b) target then Some b
      else first_hit target rest
  end.

Definition multiplier (d : Difficulty) : Z :=
  match d with E => 1 | M => 2 | H => 3 end.

(** Player bullets against aliens: the outer loop over the formation. *)
Fixpoint collision_loop (d : Difficulty) (formation : list Alien)
    (remaining_aliens : list Alien) (s : State) : list Alien * State :=
  match formation with
  | [] => (remaining_aliens, s)
  | alien :: rest =>
      match first_hit (alien_hitbox alien) (bullets s) with
      | Some b =>
          let s1 := set_score (score s + 10 * multiplier d) s in
          let s2 := set_bullets (remove_bullet b (bullets s1)) s1 in
          collision_loop d rest remaining_aliens s2
      | None => collision_loop d rest (remaining_aliens ++ [alien]) s
      end
  end.

Definition collision_detection (w : Worker) : Worker :=
  let (remaining_aliens, s) :=
    collision_loop (difficulty w) (aliens (state w)) [] (state w) in
  set_state (set_aliens remaining_aliens s) w.

(** Player bullets against the mystery ship.  The augmented assignment
    to the score reads the old score, then calls the scoring method. *)
Definition mystery_ship_collisions (w : Worker) : Worker :=
  let s := state w in
  match mystery_ship s with
  | None => w
  | Some ship =>
      match first_hit (ship_rect ship) (bullets s) with
      | None => w
      | Some b =>
          let s1 := set_bullets (remove_bullet b (bullets s)) s in
          let old_score := score s1 in
          let (points, s2) := calculate_mystery_ship_score s1 in
          let s3 := set_score (old_score + points) s2 in
          let s4 := set_mystery_ship None s3 in
          let (countdown, g) := randint 600 1000 (rng w) in
          set_rng g (set_state (set_mystery_ship_cooldown countdown s4) w)
      end
  end.

(** Alien bullets against the player: the loop runs over a copy of the
    list taken before it starts and does not stop at game over. *)
Fixpoint player_hit_loop (copy : list Bullet) (w : Worker) : Worker :=
  match copy with
  | [] => w
  | b :: rest =>
      let s := state w in
      if intersects (bullet_rect b) (player_rect s) then
        let s1 := set_lives (lives s - 1) s in
        let s2 := set_alien_bullets (remove_bullet b (alien_bullets s1)) s1 in
        let w1 := set_state s2 w in
        let w2 :=
          if lives s2 <=? 0
          then emit (RequestInitials (c_int (score s2))) (on_state (set_game_over true) w1)
          else w1 in
        player_hit_loop rest w2
      else player_hit_loop rest w
  end.

Definition alien_bullets_hit_player (w : Worker) : Worker :=
  player_hit_loop (alien_bullets (state w)) w.

Definition level_completion (w : Worker) : Worker :=
  match aliens (state w) with
  | [] =>
      let s1 := set_level (level (state w) + 1) (state w) in
      let s2 := set_alien_speed (alien_speed s1 + 2) s1 in
      create_aliens (set_state s2 w)
  | _ :: _ => w
  end.

(** Aliens reaching the player's row: the loop breaks at the first one. *)
Fixpoint reach_bottom_loop (formation : list Alien) (w : Worker) : Worker :=
  match formation with
  | [] => w
  | alien :: rest =>
      if alien_y alien + 30 >=? player_y (state w)
      then emit (RequestInitials (c_int (score (state w)))) (on_state (set_game_over true) w)
      else reach_bottom_loop rest w
  end.

Definition aliens_reach_bottom (w : Worker) : Worker :=
  reach_bottom_loop (aliens (state w)) w.

(** The tick up to and including the player bullets against the
    aliens, that is up to the mystery-ship collision test. *)
Definition before_ship_collisions (w : Worker) : Worker :=
  collision_detection
    (mystery_ship_movement
       (alien_shooting
          (on_state
             (fun s => move_aliens_and_animate (move_bullets (player_movement s)))
             w))).

(** The tick up to and including collision resolution. *)
Definition resolve_collisions (w : Worker) : Worker :=
  alien_bullets_hit_player (mystery_ship_collisions (before_ship_collisions w)).

Definition emit_state (w : Worker) : Worker := emit (UpdateState (state w)) w.

Definition update_logic (w : Worker) : Worker :=
  if game_over (state w) then w
  else emit_state (aliens_reach_bottom (level_completion (resolve_collisions w))).

(** One iteration of the loop in [run]. *)
Definition run_iteration (w : Worker) : Worker :=
  if paused (state w) then w else update_logic w.

(* ------------------------------------------------------------------ *)
(** ** The widget's key handlers

    The widget keeps the last dictionary it received in [self.state].
    A snapshot is a shallow copy, so its ['bullets'] entry is the very
    list the worker holds until [reset_state] builds a new dictionary:
    [shares_bullets] records whether the two are still the same list.
    [gui_state] is [None] while the widget's dictionary has no
    ['bullets'] key (before the first snapshot).  The model starts once
    the worker has a populated state, that is from the first
    [start_game] on, and takes the events one at a time: a key handler
    runs between two iterations of the worker loop, not inside one. *)

Inductive Key : Type :=
| Key_Left | Key_Right | Key_Space | Key_Q | Key_R | Key_P
| Key_L | Key_S | Key_M | Key_E | Key_H | Key_Other.

Record Widget : Type := mkWidget {
  worker : Worker;
  gui_keys : Keys;
  selecting_difficulty : bool;
  space_pressed : bool;
  gui_state : option State;
  shares_bullets : bool
}.

Definition set_worker (w : Worker) (g : Widget) : Widget :=
  mkWidget w (gui_keys g) (selecting_difficulty g) (space_pressed g)
    (gui_state g) (shares_bullets g).

Definition set_gui_keys (k : Keys) (g : Widget) : Widget :=
  mkWidget (worker g) k (selecting_difficulty g) (space_pressed g)
    (gui_state g) (shares_bullets g).

Definition set_selecting_difficulty (b : bool) (g : Widget) : Widget :=
  mkWidget (worker g) (gui_keys g) b (space_pressed g)
    (gui_state g) (shares_bullets g).

Definition set_space_pressed (b : bool) (g : Widget) : Widget :=
  mkWidget (worker g) (gui_keys g) (selecting_difficulty g) b
    (gui_state g) (shares_bullets g).

Definition set_gui_state (v : option State) (shared : bool) (g : Widget) : Widget :=
  mkWidget (worker g) (gui_keys g) (selecting_difficulty g) (space_pressed g)
    v shared.

Definition update_key_state (g : Widget) : Widget :=
  set_worker (on_state (set_keys_pressed (gui_keys g)) (worker g)) g.

(** The Space branch: the new bullet goes on the list of the widget's
    snapshot, which is the worker's list when the two are shared. *)
Definition fire (g : Widget) : Widget :=
  match gui_state g with
  | Some snap =>
      if space_pressed g then g
      else
        let b := (player_x snap + PLAYER_WIDTH / 2 - 2, player_y snap) in
        let g1 :=
          set_gui_state (Some (set_bullets (bullets snap ++ [b]) snap))
            (shares_bullets g) g in
        let g2 :=
          if shares_bullets g
          then set_worker
                 (on_state (fun s => set_bullets (bullets s ++ [b]) s) (worker g1))
                 g1
          else g1 in
        set_space_pressed true g2
  | None => g
  end.

(** The R branch. *)
Definition restart (g : Widget) : Widget :=
  let g1 := set_worker (reset_state (set_running false (worker g))) g in
  let g2 := set_gui_state (gui_state g1) false g1 in
  let g3 := update_key_state (set_gui_keys (mkKeys false false) g2) in
  set_selecting_difficulty true g3.

(** The M branch (debug spawn). *)
Definition debug_spawn (g : Widget) : Widget :=
  let w := worker g in
  match mystery_ship (state w) with
  | None =>
      let (from_left, r) := choice [true; false] true (rng w) in
      let start_x := if from_left then 0 else WORLD_W - 60 in
      let direction := if start_x =? 0 then 1 else -1 in
      set_worker
        (set_rng r
           (on_state
              (fun s =>
                 set_mystery_ship_cooldown 1000
                   (set_mystery_ship_direction direction
                      (set_mystery_ship (Some (start_x, 50)) s)))
              w))
        g
  | Some _ => g
  end.

Definition difficulty_of_key (k : Key) : option Difficulty :=
  match k with
  | Key_E => Some E
  | Key_M => Some M
  | Key_H => Some H
  | _ => None
  end.

Definition keyPressEvent (k : Key) (g : Widget) : Widget :=
  let g1 :=
    match k with
    | Key_Left => set_gui_keys (mkKeys true (key_right (gui_keys g))) g
    | Key_Right => set_gui_keys (mkKeys (key_left (gui_keys g)) true) g
    | Key_Space => fire g
    | Key_Q => g
    | Key_R => restart g
    | Key_P =>
        set_worker (on_state (fun s => set_paused (negb (paused s)) s) (worker g)) g
    | Key_L =>
        set_worker (on_state (fun s => set_lives (lives s + 1) s) (worker g)) g
    | Key_S =>
        set_worker (on_state (fun s => set_score (score s + 100) s) (worker g)) g
    | Key_M => debug_spawn g
    | _ => g
    end in
  if selecting_difficulty g1 then
    match difficulty_of_key k with
    | Some d =>
        set_gui_state (gui_state g1) false
          (set_worker (start_game d (worker g1))
             (set_selecting_difficulty false g1))
    | None => g1
    end
  else update_key_state g1.

Definition keyReleaseEvent (k : Key) (g : Widget) : Widget :=
  let g1 :=
    match k with
    | Key_Left => set_gui_keys (mkKeys false (key_right (gui_keys g))) g
    | Key_Right => set_gui_keys (mkKeys (key_left (gui_keys g)) false) g
    | _ => g
    end in
  let g2 := match k with Key_Space => set_space_pressed false g1 | _ => g1 end in
  update_key_state g2.

(** One iteration of the worker thread; a snapshot, when one is
    emitted, replaces the widget's dictionary ([receive_state]). *)
Definition tick (g : Widget) : Widget :=
  let w := worker g in
  if running w then
    let w' := run_iteration w in
    let g1 := set_worker w' g in
    if paused (state w) || game_over (state w) then g1
    else set_gui_state (Some (state w')) true g1
  else g.

Inductive Event : Type :=
| KeyPress (k : Key)
| KeyRelease (k : Key)
| Tick.

Definition handle (ev : Event) (g : Widget) : Widget :=
  match ev with
  | KeyPress k => keyPressEvent k g
  | KeyRelease k => keyReleaseEvent k g
  | Tick => tick g
  end.

(** The widget after a sequence of events, first event first. *)
Definition run_events (evs : list Event) (g : Widget) : Widget :=
  fold_left (fun acc ev => handle ev acc) evs g.

(* ------------------------------------------------------------------ *)
(** ** The [HighScores] class

    A Python string is a sequence of Unicode code points.  [str.strip]
    removes the whitespace code points at both ends; [str.upper]
    replaces every code point by its uppercase mapping, which for some
    code points is more than one code point long.  The mapping table is
    an argument of the model ([upper_char]); [upper_latin1] is the table
    on U+0000 .. U+00FF.

    The scores file is described by what [open] and [json.load] make of
    it; the model keeps in the file the value [json.load] builds from
    the document.  [json.dump] writes a list of dictionaries of strings
    and integers as ASCII text; reading it back returns the list with
    two differences.  A string in which a high surrogate is directly
    followed by a low surrogate comes back with the two merged into the
    code point the pair encodes.  An integer of more than 4300 decimal
    digits is refused by the conversion between [int] and [str], both
    when writing and when reading: a [ValueError]. *)

Module HighScores.

Local Open Scope N_scope.

Definition char : Type := N.
Definition str : Type := list char.

Definition isspace (c : char) : bool :=
  ((9 <=? c) && (c <=? 13)) || ((28 <=? c) && (c <=? 32))
  || (c =? 133) || (c =? 160) || (c =? 5760)
  || ((8192 <=? c) && (c <=? 8202))
  || (c =? 8232) || (c =? 8233) || (c =? 8239) || (c =? 8287) || (c =? 12288).

Fixpoint lstrip (s : str) : str :=
  match s with
  | [] => []
  | c :: rest => if isspace c then lstrip rest else s
  end.

Definition rstrip (s : str) : str := rev (lstrip (rev s)).

Definition strip (s : str) : str := rstrip (lstrip s).

Definition upper (upper_char : char -> str) (s : str) : str :=
  flat_map upper_char s.

(** Uppercase mappings of the code points below U+0100: a-z, the
    Latin-1 lowercase letters, the micro sign (to Greek capital mu),
    sharp s (to the two letters SS) and y with diaeresis (to U+0178). *)
Definition upper_latin1 (c : char) : str :=
  if (97 <=? c) && (c <=? 122) then [c - 32]
  else if c =? 181 then [924]
  else if c =? 223 then [83; 83]
  else if (224 <=? c) && (c <=? 254) && negb (c =? 247) then [c - 32]
  else if c =? 255 then [376]
  else [c].

Local Close Scope N_scope.
Local Open Scope Z_scope.

Record Entry : Type := mkEntry { initials : str; score : Z }.

(** [sys.get_int_max_str_digits()], 4300 unless the interpreter is told
    otherwise: [int.__repr__] and [int(str)] raise [ValueError] on an
    integer with more decimal digits. *)
Definition int_max_str_digits : Z := 4300.

Definition int_str_ok (z : Z) : bool := Z.abs z <? 10 ^ int_max_str_digits.

(** Whether [json.dump] writes the whole table, and [json.load] reads
    it: every score converts. *)
Definition scores_convert (table : list Entry) : bool :=
  forallb (fun e => int_str_ok (score e)) table.

Local Open Scope N_scope.

Definition is_high_surrogate (c : char) : bool := (55296 <=? c) && (c <=? 56319).
Definition is_low_surrogate (c : char) : bool := (56320 <=? c) && (c <=? 57343).

(** The string [json.load] returns for the text [json.dump] writes for
    [s].  Every code point outside ASCII is written as [\uXXXX] escapes,
    a code point above U+FFFF as its surrogate pair; reading merges
    every high surrogate escape directly followed by a low surrogate
    escape, also when the two were separate code points of [s]. *)
Fixpoint json_reload_str (s : str) : str :=
  match s with
  | [] => []
  | h :: rest =>
      match rest with
      | l :: rest' =>
          if is_high_surrogate h && is_low_surrogate l
          then (65536 + (h - 55296) * 1024 + (l - 56320)) :: json_reload_str rest'
          else h :: json_reload_str rest
      | [] => [h]
      end
  end.

Local Close Scope N_scope.

Definition json_reload (table : list Entry) : list Entry :=
  map (fun e => mkEntry (json_reload_str (initials e)) (score e)) table.

(** What [json.load] returns for a document it reads to the end: a list
    of score entries, or some other JSON value. *)
Inductive Loaded : Type :=
| Scores (table : list Entry)
| OtherJson.

Inductive FileState : Type :=
| Missing        (* no such file *)
| Unreadable     (* the path exists but cannot be opened for reading *)
| Undecodable    (* bytes that are not text in the platform's encoding *)
| NotJson        (* text that is not a JSON document; also the empty file
                    and a document cut short *)
| JsonDoc (v : Loaded)   (* a JSON document, [v] the value it denotes *)
| HugeIntJson    (* a JSON document, not a score list, with an integer
                    of more than 4300 digits *)
| DeepJson.      (* a JSON document nested deeper than the interpreter's
                    recursion limit *)

Inductive Exn : Type :=
| OSError | UnicodeDecodeError | JSONDecodeError | ValueError | RecursionError.

Inductive Result (A : Type) : Type :=
| Ok (a : A)
| Raise (e : Exn).

Arguments Ok {A} a.
Arguments Raise {A} e.

Definition exists_ (f : FileState) : bool :=
  match f with Missing => false | _ => true end.

(** [with open(file, "r") as f: json.load(f)] *)
Definition open_and_json_load (f : FileState) : Result Loaded :=
  match f with
  | Missing => Raise OSError
  | Unreadable => Raise OSError
  | Undecodable => Raise UnicodeDecodeError
  | NotJson => Raise JSONDecodeError
  | JsonDoc (Scores table) =>
      if scores_convert table then Ok (Scores table) else Raise ValueError
  | JsonDoc OtherJson => Ok OtherJson
  | HugeIntJson => Raise ValueError
  | DeepJson => Raise RecursionError
  end.

(** Only [json.JSONDecodeError] is caught; [ValueError] is its base
    class, not a subclass. *)
Definition load_scores (f : FileState) : Result Loaded :=
  if exists_ f then
    match open_and_json_load f with
    | Raise JSONDecodeError => Ok (Scores [])
    | other => other
    end
  else Ok (Scores []).

(** The file and whether it can be written. *)
Record Disk : Type := mkDisk { file : FileState; writable : bool }.

(** [save_scores], the disk it leaves.  A disk that is not writable
    refuses the [open]: the [OSError] is caught and reported, the file
    stays as it was.  Otherwise [open(file, "w")] empties the file and
    [json.dump(self.scores, f, indent=2)] writes the document piece by
    piece; when a score does not convert, the pieces before it are in
    the file, which then holds a document cut short. *)
Definition save_scores (table : list Entry) (d : Disk) : Disk :=
  if writable d then
    if scores_convert table
    then mkDisk (JsonDoc (Scores (json_reload table))) (writable d)
    else mkDisk NotJson (writable d)
  else d.

(** [save_scores], the exception that escapes it: the handler catches
    [OSError] only, so the [ValueError] of [json.dump] goes through. *)
Definition save_scores_raises (table : list Entry) (d : Disk) : option Exn :=
  if writable d && negb (scores_convert table) then Some ValueError else None.

Definition is_high_score (table : list Entry) (sc : Z) : bool :=
  if (length table <? 10)%nat then true
  else existsb (fun s => sc >? score s) table.

(** [list.sort(key=lambda x: x['score'], reverse=True)]: Python's sort
    is stable, also with [reverse=True].  The model inserts each entry,
    last first, in front of the first entry that does not beat it. *)
Fixpoint insert_desc (e : Entry) (sorted : list Entry) : list Entry :=
  match sorted with
  | [] => [e]
  | h :: t => if score e >=? score h then e :: h :: t else h :: insert_desc e t
  end.

Fixpoint sort_desc (l : list Entry) : list Entry :=
  match l with
  | [] => []
  | e :: rest => insert_desc e (sort_desc rest)
  end.

(** [add_score], the table it leaves in [self.scores] and the disk:
    the table is assigned before [save_scores] is called. *)
Definition add_score (upper_char : char -> str) (name : str) (sc : Z)
    (table : list Entry) (d : Disk) : list Entry * Disk :=
  let appended := table ++ [mkEntry (upper upper_char (firstn 3 (strip name))) sc] in
  let sorted := sort_desc appended in
  let kept := firstn 10 sorted in
  (kept, save_scores kept d).

(** [add_score], the exception that escapes it: that of [save_scores]. *)
Definition add_score_raises (upper_char : char -> str) (name : str) (sc : Z)
    (table : list Entry) (d : Disk) : option Exn :=
  save_scores_raises (fst (add_score upper_char name sc table d)) d.

End HighScores.

(* ------------------------------------------------------------------ *)
(** ** [SpaceInvadersGame.get_initials]

    The dialog returns the text typed and whether it was accepted.  A
    text that is accepted and not empty is cut to 3 characters and
    uppercased by the widget, then handed to [add_score], which strips,
    cuts and uppercases once more.  The call is wrapped in
    [try ... except Exception]: whatever [add_score] raises is caught
    and reported, so [get_initials] leaves the table and the disk of
    [add_score] and raises nothing. *)

Definition get_initials (upper_char : HighScores.char -> HighScores.str)
    (text : HighScores.str) (ok : bool) (sc : Z)
    (table : list HighScores.Entry) (d : HighScores.Disk)
    : list HighScores.Entry * HighScores.Disk :=
  match ok, text with
  | true, _ :: _ =>
      let initials := HighScores.upper upper_char (firstn 3 text) in
      HighScores.add_score upper_char initials sc table d
  | _, _ => (table, d)
  end.

(* ------------------------------------------------------------------ *)
(** ** Vocabulary for the statements *)

(** The entries of the state that only one phase of the tick, or none,
    ever assigns. *)
Definition session_fields (s : State) : Z * Z * Z * Z * Z * Z * Z :=
  (player_x s, player_y s, alien_direction s, alien_speed s,
   alien_anim_counter s, level s, shots_fired s).

(** The [k]-th alien of a fresh formation, numbered row by row, when
    the colours are drawn from generator [g]. *)
Definition fresh_alien (g : Rng) (k : nat) : Alien :=
  mkAlien (50 + Z.of_nat (k mod 11) * 50) (50 + Z.of_nat (k / 11) * 40)
    (nth (k / 11) alien_rows octopus)
    (tape g (k + cursor g) mod 6) 0.

(** Whether the formation of [s], moved by one tick, touches an edge. *)
Definition edge_hit_of (s : State) : bool :=
  existsb
    (fun a =>
       let x' := alien_x a + alien_direction s * alien_speed s in
       (x' <=? 0) || (x' >=? WORLD_W - 40))
    (aliens s).

(** The number of [request_initials] signals in a list of signals. *)
Fixpoint count_request_initials (sigs : list Signal) : nat :=
  match sigs with
  | [] => 0%nat
  | RequestInitials _ :: rest => S (count_request_initials rest)
  | _ :: rest => count_request_initials rest
  end.

(** An alien of the formation after the formation phase: moved
    sideways by [dx], down by [dy], with its frame toggled or not. *)
Definition moved_alien (dx dy : Z) (toggle : bool) (a : Alien) : Alien :=
  mkAlien (alien_x a + dx) (alien_y a + dy) (alien_type a) (color_index a)
    (if toggle then (frame a + 1) mod 2 else frame a).

(** Whether some player bullet of [s] meets the mystery ship of [s]. *)
Definition ship_is_hit (s : State) : bool :=
  match mystery_ship s with
  | Some ship =>
      match first_hit (ship_rect ship) (bullets s) with
      | Some _ => true
      | None => false
      end
  | None => false
  end.

(** Whether a key press goes through [reset_state]: R always, and a
    difficulty key while the difficulty is being selected. *)
Definition is_restart_key (k : Key) : bool :=
  match k with Key_R => true | _ => false end.

Definition is_difficulty_key (k : Key) : bool :=
  match difficulty_of_key k with Some _ => true | None => false end.

Definition key_resets (k : Key) (g : Widget) : bool :=
  is_restart_key k || (selecting_difficulty g && is_difficulty_key k).

(** Whether the formation is empty after collision resolution. *)
Definition formation_cleared (w : Worker) : bool :=
  match aliens (state (resolve_collisions w)) with [] => true | _ :: _ => false end.

(** Whether an iteration of the worker loop runs the game logic. *)
Definition ticking (w : Worker) : bool :=
  running w && negb (paused (state w)) && negb (game_over (state w)).

Definition event_resets (ev : Event) (g : Widget) : bool :=
  match ev with KeyPress k => key_resets k g | _ => false end.

(** A run of events that stays within one session: no event of it
    goes through [reset_state]. *)
Fixpoint within_session (evs : list Event) (g : Widget) : bool :=
  match evs with
  | [] => true
  | ev :: rest => negb (event_resets ev g) && within_session rest (handle ev g)
  end.

(** The player's x after the movement step, spelled out by key. *)
Definition moved_x (k : Keys) (x : Z) : Z :=
  match key_left k, key_right k with
  | false, false => x
  | true, false => Z.max 0 (x - 10)
  | false, true => Z.min (WORLD_W - PLAYER_WIDTH) (x + 10)
  | true, true => Z.min (WORLD_W - PLAYER_WIDTH) (Z.max 0 (x - 10) + 10)
  end.

Definition in_world (x : Z) : Prop := 0 <= x <= WORLD_W - PLAYER_WIDTH.

(** [sub] is [l] with some elements left out, the others in order. *)
Inductive subsequence {A : Type} : list A -> list A -> Prop :=
| subsequence_nil : subsequence [] []
| subsequence_keep (a : A) (sub l : list A) :
    subsequence sub l -> subsequence (a :: sub) (a :: l)
| subsequence_drop (a : A) (sub l : list A) :
    subsequence sub l -> subsequence sub (a :: l).

(** Entries ordered by score, highest first. *)
Definition score_descending (t : list HighScores.Entry) : Prop :=
  StronglySorted (fun a b => HighScores.score a >= HighScores.score b) t.


(* ------------------------------------------------------------------ *)
(** ** Concrete situations used below *)

(** A generator whose tape starts with the given draws and is 0 after. *)
Definition rng_of (draws : list Z) : Rng := mkRng (fun n => nth n draws 0) 0.

(** Mid-game, Easy, at the mystery-ship collision test: the player in
    the middle, one crab left in the formation, the mystery ship at
    x = 500 with two player bullets on it and a third bullet elsewhere;
    two mystery ships shot so far. *)
Definition ship_under_fire : Worker :=
  mkWorker
    (mkState 470 710 [(108, 410); (518, 70); (528, 50)] []
       [mkAlien 300 130 crab 2 0] 1 10 0 700 3 1 false (mkKeys false false)
       4 false 2 (Some (500, 50)) 1 0)
    E true (rng_of [7; 123]) [].

(** Level 1, Easy, formation moving left at speed 10: the last alien
    of the formation, at (310, 130), with a player bullet at (308, 150)
    that meets it after both have moved this tick. *)
Definition last_alien_shot : Worker :=
  mkWorker
    (mkState 470 710 [(308, 150)] []
       [mkAlien 310 130 crab 2 0] (-1) 10 0 540 3 1 false (mkKeys false false)
       4 false 0 None 1 500)
    E true (rng_of [3; 1; 4; 1; 5; 9; 2; 6]) [].

(** Last life on Hard: two alien bullets, fired from different rows,
    both over the player after this tick's advance; the formation is
    still high up. *)
Definition two_bullets_last_life : Worker :=
  mkWorker
    (mkState 470 710 [] [(478, 700); (498, 715)]
       [mkAlien 300 130 crab 2 0; mkAlien 350 210 octopus 4 0]
       1 10 0 120 1 1 false (mkKeys false false)
       2 false 0 None 1 500)
    H true (rng_of []) [].

(** Last life on Easy: one alien bullet over the player while the
    formation, one step from the right edge, is about to come down to
    the player's row. *)
Definition lethal_hit_and_landing : Worker :=
  mkWorker
    (mkState 470 710 [] [(478, 700)]
       [mkAlien 950 670 crab 2 0]
       1 10 0 120 1 1 false (mkKeys false false)
       2 false 0 None 1 500)
    E true (rng_of []) [].

(** Last life on Easy: exactly one alien bullet over the player, the
    formation high up. *)
Definition one_bullet_last_life : Worker :=
  mkWorker
    (mkState 470 710 [] [(478, 700); (108, 300)]
       [mkAlien 300 130 crab 2 0; mkAlien 350 210 octopus 4 0]
       1 10 0 120 1 1 false (mkKeys false false)
       2 false 0 None 1 500)
    E true (rng_of []) [].

(** A widget right after the difficulty Easy was chosen. *)
Definition fresh_game : Widget :=
  mkWidget
    (start_game E
       (mkWorker (state last_alien_shot) E false (rng_of [250; 1; 2; 3; 4; 5]) []))
    (mkKeys false false) false false None false.

(** Hold Left for two ticks, release it, fire, one more tick. *)
Definition left_left_fire : list Event :=
  [KeyPress Key_Left; Tick; Tick; KeyRelease Key_Left; KeyPress Key_Space; Tick].

(** A worker about to be reset, the generator's next draw being 400. *)
Definition before_reset : Worker :=
  mkWorker (state last_alien_shot) E false (rng_of [400; 1; 2; 3]) [].

(** The mystery ship with its left side on the right border, moving
    right; the generator's next draw is 400. *)
Definition ship_leaving : Worker :=
  mkWorker
    (mkState 470 710 [] []
       [mkAlien 300 130 crab 2 0] 1 10 0 40 3 1 false (mkKeys false false)
       4 false 0 (Some (1000, 50)) 1 0)
    E true (rng_of [400]) [].

(** [ship_under_fire] with the generator's next draw being 400. *)
Definition ship_under_fire_400 : Worker :=
  set_rng (rng_of [400]) ship_under_fire.

(** The initials "ßab": sharp s, a, b. *)
Definition sharp_s_a_b : HighScores.str := [223%N; 97%N; 98%N].

(** The initials " zed " with a leading and a trailing blank. *)
Definition blank_zed_blank : HighScores.str := [32%N; 122%N; 101%N; 100%N; 32%N].

(** A table of three entries, AAA 500, BBB 300, CCC 300. *)
Definition three_entries : list HighScores.Entry :=
  [HighScores.mkEntry [65%N; 65%N; 65%N] 500;
   HighScores.mkEntry [66%N; 66%N; 66%N] 300;
   HighScores.mkEntry [67%N; 67%N; 67%N] 300].

Definition writable_disk : HighScores.Disk :=
  HighScores.mkDisk (HighScores.JsonDoc (HighScores.Scores three_entries)) true.

Definition read_only_disk : HighScores.Disk :=
  HighScores.mkDisk (HighScores.JsonDoc (HighScores.Scores three_entries)) false.

(* ------------------------------------------------------------------ *)
(** ** More vocabulary *)

(** Whether bullet [b] meets rectangle [r]. *)
Definition meets (r : QRect) (b : Bullet) : bool := intersects (bullet_rect b) r.

(** Whether an alien of the formation of [s] has come down to the
    player's row. *)
Definition landed (s : State) : bool :=
  existsb (fun a => alien_y a + 30 >=? player_y s) (aliens s).

(** The worker when the alien-bullets-against-player phase starts. *)
Definition before_player_hits (w : Worker) : Worker :=
  mystery_ship_collisions (before_ship_collisions w).

(** The worker when the landing test starts. *)
Definition before_landing (w : Worker) : Worker :=
  level_completion (resolve_collisions w).

(** The score, the lives and the game-over flag of a state. *)
Definition tally (s : State) : Z * Z * bool := (score s, lives s, game_over s).

(** Easy, the mystery ship absent with its countdown at 1: it spawns
    this tick, from the left when the generator's next draw is even. *)
Definition ship_about_to_spawn : Worker :=
  mkWorker
    (mkState 470 710 [] []
       [mkAlien 300 130 crab 2 0] 1 10 0 40 3 1 false (mkKeys false false)
       4 false 0 None 1 1)
    E true (rng_of [6]) [].

(** What holds of the session entries throughout a session. *)
Definition fields_ok (f : Z * Z * Z * Z * Z * Z * Z) : Prop :=
  let '(_, py, dir, spd, cnt, lvl, sf) := f in
  py = 710 /\ (dir = 1 \/ dir = -1) /\ spd = 8 + 2 * lvl /\ 1 <= lvl /\
  0 <= cnt <= 4 /\ 0 <= sf.

(** What no key press short of a reset can change: the game-over flag,
    the formation, the alien bullets and the signals emitted so far. *)
Definition frozen (w : Worker) : bool * list Alien * list Bullet * list Signal :=
  (game_over (state w), aliens (state w), alien_bullets (state w), emitted w).

(** A finished game: [lethal_hit_and_landing] one tick later, shown in
    a widget that has received the snapshot. *)
Definition finished_game : Widget :=
  mkWidget (update_logic lethal_hit_and_landing) (mkKeys false false) false false
    (Some (state (update_logic lethal_hit_and_landing))) true.

(** Ticks and key presses after the end: extra life, extra score, fire,
    move, pause and unpause. *)
Definition after_the_end : list Event :=
  [Tick; KeyPress Key_L; Tick; KeyPress Key_S; KeyPress Key_Space; Tick;
   KeyPress Key_Left; Tick; KeyPress Key_P; Tick; KeyPress Key_P; Tick].

(** The entries of [t] that score at least [sc], and those that score
    less, each in the order of [t]. *)
Definition at_least (sc : Z) (t : list HighScores.Entry) : list HighScores.Entry :=
  filter (fun x => HighScores.score x >=? sc) t.

Definition below (sc : Z) (t : list HighScores.Entry) : list HighScores.Entry :=
  filter (fun x => HighScores.score x <? sc) t.

(** A full table: ten entries with the scores 1000, 900, ..., 500, 500. *)
Definition full_table : list HighScores.Entry :=
  map (fun sc => HighScores.mkEntry [65%N; 65%N; 65%N] sc)
    [1000; 900; 800; 800; 700; 700; 600; 600; 500; 500].

(** The score and the lives of the worker. *)
Definition purse (w : Worker) : Z * Z := (score (state w), lives (state w)).

(** Presses of L (the extra-life key) among the events. *)
Definition is_extra_life (ev : Event) : bool :=
  match ev with KeyPress Key_L => true | _ => false end.

Definition extra_lives (evs : list Event) : nat :=
  length (filter is_extra_life evs).

(** The dictionary [reset_state] builds: everything at its initial
    value, the formation drawn with the generator [g], the spawn
    countdown as drawn. *)
Definition fresh_state (g : Rng) (countdown : Z) : State :=
  mkState 470 710 [] [] (map (fresh_alien g) (seq 0 55)) 1 10 0 0 3 1 false
    (mkKeys false false) 0 false 0 None 1 countdown.

(** Whether the widget shows the difficulty menu, and whether the
    worker loop runs. *)
Definition mode (g : Widget) : bool * bool :=
  (selecting_difficulty g, running (worker g)).

(** The difficulty menu after a finished game, with the game paused
    and the left arrow held down. *)
Definition menu_with_left_held : Widget :=
  keyPressEvent Key_Left (keyPressEvent Key_P (keyPressEvent Key_R finished_game)).

(** Every alien of the formation strictly between [lo] and [hi]. *)
Definition formation_in (lo hi : Z) (formation : list Alien) : Prop :=
  Forall (fun a => lo < alien_x a < hi) formation.

(** Where a formation can be between two events: strictly inside the
    edges (0 and [WORLD_W - 40]), or less than one step past or short
    of them and heading back in. *)
Definition formation_ok (formation : list Alien) (dir spd : Z) : Prop :=
  formation_in 0 (WORLD_W - 40) formation
  \/ (dir = 1 /\ formation_in (- spd) (WORLD_W - 40 - spd) formation)
  \/ (dir = -1 /\ formation_in spd (WORLD_W - 40 + spd) formation).

(* ------------------------------------------------------------------ *)
(** ** Runs from the difficulty menu *)

(** The widget when the program has started: the difficulty menu is
    shown, the worker loop is not running and has emitted nothing, the
    widget has received no snapshot.  The worker's dictionary is still
    empty then; [start_game] replaces it whole, and the record holds
    the initial values until it does: the runs below press nothing but
    a difficulty key on this widget.  [g] is the generator. *)
Definition first_menu (g : Rng) : Widget :=
  mkWidget (mkWorker (fresh_state g 600) E false g []) (mkKeys false false)
    true false None false.

(** A generator whose draws all end in 5: [random.random()] is never
    below 0.3, so no alien fires, and the first spawn countdown is 605. *)
Definition quiet_rng : Rng := mkRng (fun n => 5 + 10 * Z.of_nat n) 0.

(** Easy chosen at the first menu, with the quiet generator. *)
Definition quiet_easy_game : Widget := keyPressEvent Key_E (first_menu quiet_rng).

(** Press Space, release it, let one tick pass; and that [n] times.
    The player stays at x = 470 and fires straight up at x = 498. *)
Definition fire_round : list Event :=
  [KeyPress Key_Space; KeyRelease Key_Space; Tick].

Definition fire_rounds (n : nat) : list Event := concat (repeat fire_round n).

(** A generator under which, on Hard with nobody shooting at the
    formation, aliens 48, 48, 33 and 45 of the formation fire in ticks
    20, 24, 40 and 44 and no other alien fires: 56 draws for the spawn
    countdown and the colours, then one draw for each tick whose
    cooldown has run out, followed by the shooter's index when the draw
    is below 3. *)
Definition four_shots_rng : Rng :=
  mkRng
    (fun n =>
       nth n
         (repeat 5 56 ++ repeat 5 19 ++ [0; 48; 0; 48] ++ repeat 5 12 ++ [0; 33; 0; 45])
         5)
    0.

(** Hard chosen at the first menu with that generator. *)
Definition four_shots_game : Widget := keyPressEvent Key_H (first_menu four_shots_rng).

(* ------------------------------------------------------------------ *)
(** ** Tables that JSON carries unchanged *)



(** The text "zed" as typed into the dialog. *)
Definition zed : HighScores.str := [122%N; 101%N; 100%N].

(** A high surrogate followed by a low surrogate, as two code points:
    U+D83D, U+DE00. *)
Definition two_surrogates : HighScores.str := [55357%N; 56832%N].

(* ------------------------------------------------------------------ *)
(** * Properties *)

(** ** Records

    Two states are equal when all their entries are.  [state_fields]
    reads entries through the setters. *)

Lemma State_ext (s t : State) :
  player_x s = player_x t -> player_y s = player_y t ->
  bullets s = bullets t -> alien_bullets s = alien_bullets t ->
  aliens s = aliens t -> alien_direction s = alien_direction t ->
  alien_speed s = alien_speed t -> alien_anim_counter s = alien_anim_counter t ->
  score s = score t -> lives s = lives t -> level s = level t ->
  game_over s = game_over t -> keys_pressed s = keys_pressed t ->
  alien_shoot_cooldown s = alien_shoot_cooldown t -> paused s = paused t ->
  shots_fired s = shots_fired t -> mystery_ship s = mystery_ship t ->
  mystery_ship_direction s = mystery_ship_direction t ->
  mystery_ship_cooldown s = mystery_ship_cooldown t ->
  s = t.
Proof.
  destruct s, t. cbn. intros. subst. reflexivity.
Qed.

Ltac state_fields :=
  cbn [player_x player_y bullets alien_bullets aliens alien_direction alien_speed
       alien_anim_counter score lives level game_over keys_pressed
       alien_shoot_cooldown paused shots_fired mystery_ship mystery_ship_direction
       mystery_ship_cooldown
       set_player_x set_bullets set_alien_bullets set_aliens set_alien_direction
       set_alien_speed set_alien_anim_counter set_score set_lives set_level
       set_game_over set_keys_pressed set_alien_shoot_cooldown set_paused
       set_shots_fired set_mystery_ship set_mystery_ship_direction
       set_mystery_ship_cooldown].

(** ** The generator *)

Lemma randbelow_range (n : Z) (g : Rng) :
  0 < n -> 0 <= fst (randbelow n g) < n.
Proof.
  intros Hn. unfold randbelow. simpl. apply Z.mod_pos_bound. exact Hn.
Qed.

Lemma randint_range (a b : Z) (g : Rng) :
  a <= b -> a <= fst (randint a b g) <= b.
Proof.
  intros Hab. unfold randint.
  pose proof (randbelow_range (b - a + 1) g) as Hr.
  destruct (randbelow (b - a + 1) g) as [r g'] eqn:Hd. simpl in *. lia.
Qed.

Lemma randint_rng (a b : Z) (g : Rng) :
  snd (randint a b g) = mkRng (tape g) (S (cursor g)).
Proof. reflexivity. Qed.

(** ** Bullets: finding and removing *)

Lemma bullet_eqb_eq (a b : Bullet) : bullet_eqb a b = true <-> a = b.
Proof.
  destruct a as [ax ay], b as [bx by_]. unfold bullet_eqb. simpl.
  rewrite andb_true_iff, !Z.eqb_eq. split.
  - intros [-> ->]. reflexivity.
  - intros Heq. inversion Heq. split; reflexivity.
Qed.

Lemma bullet_eqb_refl (b : Bullet) : bullet_eqb b b = true.
Proof. apply bullet_eqb_eq. reflexivity. Qed.

Lemma first_hit_split (target : QRect) (before after : list Bullet) (b : Bullet) :
  Forall (fun c => intersects (bullet_rect c) target = false) before ->
  intersects (bullet_rect b) target = true ->
  first_hit target (before ++ b :: after) = Some b.
Proof.
  intros Hbefore Hb. induction Hbefore as [|c rest Hc _ IH]; simpl.
  - rewrite Hb. reflexivity.
  - rewrite Hc. exact IH.
Qed.

Lemma first_hit_Some (target : QRect) (bs : list Bullet) (b : Bullet) :
  first_hit target bs = Some b ->
  exists before after,
    bs = before ++ b :: after /\
    Forall (fun c => intersects (bullet_rect c) target = false) before /\
    intersects (bullet_rect b) target = true.
Proof.
  induction bs as [|c rest IH]; simpl; [discriminate|].
  destruct (intersects (bullet_rect c) target) eqn:Hc.
  - intros [= ->]. exists [], rest. repeat split; auto.
  - intros Hrest. destruct (IH Hrest) as (before & after & -> & Hno & Hb).
    exists (c :: before), after. repeat split; auto.
Qed.

Lemma first_hit_None (target : QRect) (bs : list Bullet) :
  first_hit target bs = None <->
  Forall (fun c => intersects (bullet_rect c) target = false) bs.
Proof.
  induction bs as [|c rest IH]; simpl.
  - split; auto.
  - destruct (intersects (bullet_rect c) target) eqn:Hc.
    + split; [discriminate|]. intros Hall. inversion Hall; congruence.
    + rewrite IH. split; intros Hall.
      * constructor; assumption.
      * inversion Hall; assumption.
Qed.

(** Removing the bullet the search stopped at takes out exactly that
    position: no earlier bullet can be equal to it, since an equal
    bullet would have met the target too. *)
Lemma remove_bullet_split (target : QRect) (before after : list Bullet) (b : Bullet) :
  Forall (fun c => intersects (bullet_rect c) target = false) before ->
  intersects (bullet_rect b) target = true ->
  remove_bullet b (before ++ b :: after) = before ++ after.
Proof.
  intros Hbefore Hb. induction Hbefore as [|c rest Hc _ IH]; simpl.
  - rewrite bullet_eqb_refl. reflexivity.
  - destruct (bullet_eqb c b) eqn:Heq.
    + apply bullet_eqb_eq in Heq. subst c. congruence.
    + rewrite IH. reflexivity.
Qed.

(** ** C1: the mystery ship *)

Lemma calculate_mystery_ship_score_spec (s : State) :
  calculate_mystery_ship_score s =
    (Z.min (50 + ((shots_fired s + 1 + 22) mod 15) * 50) 300,
     set_shots_fired (shots_fired s + 1) s).
Proof. reflexivity. Qed.

(** C1. When a player bullet meets the mystery ship, the collision
    phase removes that bullet (the first one in the list that meets the
    ship), removes the ship, redraws the spawn countdown with
    [randint 600 1000], increments [shots_fired] by one and adds
    exactly [min (50 + ((shots_fired + 1 + 22) mod 15) * 50, 300)] to
    the score, [shots_fired] being the value before the call.  With
    [shots_fired = 2] the counter becomes 3 and the award is 300. *)
Theorem mystery_ship_destroyed_by_bullet
    (w : Worker) (ship b : Bullet) (before after : list Bullet) :
  mystery_ship (state w) = Some ship ->
  bullets (state w) = before ++ b :: after ->
  Forall (fun c => intersects (bullet_rect c) (ship_rect ship) = false) before ->
  intersects (bullet_rect b) (ship_rect ship) = true ->
  let w' := mystery_ship_collisions w in
  let n := shots_fired (state w) in
  bullets (state w') = before ++ after /\
  mystery_ship (state w') = None /\
  mystery_ship_cooldown (state w') = fst (randint 600 1000 (rng w)) /\
  600 <= mystery_ship_cooldown (state w') <= 1000 /\
  shots_fired (state w') = n + 1 /\
  score (state w') =
    score (state w) + Z.min (50 + ((n + 1 + 22) mod 15) * 50) 300 /\
  snd (calculate_mystery_ship_score (state w)) = set_shots_fired (n + 1) (state w) /\
  fst (calculate_mystery_ship_score (state w)) =
    Z.min (50 + ((n + 1 + 22) mod 15) * 50) 300 /\
  (n = 2 ->
   shots_fired (state w') = 3 /\
   score (state w') = score (state w) + 300 /\
   fst (calculate_mystery_ship_score (state w)) = 300).
Proof.
  intros Hship Hbullets Hbefore Hb w' n.
  assert (Hw' : w' =
    set_rng (snd (randint 600 1000 (rng w)))
      (set_state
         (set_mystery_ship_cooldown (fst (randint 600 1000 (rng w)))
            (set_mystery_ship None
               (set_score
                  (score (state w) + Z.min (50 + ((n + 1 + 22) mod 15) * 50) 300)
                  (set_shots_fired (n + 1)
                     (set_bullets (before ++ after) (state w))))))
         w)).
  { subst w'. unfold mystery_ship_collisions. rewrite Hship, Hbullets.
    rewrite (first_hit_split _ _ _ _ Hbefore Hb).
    rewrite (remove_bullet_split _ _ _ _ Hbefore Hb).
    rewrite calculate_mystery_ship_score_spec.
    destruct (randint 600 1000 (rng w)) as [countdown g]. reflexivity. }
  pose proof (randint_range 600 1000 (rng w) ltac:(lia)) as Hrange.
  rewrite calculate_mystery_ship_score_spec.
  fold n. clearbody n w'. subst w'.
  cbn -[Z.min Z.add Z.mul Z.modulo randint].
  repeat (split; [first [reflexivity | apply Hrange]|]).
  intros ->. repeat split.
Qed.

Lemma mystery_ship_destroyed_by_bullet_witness :
  bullets (state (mystery_ship_collisions ship_under_fire)) = [(108, 410); (528, 50)]
  /\ mystery_ship (state (mystery_ship_collisions ship_under_fire)) = None
  /\ shots_fired (state (mystery_ship_collisions ship_under_fire)) = 3
  /\ score (state (mystery_ship_collisions ship_under_fire)) = 700 + 300.
Proof.
  destruct (mystery_ship_destroyed_by_bullet ship_under_fire (500, 50) (518, 70)
              [(108, 410)] [(528, 50)])
    as (Hb & Hs & _ & _ & _ & _ & _ & _ & Hthree).
  - reflexivity.
  - reflexivity.
  - repeat constructor.
  - reflexivity.
  - destruct Hthree as (Hn & Hsc & _); [reflexivity|].
    repeat split; assumption.
Defined.

(** ** What each phase leaves alone *)

Lemma create_rows_fresh (g : Rng) :
  create_rows (enumerate 0 alien_rows) [] g =
    (map (fresh_alien g) (seq 0 55), mkRng (tape g) (55 + cursor g)).
Proof. destruct g as [t c]. reflexivity. Qed.

Lemma create_aliens_spec (w : Worker) :
  create_aliens w =
    set_rng (mkRng (tape (rng w)) (55 + cursor (rng w)))
      (on_state (set_aliens (map (fresh_alien (rng w)) (seq 0 55))) w).
Proof. unfold create_aliens. rewrite create_rows_fresh. reflexivity. Qed.

Lemma fresh_alien_colour (g : Rng) (k : nat) :
  0 <= color_index (fresh_alien g k) <= 5 /\ frame (fresh_alien g k) = 0.
Proof.
  unfold fresh_alien. cbn [color_index frame].
  pose proof (Z.mod_pos_bound (tape g (k + cursor g)) 6 ltac:(lia)).
  lia.
Qed.

Lemma fields_player_movement (s : State) :
  session_fields (player_movement s) =
    (player_x (player_movement s), player_y s, alien_direction s, alien_speed s,
     alien_anim_counter s, level s, shots_fired s).
Proof.
  unfold player_movement.
  destruct (key_left (keys_pressed s)); cbn [keys_pressed set_player_x];
    destruct (key_right (keys_pressed s)); reflexivity.
Qed.

Lemma fields_move_bullets (s : State) :
  session_fields (move_bullets s) = session_fields s.
Proof. reflexivity. Qed.

Lemma fields_alien_shooting (w : Worker) :
  session_fields (state (alien_shooting w)) = session_fields (state w).
Proof.
  unfold alien_shooting.
  destruct (alien_shoot_cooldown (state w) <=? 0); [|reflexivity].
  destruct (aliens (state w)) as [|first rest]; [reflexivity|].
  destruct (random_lt_03 (rng w)) as [[|] g1]; [|reflexivity].
  destruct (choice (first :: rest) first g1) as [shooter g2]. reflexivity.
Qed.

Lemma fields_mystery_ship_movement (w : Worker) :
  session_fields (state (mystery_ship_movement w)) = session_fields (state w).
Proof.
  unfold mystery_ship_movement.
  destruct (mystery_ship (state w)) as [[mx my]|].
  - destruct ((mx + mystery_ship_direction (state w) * 5 <? -60)
              || (mx + mystery_ship_direction (state w) * 5 >? WORLD_W));
      [|reflexivity].
    destruct (randint 600 1000 (rng w)) as [countdown g]. reflexivity.
  - cbn [mystery_ship_cooldown set_mystery_ship_cooldown].
    destruct (mystery_ship_cooldown (state w) - 1 <=? 0); [|reflexivity].
    destruct (choice [true; false] true (rng w)) as [from_left g]. reflexivity.
Qed.

Lemma fields_collision_loop (d : Difficulty) (formation acc : list Alien) (s : State) :
  session_fields (snd (collision_loop d formation acc s)) = session_fields s.
Proof.
  revert acc s. induction formation as [|alien rest IH]; intros acc s; simpl.
  - reflexivity.
  - destruct (first_hit (alien_hitbox alien) (bullets s)) as [b|].
    + rewrite IH. reflexivity.
    + apply IH.
Qed.

Lemma fields_collision_detection (w : Worker) :
  session_fields (state (collision_detection w)) = session_fields (state w).
Proof.
  unfold collision_detection.
  pose proof (fields_collision_loop (difficulty w) (aliens (state w)) [] (state w)) as Hl.
  destruct (collision_loop (difficulty w) (aliens (state w)) [] (state w)) as [rem s].
  exact Hl.
Qed.

Lemma fields_player_hit_loop (copy : list Bullet) (w : Worker) :
  session_fields (state (player_hit_loop copy w)) = session_fields (state w).
Proof.
  revert w. induction copy as [|b rest IH]; intros w; simpl.
  - reflexivity.
  - destruct (intersects (bullet_rect b) (player_rect (state w))); [|apply IH].
    rewrite IH. destruct (lives (state w) - 1 <=? 0); reflexivity.
Qed.

Lemma fields_reach_bottom_loop (formation : list Alien) (w : Worker) :
  session_fields (state (reach_bottom_loop formation w)) = session_fields (state w).
Proof.
  induction formation as [|alien rest IH]; simpl.
  - reflexivity.
  - destruct (alien_y alien + 30 >=? player_y (state w)); [reflexivity|apply IH].
Qed.

Lemma move_loop_spec (dx : Z) (formation : list Alien) (edge_hit : bool) :
  move_loop dx formation edge_hit =
    (map (moved_alien dx 0 false) formation,
     edge_hit
     || existsb (fun a => (alien_x a + dx <=? 0) || (alien_x a + dx >=? WORLD_W - 40))
          formation).
Proof.
  revert edge_hit.
  induction formation as [|alien rest IH]; intros edge_hit;
    cbn [move_loop map existsb].
  - rewrite orb_false_r. reflexivity.
  - rewrite IH. f_equal.
    + f_equal. unfold moved_alien, set_alien_xy. f_equal. lia.
    + destruct ((alien_x alien + dx <=? 0) || (alien_x alien + dx >=? WORLD_W - 40));
        destruct edge_hit; reflexivity.
Qed.

Lemma move_aliens_and_animate_spec (s : State) :
  let hit := edge_hit_of s in
  let toggle := alien_anim_counter s + 1 >=? ANIM_SPEED in
  move_aliens_and_animate s =
    set_aliens
      (map (moved_alien (alien_direction s * alien_speed s)
              (if hit then 20 else 0) toggle) (aliens s))
      (set_alien_direction
         (if hit then alien_direction s * -1 else alien_direction s)
         (set_alien_anim_counter
            (if toggle then 0 else alien_anim_counter s + 1) s)).
Proof.
  intros hit toggle. unfold move_aliens_and_animate.
  rewrite move_loop_spec. cbv zeta. cbn [orb].
  change (alien_anim_counter
            (set_aliens _ (set_alien_anim_counter (alien_anim_counter s + 1) s))
          >=? ANIM_SPEED) with toggle.
  change (existsb _ (aliens (set_alien_anim_counter (alien_anim_counter s + 1) s)))
    with hit.
  destruct toggle, hit; apply State_ext; state_fields; try reflexivity;
    rewrite ?map_map; apply map_ext; intros a;
    unfold moved_alien, step_down, toggle_frame, set_alien_xy, set_frame;
    cbn [alien_x alien_y alien_type color_index frame];
    f_equal; lia.
Qed.

Lemma fields_move_aliens_and_animate (s : State) :
  session_fields (move_aliens_and_animate s) =
    (player_x s, player_y s,
     (if edge_hit_of s then alien_direction s * -1 else alien_direction s),
     alien_speed s,
     (if alien_anim_counter s + 1 >=? ANIM_SPEED then 0 else alien_anim_counter s + 1),
     level s, shots_fired s).
Proof. rewrite move_aliens_and_animate_spec. reflexivity. Qed.

Lemma fields_mystery_ship_collisions (w : Worker) :
  session_fields (state (mystery_ship_collisions w)) =
    (player_x (state w), player_y (state w), alien_direction (state w),
     alien_speed (state w), alien_anim_counter (state w), level (state w),
     shots_fired (state w) + (if ship_is_hit (state w) then 1 else 0)).
Proof.
  unfold mystery_ship_collisions, ship_is_hit, session_fields.
  destruct (mystery_ship (state w)) as [ship|]; [|now rewrite Z.add_0_r].
  destruct (first_hit (ship_rect ship) (bullets (state w))) as [b|];
    [|now rewrite Z.add_0_r].
  rewrite calculate_mystery_ship_score_spec.
  destruct (randint 600 1000 (rng w)) as [countdown g]. reflexivity.
Qed.

Lemma fields_create_aliens (w : Worker) :
  session_fields (state (create_aliens w)) = session_fields (state w).
Proof. rewrite create_aliens_spec. reflexivity. Qed.

Lemma fields_level_completion (w : Worker) :
  session_fields (state (level_completion w)) =
    match aliens (state w) with
    | [] =>
        (player_x (state w), player_y (state w), alien_direction (state w),
         alien_speed (state w) + 2, alien_anim_counter (state w),
         level (state w) + 1, shots_fired (state w))
    | _ :: _ => session_fields (state w)
    end.
Proof.
  unfold level_completion. destruct (aliens (state w)); [|reflexivity].
  rewrite fields_create_aliens. reflexivity.
Qed.

(** The session entries from the start of a tick to the end of
    collision resolution. *)
Lemma fields_before_ship_collisions (w : Worker) :
  session_fields (state (before_ship_collisions w)) =
    (player_x (player_movement (state w)), player_y (state w),
     (if edge_hit_of (state w) then alien_direction (state w) * -1
      else alien_direction (state w)),
     alien_speed (state w),
     (if alien_anim_counter (state w) + 1 >=? ANIM_SPEED then 0
      else alien_anim_counter (state w) + 1),
     level (state w), shots_fired (state w)).
Proof.
  unfold before_ship_collisions.
  rewrite fields_collision_detection, fields_mystery_ship_movement,
    fields_alien_shooting.
  unfold on_state. cbn [state set_state].
  rewrite fields_move_aliens_and_animate.
  pose proof (fields_player_movement (state w)) as Hp.
  unfold session_fields in Hp. injection Hp as Hy Hd Hs Hc Hl Hf.
  assert (He : edge_hit_of (move_bullets (player_movement (state w)))
               = edge_hit_of (state w)).
  { unfold edge_hit_of.
    change (aliens (move_bullets (player_movement (state w))))
      with (aliens (player_movement (state w))).
    change (alien_direction (move_bullets (player_movement (state w))))
      with (alien_direction (player_movement (state w))).
    change (alien_speed (move_bullets (player_movement (state w))))
      with (alien_speed (player_movement (state w))).
    rewrite Hd, Hs.
    replace (aliens (player_movement (state w))) with (aliens (state w)); [reflexivity|].
    unfold player_movement.
    destruct (key_left (keys_pressed (state w))); cbn [keys_pressed set_player_x];
      destruct (key_right (keys_pressed (state w))); reflexivity. }
  rewrite He.
  change (player_x (move_bullets ?s)) with (player_x s).
  change (player_y (move_bullets (player_movement (state w))))
    with (player_y (player_movement (state w))).
  change (alien_direction (move_bullets (player_movement (state w))))
    with (alien_direction (player_movement (state w))).
  change (alien_speed (move_bullets (player_movement (state w))))
    with (alien_speed (player_movement (state w))).
  change (alien_anim_counter (move_bullets (player_movement (state w))))
    with (alien_anim_counter (player_movement (state w))).
  change (level (move_bullets (player_movement (state w))))
    with (level (player_movement (state w))).
  change (shots_fired (move_bullets (player_movement (state w))))
    with (shots_fired (player_movement (state w))).
  rewrite Hy, Hd, Hs, Hc, Hl, Hf. reflexivity.
Qed.

Lemma fields_resolve_collisions (w : Worker) :
  session_fields (state (resolve_collisions w)) =
    (player_x (player_movement (state w)), player_y (state w),
     (if edge_hit_of (state w) then alien_direction (state w) * -1
      else alien_direction (state w)),
     alien_speed (state w),
     (if alien_anim_counter (state w) + 1 >=? ANIM_SPEED then 0
      else alien_anim_counter (state w) + 1),
     level (state w),
     shots_fired (state w)
     + (if ship_is_hit (state (before_ship_collisions w)) then 1 else 0)).
Proof.
  unfold resolve_collisions, alien_bullets_hit_player.
  rewrite fields_player_hit_loop, fields_mystery_ship_collisions.
  pose proof (fields_before_ship_collisions w) as Hb.
  unfold session_fields in Hb. injection Hb as -> -> -> -> -> -> ->.
  reflexivity.
Qed.

Lemma aliens_reach_bottom_loop (formation : list Alien) (w : Worker) :
  aliens (state (reach_bottom_loop formation w)) = aliens (state w).
Proof.
  induction formation as [|alien rest IH]; simpl.
  - reflexivity.
  - destruct (alien_y alien + 30 >=? player_y (state w)); [reflexivity|apply IH].
Qed.

Lemma state_on_state (f : State -> State) (w : Worker) :
  state (on_state f w) = f (state w).
Proof. reflexivity. Qed.

Lemma state_emit (sig : Signal) (w : Worker) : state (emit sig w) = state w.
Proof. reflexivity. Qed.

Lemma state_emit_state (w : Worker) : state (emit_state w) = state w.
Proof. reflexivity. Qed.

Lemma update_logic_running (w : Worker) :
  game_over (state w) = false ->
  update_logic w =
    emit_state (aliens_reach_bottom (level_completion (resolve_collisions w))).
Proof. intros Hgo. unfold update_logic. rewrite Hgo. reflexivity. Qed.

Lemma update_logic_game_over (w : Worker) :
  game_over (state w) = true -> update_logic w = w.
Proof. intros Hgo. unfold update_logic. rewrite Hgo. reflexivity. Qed.

(** The session entries after a whole tick of a running game. *)
Lemma fields_update_logic (w : Worker) :
  game_over (state w) = false ->
  session_fields (state (update_logic w)) =
    session_fields (state (level_completion (resolve_collisions w))).
Proof.
  intros Hgo. rewrite (update_logic_running w Hgo).
  rewrite state_emit_state. unfold aliens_reach_bottom.
  apply fields_reach_bottom_loop.
Qed.

Lemma aliens_update_logic (w : Worker) :
  game_over (state w) = false ->
  aliens (state (update_logic w)) =
    aliens (state (level_completion (resolve_collisions w))).
Proof.
  intros Hgo. rewrite (update_logic_running w Hgo).
  rewrite state_emit_state. unfold aliens_reach_bottom.
  apply aliens_reach_bottom_loop.
Qed.

(** ** C2: level completion *)

Lemma level_completion_empty (r : Worker) :
  aliens (state r) = [] ->
  aliens (state (level_completion r)) = map (fresh_alien (rng r)) (seq 0 55).
Proof.
  intros Hempty. unfold level_completion. rewrite Hempty. rewrite create_aliens_spec.
  reflexivity.
Qed.

Lemma fresh_formation_nth (g : Rng) (k : nat) :
  (k < 55)%nat ->
  nth_error (map (fresh_alien g) (seq 0 55)) k =
    Some (mkAlien (50 + Z.of_nat (k mod 11) * 50) (50 + Z.of_nat (k / 11) * 40)
            (nth (k / 11) alien_rows octopus)
            (color_index (fresh_alien g k)) 0).
Proof.
  intros Hk. rewrite nth_error_map, nth_error_seq.
  apply Nat.ltb_lt in Hk. rewrite Hk. reflexivity.
Qed.

Lemma level_up_fields (w : Worker) :
  game_over (state w) = false ->
  aliens (state (resolve_collisions w)) = [] ->
  session_fields (state (update_logic w)) =
    (player_x (player_movement (state w)), player_y (state w),
     (if edge_hit_of (state w) then alien_direction (state w) * -1
      else alien_direction (state w)),
     alien_speed (state w) + 2,
     (if alien_anim_counter (state w) + 1 >=? ANIM_SPEED then 0
      else alien_anim_counter (state w) + 1),
     level (state w) + 1,
     shots_fired (state w)
     + (if ship_is_hit (state (before_ship_collisions w)) then 1 else 0)).
Proof.
  intros Hgo Hempty.
  rewrite (fields_update_logic w Hgo), fields_level_completion, Hempty.
  pose proof (fields_resolve_collisions w) as Hr.
  revert Hr. generalize (resolve_collisions w). intros r Hr.
  unfold session_fields in Hr.
  injection Hr as -> -> -> -> -> -> ->. reflexivity.
Qed.

Lemma session_fields_inv (s : State) (px py dir spd cnt lvl sf : Z) :
  session_fields s = (px, py, dir, spd, cnt, lvl, sf) ->
  player_x s = px /\ player_y s = py /\ alien_direction s = dir /\
  alien_speed s = spd /\ alien_anim_counter s = cnt /\ level s = lvl /\
  shots_fired s = sf.
Proof.
  unfold session_fields. intros Heq. injection Heq as <- <- <- <- <- <- <-.
  repeat split.
Qed.

(** C2 (as the code has it). In a tick of a running game in which the
    formation is empty after collision resolution, the level goes up by
    exactly 1, the formation speed by exactly 2, and the formation is
    rebuilt once: 55 aliens, 5 rows of 11, at x = 50 + 50 * column and
    y = 50 + 40 * row, each with a freshly drawn colour index in 0..5
    and frame 0.  The formation direction and the shared animation
    counter keep the values they had after the formation phase of that
    tick; level completion does not reset them. *)
Theorem level_up_on_empty_formation (w : Worker) :
  game_over (state w) = false ->
  aliens (state (resolve_collisions w)) = [] ->
  let r := resolve_collisions w in
  let w' := update_logic w in
  level (state w') = level (state w) + 1 /\
  alien_speed (state w') = alien_speed (state w) + 2 /\
  aliens (state w') = map (fresh_alien (rng r)) (seq 0 55) /\
  length (aliens (state w')) = 55%nat /\
  (forall k, (k < 55)%nat ->
     nth_error (aliens (state w')) k =
       Some (mkAlien (50 + Z.of_nat (k mod 11) * 50) (50 + Z.of_nat (k / 11) * 40)
               (nth (k / 11) alien_rows octopus)
               (color_index (fresh_alien (rng r) k)) 0)) /\
  Forall (fun a => 0 <= color_index a <= 5 /\ frame a = 0) (aliens (state w')) /\
  alien_direction (state w') = alien_direction (state r) /\
  alien_direction (state w') =
    (if edge_hit_of (state w) then alien_direction (state w) * -1
     else alien_direction (state w)) /\
  alien_anim_counter (state w') = alien_anim_counter (state r) /\
  alien_anim_counter (state w') =
    (if alien_anim_counter (state w) + 1 >=? ANIM_SPEED then 0
     else alien_anim_counter (state w) + 1).
Proof.
  intros Hgo Hempty. cbv zeta.
  pose proof (level_up_fields w Hgo Hempty) as Hf.
  pose proof (fields_resolve_collisions w) as Hr.
  pose proof (aliens_update_logic w Hgo) as Ha.
  rewrite (level_completion_empty _ Hempty) in Ha.
  revert Hf Hr Ha.
  generalize (update_logic w) as w'. generalize (resolve_collisions w) as r.
  intros r w' Hf Hr Ha.
  apply session_fields_inv in Hf. destruct Hf as (_ & _ & Hd & Hs & Hc & Hl & _).
  apply session_fields_inv in Hr. destruct Hr as (_ & _ & Hrd & _ & Hrc & _ & _).
  split; [exact Hl|]. split; [exact Hs|]. split; [exact Ha|].
  split; [rewrite Ha, length_map, length_seq; reflexivity|].
  split; [intros k Hk; rewrite Ha; apply fresh_formation_nth; exact Hk|].
  split.
  { rewrite Ha. apply Forall_forall. intros a Hin.
    apply in_map_iff in Hin. destruct Hin as (k & <- & _).
    apply fresh_alien_colour. }
  split; [congruence|]. split; [exact Hd|]. split; [congruence|exact Hc].
Qed.

Lemma level_up_on_empty_formation_witness :
  level (state (update_logic last_alien_shot)) = 2 /\
  alien_speed (state (update_logic last_alien_shot)) = 12 /\
  length (aliens (state (update_logic last_alien_shot))) = 55%nat.
Proof.
  destruct (level_up_on_empty_formation last_alien_shot)
    as (Hl & Hs & _ & Hn & _).
  - reflexivity.
  - vm_compute. reflexivity.
  - repeat split; assumption.
Defined.

(** A game on Easy from the first menu in which the player stays in
    the middle and fires once per tick, and no alien fires: the 87th
    tick finds the formation empty after collision resolution.  The
    level goes up to 2 and 55 fresh aliens appear, yet the direction
    is -1 (not +1) and the animation counter is 2 (not 0) after that
    tick. *)
Lemma level_up_does_not_reset_direction :
  let before :=
    worker (run_events
              (fire_rounds 86 ++ [KeyPress Key_Space; KeyRelease Key_Space])
              quiet_easy_game) in
  let after := worker (run_events (fire_rounds 87) quiet_easy_game) in
  after = worker (tick (run_events
                          (fire_rounds 86 ++ [KeyPress Key_Space; KeyRelease Key_Space])
                          quiet_easy_game)) /\
  state after = state (update_logic before) /\
  game_over (state before) = false /\
  level (state before) = 1 /\
  aliens (state (resolve_collisions before)) = [] /\
  level (state after) = 2 /\
  length (aliens (state after)) = 55%nat /\
  alien_direction (state after) = -1 /\
  alien_direction (state after) <> 1 /\
  alien_anim_counter (state after) = 2 /\
  alien_anim_counter (state after) <> 0.
Proof.
  vm_compute. repeat split; discriminate.
Qed.

(** ** C3: [request_initials] within one tick *)

(** C3. A game on Hard from the first menu in which the player does
    nothing: four aliens fire, in ticks 20, 24, 40 and 44.  The first
    two bullets take two lives; the other two, fired from different
    rows, reach the player together in tick 74.  That tick takes the
    one life left to -1, sets [game_over] and emits [request_initials]
    twice: the loop over the alien bullets goes on after the lethal hit
    and signals again at every further hit. *)
Theorem request_initials_twice_in_one_tick :
  let before := worker (run_events (repeat Tick 73) four_shots_game) in
  let after := worker (run_events (repeat Tick 74) four_shots_game) in
  after = update_logic before /\
  lives (state before) = 1 /\
  game_over (state before) = false /\
  alien_bullets (state before) = [(468, 695); (498, 695)] /\
  count_request_initials (emitted before) = 0%nat /\
  lives (state after) = -1 /\
  game_over (state after) = true /\
  count_request_initials (emitted after) = 2%nat.
Proof. vm_compute. repeat split. Qed.

(** The phase by itself, with one life left and two alien bullets over
    the player when it starts. *)
Lemma request_initials_twice_at_the_phase :
  lives (state two_bullets_last_life) = 1 /\
  emitted two_bullets_last_life = [] /\
  lives (state (update_logic two_bullets_last_life)) = -1 /\
  game_over (state (update_logic two_bullets_last_life)) = true /\
  count_request_initials (emitted (update_logic two_bullets_last_life)) = 2%nat.
Proof. vm_compute. repeat split. Qed.

(** The same happens when the lethal hit and the formation's landing
    fall in one tick: one signal from each loop. *)
Lemma request_initials_hit_and_landing :
  lives (state (update_logic lethal_hit_and_landing)) = 0 /\
  game_over (state (update_logic lethal_hit_and_landing)) = true /\
  count_request_initials (emitted (update_logic lethal_hit_and_landing)) = 2%nat.
Proof. vm_compute. repeat split. Qed.

(** The scenario of the claim, with the formation high up: one signal. *)
Lemma request_initials_once_on_single_hit :
  lives (state (update_logic one_bullet_last_life)) = 0 /\
  game_over (state (update_logic one_bullet_last_life)) = true /\
  count_request_initials (emitted (update_logic one_bullet_last_life)) = 1%nat.
Proof. vm_compute. repeat split. Qed.
Lemma player_hit_loop_no_hit (copy : list Bullet) (w : Worker) :
  Forall (fun c => intersects (bullet_rect c) (player_rect (state w)) = false) copy ->
  player_hit_loop copy w = w.
Proof.
  intros Hall. induction Hall as [|c rest Hc _ IH]; cbn [player_hit_loop].
  - reflexivity.
  - rewrite Hc. exact IH.
Qed.

(** The scenario of the claim at the phase itself: one life left and
    exactly one alien bullet over the player give lives 0, game over
    and one signal carrying the score. *)
Lemma single_lethal_hit (w : Worker) (before after : list Bullet) (b : Bullet) :
  lives (state w) = 1 ->
  alien_bullets (state w) = before ++ b :: after ->
  Forall (fun c => intersects (bullet_rect c) (player_rect (state w)) = false)
    (before ++ after) ->
  intersects (bullet_rect b) (player_rect (state w)) = true ->
  let w' := alien_bullets_hit_player w in
  lives (state w') = 0 /\
  game_over (state w') = true /\
  alien_bullets (state w') = before ++ after /\
  emitted w' = emitted w ++ [RequestInitials (c_int (score (state w)))].
Proof.
  intros Hlives Hab Hmiss Hb w'. subst w'. unfold alien_bullets_hit_player.
  apply Forall_app in Hmiss. destruct Hmiss as [Hbefore Hafter].
  rewrite Hab.
  assert (Hsplit : forall l v,
             Forall (fun c => intersects (bullet_rect c) (player_rect (state v)) = false) l ->
             player_hit_loop (l ++ b :: after) v = player_hit_loop (b :: after) v).
  { intros l v Hl. induction Hl as [|c rest Hc _ IH]; cbn [app player_hit_loop].
    - reflexivity.
    - rewrite Hc. exact IH. }
  rewrite (Hsplit before w Hbefore). cbn [player_hit_loop].
  rewrite Hb. state_fields. rewrite Hlives. cbn [Z.sub Z.leb Z.compare Z.add Z.opp Z.pos_sub].
  rewrite player_hit_loop_no_hit.
  - state_fields. cbn [state emit on_state set_state emitted].
    state_fields. rewrite Hab.
    rewrite (remove_bullet_split (player_rect (state w)) before after b Hbefore Hb).
    repeat split.
  - exact Hafter.
Qed.


(** ** C4: the formation phase *)

Lemma aliens_player_movement (s : State) :
  aliens (player_movement s) = aliens s.
Proof.
  unfold player_movement.
  destruct (key_left (keys_pressed s)); cbn [keys_pressed set_player_x];
    destruct (key_right (keys_pressed s)); reflexivity.
Qed.

Lemma formation_before_move (s : State) :
  aliens (move_bullets (player_movement s)) = aliens s /\
  alien_direction (move_bullets (player_movement s)) = alien_direction s /\
  alien_speed (move_bullets (player_movement s)) = alien_speed s /\
  alien_anim_counter (move_bullets (player_movement s)) = alien_anim_counter s /\
  edge_hit_of (move_bullets (player_movement s)) = edge_hit_of s.
Proof.
  pose proof (fields_player_movement s) as Hp.
  apply session_fields_inv in Hp. destruct Hp as (_ & _ & Hd & Hs & Hc & _ & _).
  pose proof (aliens_player_movement s) as Ha.
  assert (Hm : forall t, aliens (move_bullets t) = aliens t
                         /\ alien_direction (move_bullets t) = alien_direction t
                         /\ alien_speed (move_bullets t) = alien_speed t
                         /\ alien_anim_counter (move_bullets t) = alien_anim_counter t)
    by (intros t; repeat split).
  destruct (Hm (player_movement s)) as (Ma & Md & Ms & Mc).
  unfold edge_hit_of. rewrite Ma, Md, Ms, Mc, Ha, Hd, Hs, Hc. repeat split.
Qed.

Lemma aliens_alien_shooting (w : Worker) :
  aliens (state (alien_shooting w)) = aliens (state w).
Proof.
  unfold alien_shooting.
  destruct (alien_shoot_cooldown (state w) <=? 0); [|reflexivity].
  destruct (aliens (state w)) as [|first rest] eqn:Ha; [assumption|].
  destruct (random_lt_03 (rng w)) as [[|] g1]; [|assumption].
  destruct (choice (first :: rest) first g1) as [shooter g2]. assumption.
Qed.

Lemma aliens_mystery_ship_movement (w : Worker) :
  aliens (state (mystery_ship_movement w)) = aliens (state w).
Proof.
  unfold mystery_ship_movement.
  destruct (mystery_ship (state w)) as [[mx my]|].
  - destruct ((mx + mystery_ship_direction (state w) * 5 <? -60)
              || (mx + mystery_ship_direction (state w) * 5 >? WORLD_W));
      [|reflexivity].
    destruct (randint 600 1000 (rng w)) as [countdown g]. reflexivity.
  - cbn [mystery_ship_cooldown set_mystery_ship_cooldown].
    destruct (mystery_ship_cooldown (state w) - 1 <=? 0); [|reflexivity].
    destruct (choice [true; false] true (rng w)) as [from_left g]. reflexivity.
Qed.

(** The aliens that remain after the bullet collisions are aliens of
    the formation, in formation order. *)
Lemma collision_loop_remaining (d : Difficulty) (formation acc : list Alien) (s : State) :
  forall a, In a (fst (collision_loop d formation acc s)) -> In a acc \/ In a formation.
Proof.
  revert acc s. induction formation as [|alien rest IH]; intros acc s a; simpl.
  - auto.
  - destruct (first_hit (alien_hitbox alien) (bullets s)) as [b|]; intros Hin.
    + destruct (IH _ _ _ Hin); auto.
    + destruct (IH _ _ _ Hin) as [Hacc|Hrest]; auto.
      apply in_app_or in Hacc. destruct Hacc as [Hacc|[<-|[]]]; auto.
Qed.

Lemma aliens_collision_detection (w : Worker) :
  forall a, In a (aliens (state (collision_detection w))) -> In a (aliens (state w)).
Proof.
  intros a. unfold collision_detection.
  pose proof (collision_loop_remaining (difficulty w) (aliens (state w)) [] (state w) a)
    as Hl.
  destruct (collision_loop (difficulty w) (aliens (state w)) [] (state w)) as [rem s].
  cbn [state set_state aliens set_aliens fst] in *.
  intros Hin. destruct (Hl Hin) as [[]|]; assumption.
Qed.

Lemma aliens_mystery_ship_collisions (w : Worker) :
  aliens (state (mystery_ship_collisions w)) = aliens (state w).
Proof.
  unfold mystery_ship_collisions.
  destruct (mystery_ship (state w)) as [ship|]; [|reflexivity].
  destruct (first_hit (ship_rect ship) (bullets (state w))) as [b|]; [|reflexivity].
  rewrite calculate_mystery_ship_score_spec.
  destruct (randint 600 1000 (rng w)) as [countdown g]. reflexivity.
Qed.

Lemma aliens_player_hit_loop (copy : list Bullet) (w : Worker) :
  aliens (state (player_hit_loop copy w)) = aliens (state w).
Proof.
  revert w. induction copy as [|b rest IH]; intros w; simpl.
  - reflexivity.
  - destruct (intersects (bullet_rect b) (player_rect (state w))); [|apply IH].
    rewrite IH. destruct (lives (state w) - 1 <=? 0); reflexivity.
Qed.

Lemma aliens_resolve_collisions (w : Worker) :
  forall a,
    In a (aliens (state (resolve_collisions w))) ->
    In a (aliens (move_aliens_and_animate (move_bullets (player_movement (state w))))).
Proof.
  intros a. unfold resolve_collisions, alien_bullets_hit_player.
  rewrite aliens_player_hit_loop, aliens_mystery_ship_collisions.
  unfold before_ship_collisions. intros Hin.
  apply aliens_collision_detection in Hin.
  rewrite aliens_mystery_ship_movement, aliens_alien_shooting in Hin.
  rewrite state_on_state in Hin. exact Hin.
Qed.




(** ** The session entries under the widget's events *)

Lemma fields_reset_state (w : Worker) :
  session_fields (state (reset_state w)) = (470, 710, 1, 10, 0, 1, 0).
Proof.
  unfold reset_state. destruct (randint 600 1000 (rng w)) as [countdown g].
  rewrite fields_create_aliens. reflexivity.
Qed.

Lemma fields_start_game (d : Difficulty) (w : Worker) :
  session_fields (state (start_game d w)) = (470, 710, 1, 10, 0, 1, 0).
Proof.
  unfold start_game.
  pose proof (fields_reset_state (set_difficulty d w)) as Hr.
  revert Hr. generalize (reset_state (set_difficulty d w)). intros r Hr.
  apply session_fields_inv in Hr.
  destruct Hr as (Hx & Hy & Hd & Hs & Hc & Hl & Hf).
  unfold session_fields.
  change (state (set_running true (on_state (set_alien_anim_counter 0) r)))
    with (set_alien_anim_counter 0 (state r)).
  state_fields. congruence.
Qed.

Lemma fields_fire (g : Widget) :
  session_fields (state (worker (fire g))) = session_fields (state (worker g)).
Proof.
  unfold fire. destruct (gui_state g) as [snap|]; [|reflexivity].
  destruct (space_pressed g); [reflexivity|].
  destruct (shares_bullets g); reflexivity.
Qed.

Lemma fields_debug_spawn (g : Widget) :
  session_fields (state (worker (debug_spawn g))) = session_fields (state (worker g)).
Proof.
  unfold debug_spawn. destruct (mystery_ship (state (worker g))); [reflexivity|].
  destruct (choice [true; false] true (rng (worker g))) as [from_left r].
  reflexivity.
Qed.

Lemma selecting_fire (g : Widget) :
  selecting_difficulty (fire g) = selecting_difficulty g.
Proof.
  unfold fire. destruct (gui_state g) as [snap|]; [|reflexivity].
  destruct (space_pressed g); [reflexivity|].
  destruct (shares_bullets g); reflexivity.
Qed.

Lemma selecting_debug_spawn (g : Widget) :
  selecting_difficulty (debug_spawn g) = selecting_difficulty g.
Proof.
  unfold debug_spawn. destruct (mystery_ship (state (worker g))); [reflexivity|].
  destruct (choice [true; false] true (rng (worker g))) as [from_left r].
  reflexivity.
Qed.

Lemma fields_restart (g : Widget) :
  session_fields (state (worker (restart g))) = (470, 710, 1, 10, 0, 1, 0)
  /\ selecting_difficulty (restart g) = true.
Proof.
  unfold restart.
  pose proof (fields_reset_state (set_running false (worker g))) as Hr.
  revert Hr. generalize (reset_state (set_running false (worker g))).
  intros r Hr. split; [|reflexivity].
  rewrite <- Hr. reflexivity.
Qed.

Lemma fields_update_key_state (g : Widget) :
  session_fields (state (worker (update_key_state g))) =
    session_fields (state (worker g)).
Proof. reflexivity. Qed.

Ltac widget_fields :=
  cbn [worker gui_keys selecting_difficulty space_pressed gui_state shares_bullets
       set_worker set_gui_keys set_selecting_difficulty set_space_pressed
       set_gui_state].

Ltac through_start_game :=
  match goal with
  | |- context [start_game ?d ?w] =>
      let Hs := fresh "Hs" in
      let r := fresh "r" in
      pose proof (fields_start_game d w) as Hs;
      revert Hs; generalize (start_game d w); intros r Hs;
      rewrite <- Hs; reflexivity
  end.

Lemma fields_keyPressEvent (k : Key) (g : Widget) :
  session_fields (state (worker (keyPressEvent k g))) =
    if key_resets k g then (470, 710, 1, 10, 0, 1, 0)
    else session_fields (state (worker g)).
Proof.
  unfold keyPressEvent, key_resets.
  destruct k; cbn [difficulty_of_key is_difficulty_key is_restart_key orb andb];
    rewrite ?andb_false_r, ?andb_true_r.
  - widget_fields. destruct (selecting_difficulty g); reflexivity.
  - widget_fields. destruct (selecting_difficulty g); reflexivity.
  - rewrite selecting_fire. destruct (selecting_difficulty g);
      rewrite ?fields_update_key_state; apply fields_fire.
  - destruct (selecting_difficulty g); reflexivity.
  - destruct (fields_restart g) as [Hr ->]. exact Hr.
  - widget_fields. destruct (selecting_difficulty g); reflexivity.
  - widget_fields. destruct (selecting_difficulty g); reflexivity.
  - widget_fields. destruct (selecting_difficulty g); reflexivity.
  - rewrite selecting_debug_spawn. destruct (selecting_difficulty g).
    + through_start_game.
    + rewrite fields_update_key_state. apply fields_debug_spawn.
  - destruct (selecting_difficulty g); [through_start_game | reflexivity].
  - destruct (selecting_difficulty g); [through_start_game | reflexivity].
  - destruct (selecting_difficulty g); reflexivity.
Qed.

Lemma fields_keyReleaseEvent (k : Key) (g : Widget) :
  session_fields (state (worker (keyReleaseEvent k g))) =
    session_fields (state (worker g)).
Proof. destruct k; reflexivity. Qed.

Lemma fields_update_logic_running (w : Worker) :
  game_over (state w) = false ->
  session_fields (state (update_logic w)) =
    (player_x (player_movement (state w)), player_y (state w),
     (if edge_hit_of (state w) then alien_direction (state w) * -1
      else alien_direction (state w)),
     alien_speed (state w) + (if formation_cleared w then 2 else 0),
     (if alien_anim_counter (state w) + 1 >=? ANIM_SPEED then 0
      else alien_anim_counter (state w) + 1),
     level (state w) + (if formation_cleared w then 1 else 0),
     shots_fired (state w)
     + (if ship_is_hit (state (before_ship_collisions w)) then 1 else 0)).
Proof.
  intros Hgo.
  rewrite (fields_update_logic w Hgo), fields_level_completion.
  unfold formation_cleared.
  pose proof (fields_resolve_collisions w) as Hr.
  revert Hr. generalize (resolve_collisions w). intros r Hr.
  destruct (aliens (state r)).
  - apply session_fields_inv in Hr.
    destruct Hr as (-> & -> & -> & -> & -> & -> & ->). reflexivity.
  - rewrite Hr, !Z.add_0_r. reflexivity.
Qed.

Lemma fields_tick (g : Widget) :
  session_fields (state (worker (tick g))) =
    if ticking (worker g) then session_fields (state (update_logic (worker g)))
    else session_fields (state (worker g)).
Proof.
  unfold tick, ticking, run_iteration.
  destruct (running (worker g)); [|reflexivity].
  destruct (paused (state (worker g))); [reflexivity|].
  destruct (game_over (state (worker g))) eqn:Hgo.
  - rewrite (update_logic_game_over _ Hgo). reflexivity.
  - cbn [orb andb negb]. generalize (update_logic (worker g)). reflexivity.
Qed.

(** ** C5: the player's x *)

Lemma player_movement_x (s : State) :
  player_x (player_movement s) = moved_x (keys_pressed s) (player_x s).
Proof.
  unfold player_movement, moved_x.
  destruct (key_left (keys_pressed s)); cbn [keys_pressed set_player_x player_x];
    destruct (key_right (keys_pressed s)); reflexivity.
Qed.

Lemma moved_x_in_world (k : Keys) (x : Z) : in_world x -> in_world (moved_x k x).
Proof.
  unfold in_world, moved_x, WORLD_W, PLAYER_WIDTH.
  destruct (key_left k), (key_right k); lia.
Qed.

Lemma moved_x_step (k : Keys) (x : Z) :
  in_world x -> Z.abs (moved_x k x - x) <= 10.
Proof.
  unfold in_world, moved_x, WORLD_W, PLAYER_WIDTH.
  destruct (key_left k), (key_right k); lia.
Qed.

Lemma moved_x_monotone (k : Keys) (x y : Z) :
  x <= y -> moved_x k x <= moved_x k y.
Proof.
  unfold moved_x, WORLD_W, PLAYER_WIDTH.
  destruct (key_left k), (key_right k); lia.
Qed.

Lemma player_x_handle (ev : Event) (g : Widget) :
  in_world (player_x (state (worker g))) ->
  in_world (player_x (state (worker (handle ev g)))).
Proof.
  intros Hin. destruct ev as [k|k|]; cbn [handle].
  - pose proof (fields_keyPressEvent k g) as Hf. revert Hf.
    generalize (keyPressEvent k g). intros g' Hf.
    destruct (key_resets k g); apply session_fields_inv in Hf;
      destruct Hf as (Hx & _); rewrite Hx; [unfold in_world; cbn; lia | exact Hin].
  - pose proof (fields_keyReleaseEvent k g) as Hf. revert Hf.
    generalize (keyReleaseEvent k g). intros g' Hf.
    apply session_fields_inv in Hf. destruct Hf as (Hx & _). rewrite Hx. exact Hin.
  - pose proof (fields_tick g) as Hf. unfold ticking in Hf.
    destruct (running (worker g) && negb (paused (state (worker g)))).
    + destruct (game_over (state (worker g))) eqn:Hgo; cbn [negb andb] in Hf.
      * revert Hf. generalize (tick g). intros g' Hf.
        apply session_fields_inv in Hf. destruct Hf as (Hx & _). rewrite Hx. exact Hin.
      * rewrite (fields_update_logic_running _ Hgo) in Hf.
        revert Hf. generalize (tick g). intros g' Hf.
        apply session_fields_inv in Hf. destruct Hf as (Hx & _). rewrite Hx.
        rewrite player_movement_x. apply moved_x_in_world. exact Hin.
    + cbn [andb] in Hf. revert Hf. generalize (tick g). intros g' Hf.
      apply session_fields_inv in Hf. destruct Hf as (Hx & _). rewrite Hx. exact Hin.
Qed.

Lemma player_x_run_events (evs : list Event) (g : Widget) :
  in_world (player_x (state (worker g))) ->
  in_world (player_x (state (worker (run_events evs g)))).
Proof.
  unfold run_events. revert g.
  induction evs as [|ev rest IH]; intros g Hin; cbn [fold_left].
  - exact Hin.
  - apply IH. apply player_x_handle. exact Hin.
Qed.

(** C5. Whatever keys are pressed and released, and whatever else
    happens between the ticks, the player's x is within
    [0, WORLD_W - PLAYER_WIDTH] after every event of a run that starts
    there, and a session starts there (at 470).  A tick of a running
    game moves x by the movement step only: 10 to the left when Left is
    held, then 10 to the right when Right is held, each clamped
    ([max 0], [min (WORLD_W - PLAYER_WIDTH)]); so x moves by at most 10
    per tick, and by exactly 10 when one key is held away from the
    wall.  Clamping the result again changes nothing, and the step is
    monotone in x. *)
Theorem player_x_stays_in_world (g : Widget) (evs : list Event) :
  in_world (player_x (state (worker g))) ->
  let s := state (worker (run_events evs g)) in
  let x := player_x s in
  let x' := player_x (player_movement s) in
  0 <= x <= WORLD_W - PLAYER_WIDTH /\
  (forall w0, player_x (state (reset_state w0)) = 470 /\ in_world 470) /\
  (game_over s = false ->
   player_x (state (update_logic (worker (run_events evs g)))) = x') /\
  x' = moved_x (keys_pressed s) x /\
  0 <= x' <= WORLD_W - PLAYER_WIDTH /\
  Z.abs (x' - x) <= 10 /\
  (key_left (keys_pressed s) = true -> key_right (keys_pressed s) = false ->
   10 <= x -> x' = x - 10) /\
  (key_left (keys_pressed s) = false -> key_right (keys_pressed s) = true ->
   x <= WORLD_W - PLAYER_WIDTH - 10 -> x' = x + 10) /\
  Z.min (WORLD_W - PLAYER_WIDTH) (Z.max 0 x') = x' /\
  (forall t, keys_pressed t = keys_pressed s -> player_x t <= x ->
             player_x (player_movement t) <= x').
Proof.
  intros Hstart s x x'.
  pose proof (player_x_run_events evs g Hstart) as Hin. fold s in Hin. fold x in Hin.
  assert (Hx' : x' = moved_x (keys_pressed s) x) by apply player_movement_x.
  pose proof (moved_x_in_world (keys_pressed s) x Hin) as Hin'.
  pose proof (moved_x_step (keys_pressed s) x Hin) as Hstep.
  rewrite <- Hx' in Hin', Hstep.
  split; [exact Hin|]. split.
  { intros w0. pose proof (fields_reset_state w0) as Hr.
    apply session_fields_inv in Hr. destruct Hr as (Hr & _).
    split; [exact Hr | unfold in_world; cbn; lia]. }
  split.
  { intros Hgo. pose proof (fields_update_logic_running _ Hgo) as Hf.
    apply session_fields_inv in Hf. destruct Hf as (Hf & _). exact Hf. }
  split; [exact Hx'|]. split; [exact Hin'|]. split; [exact Hstep|].
  split; [|split; [|split]].
  - intros Hl Hr Hx. rewrite Hx'. unfold moved_x. rewrite Hl, Hr. lia.
  - intros Hl Hr Hx. rewrite Hx'. unfold moved_x. rewrite Hl, Hr. lia.
  - unfold in_world in Hin'. lia.
  - intros t Hk Ht. rewrite Hx', player_movement_x, Hk.
    apply moved_x_monotone. exact Ht.
Qed.

Lemma player_x_stays_in_world_witness :
  player_x (state (worker (run_events left_left_fire fresh_game))) = 450 /\
  0 <= player_x (state (worker (run_events left_left_fire fresh_game)))
    <= WORLD_W - PLAYER_WIDTH.
Proof.
  destruct (player_x_stays_in_world fresh_game left_left_fire) as (Hin & _).
  - vm_compute. split; discriminate.
  - split; [vm_compute; reflexivity | exact Hin].
Defined.

(** ** C10: the [shots_fired] counter *)

Lemma shots_fired_keyPressEvent (k : Key) (g : Widget) :
  shots_fired (state (worker (keyPressEvent k g))) =
    if key_resets k g then 0 else shots_fired (state (worker g)).
Proof.
  pose proof (fields_keyPressEvent k g) as Hf. revert Hf.
  generalize (keyPressEvent k g). intros g' Hf.
  destruct (key_resets k g); apply session_fields_inv in Hf;
    destruct Hf as (_ & _ & _ & _ & _ & _ & Hs); exact Hs.
Qed.

Lemma shots_fired_keyReleaseEvent (k : Key) (g : Widget) :
  shots_fired (state (worker (keyReleaseEvent k g))) = shots_fired (state (worker g)).
Proof.
  pose proof (fields_keyReleaseEvent k g) as Hf. revert Hf.
  generalize (keyReleaseEvent k g). intros g' Hf.
  apply session_fields_inv in Hf.
  destruct Hf as (_ & _ & _ & _ & _ & _ & Hs); exact Hs.
Qed.

Lemma shots_fired_tick (g : Widget) :
  shots_fired (state (worker (tick g))) =
    shots_fired (state (worker g))
    + (if ticking (worker g)
          && ship_is_hit (state (before_ship_collisions (worker g)))
       then 1 else 0).
Proof.
  pose proof (fields_tick g) as Hf.
  destruct (ticking (worker g)) eqn:Ht; cbn [andb].
  - assert (Hgo : game_over (state (worker g)) = false).
    { unfold ticking in Ht. destruct (game_over (state (worker g))); [|reflexivity].
      rewrite andb_false_r in Ht. discriminate. }
    rewrite (fields_update_logic_running _ Hgo) in Hf.
    revert Hf. generalize (tick g). intros g' Hf.
    apply session_fields_inv in Hf.
    destruct Hf as (_ & _ & _ & _ & _ & _ & Hs); exact Hs.
  - revert Hf. generalize (tick g). intros g' Hf.
    apply session_fields_inv in Hf.
    destruct Hf as (_ & _ & _ & _ & _ & _ & Hs). rewrite Hs. lia.
Qed.

Lemma shots_fired_handle (ev : Event) (g : Widget) :
  event_resets ev g = false ->
  shots_fired (state (worker g)) <= shots_fired (state (worker (handle ev g))).
Proof.
  destruct ev as [k|k|]; cbn [handle event_resets]; intros Hno.
  - rewrite shots_fired_keyPressEvent, Hno. lia.
  - rewrite shots_fired_keyReleaseEvent. lia.
  - rewrite shots_fired_tick.
    destruct (ticking (worker g)
              && ship_is_hit (state (before_ship_collisions (worker g)))); lia.
Qed.

Lemma shots_fired_run_events (evs : list Event) (g : Widget) :
  within_session evs g = true ->
  shots_fired (state (worker g)) <= shots_fired (state (worker (run_events evs g))).
Proof.
  unfold run_events. revert g.
  induction evs as [|ev rest IH]; intros g Hs; cbn [fold_left within_session] in *.
  - lia.
  - apply andb_true_iff in Hs. destruct Hs as [Hno Hrest].
    apply negb_true_iff in Hno.
    pose proof (shots_fired_handle ev g Hno).
    pose proof (IH (handle ev g) Hrest). lia.
Qed.

(** C10. Within a session, that is along any run of key events and
    ticks none of which goes through [reset_state], [shots_fired] never
    decreases.  In every state such a run reaches: pressing Space (the
    player firing) leaves the counter as it is, and so does every other
    key press that does not reset and every key release; a tick adds
    exactly 1 when the game logic runs and a player bullet meets the
    mystery ship at the ship collision test (the only place the scoring
    call is made), and nothing otherwise; a key press that resets, and
    [reset_state] itself, set the counter to 0. *)
Theorem shots_fired_changes_only_on_destruction (g : Widget) (evs : list Event) :
  within_session evs g = true ->
  let g' := run_events evs g in
  let n := shots_fired (state (worker g')) in
  shots_fired (state (worker g)) <= n /\
  key_resets Key_Space g' = false /\
  shots_fired (state (worker (keyPressEvent Key_Space g'))) = n /\
  shots_fired (state (worker (fire g'))) = n /\
  (forall k, key_resets k g' = false ->
             shots_fired (state (worker (keyPressEvent k g'))) = n) /\
  (forall k, key_resets k g' = true ->
             shots_fired (state (worker (keyPressEvent k g'))) = 0) /\
  (forall k, shots_fired (state (worker (keyReleaseEvent k g'))) = n) /\
  shots_fired (state (worker (tick g'))) =
    n + (if ticking (worker g')
            && ship_is_hit (state (before_ship_collisions (worker g')))
         then 1 else 0) /\
  (forall w0, shots_fired (state (reset_state w0)) = 0).
Proof.
  intros Hsession g' n.
  split; [exact (shots_fired_run_events evs g Hsession)|].
  assert (Hspace : key_resets Key_Space g' = false).
  { unfold key_resets. cbn [is_restart_key is_difficulty_key difficulty_of_key orb].
    apply andb_false_r. }
  split; [exact Hspace|].
  split; [rewrite shots_fired_keyPressEvent, Hspace; reflexivity|].
  split.
  { pose proof (fields_fire g') as Hf. revert Hf. generalize (fire g').
    intros f Hf. unfold session_fields in Hf. unfold n. congruence. }
  split; [intros k Hk; rewrite shots_fired_keyPressEvent, Hk; reflexivity|].
  split; [intros k Hk; rewrite shots_fired_keyPressEvent, Hk; reflexivity|].
  split; [intros k; apply shots_fired_keyReleaseEvent|].
  split; [apply shots_fired_tick|].
  intros w0. pose proof (fields_reset_state w0) as Hr.
  apply session_fields_inv in Hr.
  destruct Hr as (_ & _ & _ & _ & _ & _ & Hs); exact Hs.
Qed.

Lemma shots_fired_changes_only_on_destruction_witness :
  shots_fired (state (worker fresh_game))
    <= shots_fired (state (worker (run_events left_left_fire fresh_game))) /\
  shots_fired
    (state (worker (keyPressEvent Key_Space (run_events left_left_fire fresh_game))))
  = shots_fired (state (worker (run_events left_left_fire fresh_game))).
Proof.
  destruct (shots_fired_changes_only_on_destruction fresh_game left_left_fire)
    as (Hle & _ & Hspace & _).
  - vm_compute. reflexivity.
  - split; [exact Hle | exact Hspace].
Defined.

(** ** C6: the projectile advance *)

Lemma advance_bullets_spec (bs : list Bullet) :
  advance_bullets bs =
    map (fun b => (fst b, snd b - 20)) (filter (fun b => snd b >? 0) bs).
Proof.
  induction bs as [|[bx by_] rest IH]; simpl.
  - reflexivity.
  - destruct (by_ >? 0); simpl; rewrite IH; reflexivity.
Qed.

Lemma advance_alien_bullets_spec (bs : list Bullet) :
  advance_alien_bullets bs =
    map (fun b => (fst b, snd b + 15)) (filter (fun b => snd b <? WORLD_H) bs).
Proof.
  induction bs as [|[bx by_] rest IH]; cbn [advance_alien_bullets filter map fst snd].
  - reflexivity.
  - destruct (by_ <? WORLD_H); cbn [map fst snd]; rewrite IH; reflexivity.
Qed.

Lemma subsequence_filter {A : Type} (f : A -> bool) (l : list A) :
  subsequence (filter f l) l.
Proof.
  induction l as [|a l IH]; simpl.
  - constructor.
  - destruct (f a); constructor; exact IH.
Qed.

Lemma map_back {A : Type} (f g : A -> A) (l : list A) :
  (forall a, g (f a) = a) -> map g (map f l) = l.
Proof.
  intros Hgf. rewrite map_map. induction l as [|a l IH]; simpl; congruence.
Qed.

(** C6 (as the code has it). The projectile advance of a tick keeps
    exactly the player bullets with y > 0 and the alien bullets with
    y < WORLD_H, y being read as the phase finds it, before the move;
    it drops the others, moves every kept player bullet up by exactly
    20 and every kept alien bullet down by exactly 15 with x unchanged,
    and leaves the kept bullets of each list in the order they had.
    So a bullet that crosses the boundary during the advance is kept
    for that tick, less than a full step beyond the boundary, and is
    dropped by the advance of the next tick. *)
Theorem projectile_advance (s : State) :
  let s' := move_bullets s in
  let up := fun b : Bullet => (fst b, snd b - 20) in
  let down := fun b : Bullet => (fst b, snd b + 15) in
  bullets s' = map up (filter (fun b => snd b >? 0) (bullets s)) /\
  alien_bullets s' = map down (filter (fun b => snd b <? WORLD_H) (alien_bullets s)) /\
  (forall b, In b (bullets s') <->
             exists b0, In b0 (bullets s) /\ 0 < snd b0 /\ b = (fst b0, snd b0 - 20)) /\
  (forall b, In b (alien_bullets s') <->
             exists b0, In b0 (alien_bullets s) /\ snd b0 < WORLD_H
                        /\ b = (fst b0, snd b0 + 15)) /\
  length (bullets s') = length (filter (fun b => snd b >? 0) (bullets s)) /\
  length (alien_bullets s') =
    length (filter (fun b => snd b <? WORLD_H) (alien_bullets s)) /\
  subsequence (map (fun b => (fst b, snd b + 20)) (bullets s')) (bullets s) /\
  subsequence (map (fun b => (fst b, snd b - 15)) (alien_bullets s')) (alien_bullets s) /\
  Forall (fun b => -20 < snd b) (bullets s') /\
  Forall (fun b => snd b < WORLD_H + 15) (alien_bullets s').
Proof.
  intros s' up down.
  assert (Hb : bullets s' = map up (filter (fun b => snd b >? 0) (bullets s)))
    by apply advance_bullets_spec.
  assert (Ha : alien_bullets s'
               = map down (filter (fun b => snd b <? WORLD_H) (alien_bullets s)))
    by apply advance_alien_bullets_spec.
  split; [exact Hb|]. split; [exact Ha|].
  split; [|split; [|split; [|split; [|split; [|split; [|split]]]]]].
  - intros b. rewrite Hb, in_map_iff. split.
    + intros (b0 & <- & Hin). apply filter_In in Hin. destruct Hin as [Hin Hy].
      exists b0. repeat split; [exact Hin | lia].
    + intros (b0 & Hin & Hy & ->). exists b0. split; [reflexivity|].
      apply filter_In. split; [exact Hin | lia].
  - intros b. rewrite Ha, in_map_iff. split.
    + intros (b0 & <- & Hin). apply filter_In in Hin. destruct Hin as [Hin Hy].
      exists b0. repeat split; [exact Hin | lia].
    + intros (b0 & Hin & Hy & ->). exists b0. split; [reflexivity|].
      apply filter_In. split; [exact Hin | lia].
  - rewrite Hb. apply length_map.
  - rewrite Ha. apply length_map.
  - rewrite Hb, map_back; [apply subsequence_filter|].
    intros [bx by_]. unfold up. cbn [fst snd]. f_equal. lia.
  - rewrite Ha, map_back; [apply subsequence_filter|].
    intros [bx by_]. unfold down. cbn [fst snd]. f_equal. lia.
  - rewrite Hb. apply Forall_forall. intros b Hin.
    apply in_map_iff in Hin. destruct Hin as (b0 & <- & Hin).
    apply filter_In in Hin. destruct Hin as [_ Hy]. unfold up. cbn [snd]. lia.
  - rewrite Ha. apply Forall_forall. intros b Hin.
    apply in_map_iff in Hin. destruct Hin as (b0 & <- & Hin).
    apply filter_In in Hin. destruct Hin as [_ Hy]. unfold down. cbn [snd]. lia.
Qed.

(** In the game of [quiet_easy_game] the bullet fired in round 20
    passes the formation.  When the 55th tick starts it is at
    y = 10; the advance of that tick takes it across the top boundary
    to y = -10 and keeps it: it is in the list the phase leaves and in
    the state the tick ends with. *)
Lemma bullet_across_the_top_is_kept :
  let g :=
    run_events (fire_rounds 54 ++ [KeyPress Key_Space; KeyRelease Key_Space])
      quiet_easy_game in
  let s := player_movement (state (worker g)) in
  In (498, 10) (bullets s) /\
  In (498, -10) (bullets (move_bullets s)) /\
  In (498, -10) (bullets (state (worker (tick g)))) /\
  ~ (forall b, In b (bullets (move_bullets s)) -> 0 <= snd b).
Proof.
  cbv zeta.
  assert (H1 : In (498, -10)
                 (bullets (move_bullets
                    (player_movement
                       (state (worker
                          (run_events
                             (fire_rounds 54 ++ [KeyPress Key_Space; KeyRelease Key_Space])
                             quiet_easy_game))))))).
  { vm_compute. tauto. }
  split; [vm_compute; tauto|]. split; [exact H1|]. split; [vm_compute; tauto|].
  intros Hall. specialize (Hall _ H1). cbn [snd] in Hall. lia.
Qed.

(** ** C9: the spawn countdown *)

Lemma cooldown_reset_state (w : Worker) :
  mystery_ship_cooldown (state (reset_state w)) = fst (randint 600 1000 (rng w)).
Proof.
  unfold reset_state. destruct (randint 600 1000 (rng w)) as [countdown g].
  rewrite create_aliens_spec. reflexivity.
Qed.

Lemma cooldown_ship_exit (w : Worker) (mx my : Z) :
  mystery_ship (state w) = Some (mx, my) ->
  mx + mystery_ship_direction (state w) * 5 < -60
  \/ mx + mystery_ship_direction (state w) * 5 > WORLD_W ->
  mystery_ship (state (mystery_ship_movement w)) = None /\
  mystery_ship_cooldown (state (mystery_ship_movement w)) =
    fst (randint 600 1000 (rng w)).
Proof.
  intros Hship Hout. unfold mystery_ship_movement. rewrite Hship.
  assert (Hb : (mx + mystery_ship_direction (state w) * 5 <? -60)
               || (mx + mystery_ship_direction (state w) * 5 >? WORLD_W) = true).
  { apply orb_true_iff. destruct Hout; [left|right]; lia. }
  rewrite Hb. destruct (randint 600 1000 (rng w)) as [countdown g].
  split; reflexivity.
Qed.

Lemma cooldown_ship_destroyed (w : Worker) :
  ship_is_hit (state w) = true ->
  mystery_ship (state (mystery_ship_collisions w)) = None /\
  mystery_ship_cooldown (state (mystery_ship_collisions w)) =
    fst (randint 600 1000 (rng w)).
Proof.
  unfold ship_is_hit, mystery_ship_collisions.
  destruct (mystery_ship (state w)) as [ship|]; [|discriminate].
  destruct (first_hit (ship_rect ship) (bullets (state w))) as [b|]; [|discriminate].
  intros _. rewrite calculate_mystery_ship_score_spec.
  destruct (randint 600 1000 (rng w)) as [countdown g]. split; reflexivity.
Qed.

(** C9 (as the code has it). Each time the spawn countdown is drawn --
    by [reset_state], when the ship leaves the world (x < -60 or
    x > WORLD_W after its move) and when a player bullet destroys it --
    the new value is [randint 600 1000], which lies in the closed range
    600 <= value <= 1000: the upper end 1000 is included. *)
Theorem spawn_countdown_range (w : Worker) :
  600 <= mystery_ship_cooldown (state (reset_state w)) <= 1000 /\
  (forall mx my,
     mystery_ship (state w) = Some (mx, my) ->
     mx + mystery_ship_direction (state w) * 5 < -60
     \/ mx + mystery_ship_direction (state w) * 5 > WORLD_W ->
     mystery_ship (state (mystery_ship_movement w)) = None /\
     600 <= mystery_ship_cooldown (state (mystery_ship_movement w)) <= 1000) /\
  (ship_is_hit (state w) = true ->
   mystery_ship (state (mystery_ship_collisions w)) = None /\
   600 <= mystery_ship_cooldown (state (mystery_ship_collisions w)) <= 1000).
Proof.
  pose proof (randint_range 600 1000 (rng w) ltac:(lia)) as Hrange.
  split; [rewrite cooldown_reset_state; exact Hrange|]. split.
  - intros mx my Hship Hout.
    destruct (cooldown_ship_exit w mx my Hship Hout) as [Hnone ->].
    split; [exact Hnone | exact Hrange].
  - intros Hhit. destruct (cooldown_ship_destroyed w Hhit) as [Hnone ->].
    split; [exact Hnone | exact Hrange].
Qed.

Lemma spawn_countdown_range_witness :
  600 <= mystery_ship_cooldown (state (mystery_ship_movement ship_leaving)) <= 1000 /\
  600 <= mystery_ship_cooldown (state (mystery_ship_collisions ship_under_fire)) <= 1000.
Proof.
  split.
  - destruct (spawn_countdown_range ship_leaving) as (_ & Hexit & _).
    destruct (Hexit 1000 50) as [_ Hr].
    + reflexivity.
    + right. vm_compute. reflexivity.
    + exact Hr.
  - destruct (spawn_countdown_range ship_under_fire) as (_ & _ & Hhit).
    destruct Hhit as [_ Hr]; [reflexivity | exact Hr].
Defined.

(** With 400 as the generator's next draw, each of the three places
    sets the countdown to 1000, which is not below 1000. *)
Lemma spawn_countdown_can_be_1000 :
  mystery_ship_cooldown (state (reset_state before_reset)) = 1000 /\
  mystery_ship_cooldown (state (mystery_ship_movement ship_leaving)) = 1000 /\
  mystery_ship_cooldown (state (mystery_ship_collisions ship_under_fire_400)) = 1000 /\
  ~ (600 <= mystery_ship_cooldown (state (reset_state before_reset)) < 1000).
Proof.
  assert (H1 : mystery_ship_cooldown (state (reset_state before_reset)) = 1000)
    by (vm_compute; reflexivity).
  repeat split; try (vm_compute; reflexivity).
  rewrite H1. lia.
Qed.

(* ------------------------------------------------------------------ *)
(** ** The high-score table *)

Section HighScoreFacts.

Import HighScores.

Variable upper_char : char -> str.













End HighScoreFacts.

(** ** C7: [add_score] and the round trip through the file *)




(** Called directly with the initials "ßab", [add_score] stores the
    four characters "SSAB": it cuts before it uppercases.  The widget
    never passes such initials ([get_initials] uppercases and cuts
    first). *)
Lemma add_score_stores_four_characters :
  fst (HighScores.add_score HighScores.upper_latin1 sharp_s_a_b 1 []
         (HighScores.mkDisk HighScores.Missing true))
  = [HighScores.mkEntry [83%N; 83%N; 65%N; 66%N] 1] /\
  ~ Forall (fun e => (length (HighScores.initials e) <= 3)%nat)
      (fst (HighScores.add_score HighScores.upper_latin1 sharp_s_a_b 1 []
              (HighScores.mkDisk HighScores.Missing true))).
Proof.
  split; [vm_compute; reflexivity|].
  intros Hall. vm_compute in Hall. inversion Hall as [|e rest Hlen _]; subst.
  cbn in Hlen. lia.
Qed.

(** When the file cannot be written the table in memory is updated all
    the same and the file keeps the old table. *)
Lemma add_score_on_read_only_disk :
  fst (HighScores.add_score HighScores.upper_latin1 blank_zed_blank 900
         three_entries read_only_disk)
  = HighScores.mkEntry [90%N; 69%N; 68%N] 900 :: three_entries /\
  HighScores.load_scores
    (HighScores.file
       (snd (HighScores.add_score HighScores.upper_latin1 blank_zed_blank 900
               three_entries read_only_disk)))
  = HighScores.Ok (HighScores.Scores three_entries).
Proof. vm_compute. split; reflexivity. Qed.

(** What JSON does not carry unchanged.  Initials made of a high and a
    low surrogate come back from the file as the one code point
    U+1F600.  A score of 4301 digits makes [json.dump] raise
    [ValueError], which escapes [add_score]; the table in memory has
    the entry, the file is left with a document cut short, and loading
    it afterwards gives the empty table. *)
Lemma add_score_beyond_json :
  HighScores.load_scores
    (HighScores.file
       (snd (HighScores.add_score HighScores.upper_latin1 two_surrogates 10 []
               (HighScores.mkDisk HighScores.Missing true))))
  = HighScores.Ok (HighScores.Scores [HighScores.mkEntry [128512%N] 10]) /\
  HighScores.add_score_raises HighScores.upper_latin1 zed (10 ^ 4300) three_entries
    writable_disk = Some HighScores.ValueError /\
  length (fst (HighScores.add_score HighScores.upper_latin1 zed (10 ^ 4300)
                 three_entries writable_disk)) = 4%nat /\
  HighScores.file
    (snd (HighScores.add_score HighScores.upper_latin1 zed (10 ^ 4300) three_entries
            writable_disk)) = HighScores.NotJson /\
  HighScores.load_scores HighScores.NotJson = HighScores.Ok (HighScores.Scores []).
Proof. vm_compute. repeat split. Qed.

(** ** C8: loading the scores file *)

(** What [load_scores] does with each kind of file: a missing file, an
    empty or otherwise non-JSON text give the empty table; a JSON
    document is returned as parsed. *)
Lemma load_scores_handled :
  HighScores.load_scores HighScores.Missing = HighScores.Ok (HighScores.Scores []) /\
  HighScores.load_scores HighScores.NotJson = HighScores.Ok (HighScores.Scores []) /\
  (forall t, HighScores.scores_convert t = true ->
             HighScores.load_scores (HighScores.JsonDoc (HighScores.Scores t))
             = HighScores.Ok (HighScores.Scores t)) /\
  HighScores.load_scores (HighScores.JsonDoc HighScores.OtherJson)
  = HighScores.Ok HighScores.OtherJson.
Proof.
  repeat split. intros t Ht.
  unfold HighScores.load_scores, HighScores.exists_, HighScores.open_and_json_load.
  rewrite Ht. reflexivity.
Qed.

(** Two more exceptions escape the same handler: the [ValueError] of an
    integer of more than 4300 digits and the [RecursionError] of a
    document nested too deep. *)
Lemma load_scores_further_escapes :
  HighScores.load_scores HighScores.HugeIntJson = HighScores.Raise HighScores.ValueError /\
  HighScores.load_scores HighScores.DeepJson = HighScores.Raise HighScores.RecursionError.
Proof. split; reflexivity. Qed.

(** C8. A scores file whose bytes are not text in the platform's
    encoding makes [json.load] raise [UnicodeDecodeError], which is not
    a [JSONDecodeError]: [load_scores] lets it escape instead of
    returning the empty table.  A file that cannot be opened does the
    same with [OSError]. *)
Theorem load_scores_lets_decoding_error_escape :
  HighScores.load_scores HighScores.Undecodable
    = HighScores.Raise HighScores.UnicodeDecodeError /\
  HighScores.load_scores HighScores.Undecodable
    <> HighScores.Ok (HighScores.Scores []) /\
  HighScores.load_scores HighScores.Unreadable = HighScores.Raise HighScores.OSError.
Proof. repeat split. discriminate. Qed.

(* ------------------------------------------------------------------ *)
(** * Further properties of the code *)

Ltac state_fields_in H :=
  cbn [player_x player_y bullets alien_bullets aliens alien_direction alien_speed
       alien_anim_counter score lives level game_over keys_pressed
       alien_shoot_cooldown paused shots_fired mystery_ship mystery_ship_direction
       mystery_ship_cooldown
       set_player_x set_bullets set_alien_bullets set_aliens set_alien_direction
       set_alien_speed set_alien_anim_counter set_score set_lives set_level
       set_game_over set_keys_pressed set_alien_shoot_cooldown set_paused
       set_shots_fired set_mystery_ship set_mystery_ship_direction
       set_mystery_ship_cooldown] in H.

(** ** Subsequences *)

Lemma subsequence_refl {A : Type} (l : list A) : subsequence l l.
Proof. induction l; constructor; assumption. Qed.

Lemma subsequence_trans {A : Type} (l1 l2 l3 : list A) :
  subsequence l1 l2 -> subsequence l2 l3 -> subsequence l1 l3.
Proof.
  intros H12 H23. revert l1 H12.
  induction H23 as [|a l2 l3 H23 IH|a l2 l3 H23 IH]; intros l1 H12.
  - exact H12.
  - inversion H12 as [|b sub l Hsub|b sub l Hsub]; subst.
    + apply subsequence_keep. apply IH. exact Hsub.
    + apply subsequence_drop. apply IH. exact Hsub.
  - apply subsequence_drop. apply IH. exact H12.
Qed.

Lemma subsequence_Forall {A : Type} (P : A -> Prop) (sub l : list A) :
  subsequence sub l -> Forall P l -> Forall P sub.
Proof.
  intros Hsub. induction Hsub as [|a sub l Hsub IH|a sub l Hsub IH]; intros Hall.
  - constructor.
  - inversion Hall; subst. constructor; auto.
  - inversion Hall; subst. auto.
Qed.

Lemma subsequence_length {A : Type} (sub l : list A) :
  subsequence sub l -> (length sub <= length l)%nat.
Proof.
  intros Hsub. induction Hsub; simpl; lia.
Qed.

Lemma subsequence_app_drop {A : Type} (before after : list A) (b : A) :
  subsequence (before ++ after) (before ++ b :: after).
Proof.
  induction before as [|a before IH]; simpl.
  - apply subsequence_drop. apply subsequence_refl.
  - apply subsequence_keep. exact IH.
Qed.

(** ** Player bullets against the formation *)

(** What the loop over the formation has done when it ends: [kills]
    aliens are gone, as many bullets are gone, the score has grown by
    [10 * multiplier] for each, and no bullet that is left meets an
    alien that is left. *)
Lemma collision_loop_accounting (d : Difficulty) (formation acc : list Alien) (s : State) :
  exists survivors,
    fst (collision_loop d formation acc s) = acc ++ survivors /\
    subsequence survivors formation /\
    subsequence (bullets (snd (collision_loop d formation acc s))) (bullets s) /\
    score (snd (collision_loop d formation acc s)) =
      score s + 10 * multiplier d
                * (Z.of_nat (length formation) - Z.of_nat (length survivors)) /\
    Z.of_nat (length (bullets (snd (collision_loop d formation acc s)))) =
      Z.of_nat (length (bullets s))
      - (Z.of_nat (length formation) - Z.of_nat (length survivors)) /\
    Forall (fun a => first_hit (alien_hitbox a)
                       (bullets (snd (collision_loop d formation acc s))) = None)
      survivors.
Proof.
  revert acc s. induction formation as [|alien rest IH]; intros acc s.
  - exists []. cbn [collision_loop fst snd length]. rewrite app_nil_r.
    repeat split; try constructor; try apply subsequence_refl; lia.
  - cbn [collision_loop].
    destruct (first_hit (alien_hitbox alien) (bullets s)) as [b|] eqn:Hhit.
    + destruct (first_hit_Some _ _ _ Hhit) as (before & after & Hbs & Hno & Hb).
      pose proof (remove_bullet_split _ before after b Hno Hb) as Hrm.
      rewrite <- Hbs in Hrm.
      destruct (IH acc (set_bullets (remove_bullet b (bullets s))
                          (set_score (score s + 10 * multiplier d) s)))
        as (survivors & Hrem & Hsub & Hbsub & Hscore & Hlen & Hclear).
      revert Hrem Hbsub Hscore Hlen Hclear.
      change (bullets (set_score (score s + 10 * multiplier d) s)) with (bullets s).
      generalize (collision_loop d rest acc
                    (set_bullets (remove_bullet b (bullets s))
                       (set_score (score s + 10 * multiplier d) s))).
      intros [rem s'] Hrem Hbsub Hscore Hlen Hclear.
      cbn [fst snd] in *. state_fields_in Hbsub. state_fields_in Hscore.
      state_fields_in Hlen. rewrite Hrm in Hbsub, Hlen.
      exists survivors. split; [exact Hrem|].
      split; [apply subsequence_drop; exact Hsub|].
      split.
      { eapply subsequence_trans; [exact Hbsub|]. rewrite Hbs.
        apply subsequence_app_drop. }
      split.
      { rewrite Hscore. cbn [length]. lia. }
      split.
      { rewrite Hlen, Hbs, !length_app. cbn [length]. lia. }
      exact Hclear.
    + destruct (IH (acc ++ [alien]) s)
        as (survivors & Hrem & Hsub & Hbsub & Hscore & Hlen & Hclear).
      revert Hrem Hbsub Hscore Hlen Hclear.
      generalize (collision_loop d rest (acc ++ [alien]) s).
      intros [rem s'] Hrem Hbsub Hscore Hlen Hclear.
      cbn [fst snd] in *.
      exists (alien :: survivors).
      split; [rewrite Hrem, <- app_assoc; reflexivity|].
      split; [apply subsequence_keep; exact Hsub|].
      split; [exact Hbsub|].
      split; [rewrite Hscore; cbn [length]; lia|].
      split; [rewrite Hlen; cbn [length]; lia|].
      constructor; [|exact Hclear].
      apply first_hit_None. apply first_hit_None in Hhit.
      eapply subsequence_Forall; [exact Hbsub | exact Hhit].
Qed.

(** X1. The player-bullets-against-aliens phase removes some aliens
    and as many bullets, leaving the others in order; the score grows
    by [10 * multiplier] (10, 20 or 30 by difficulty) for each alien
    removed; so a bullet removes at most one alien, and afterwards no
    bullet that is left meets the padded hitbox of an alien that is
    left. *)
Theorem bullets_against_formation (w : Worker) :
  let w' := collision_detection w in
  let kills :=
    Z.of_nat (length (aliens (state w))) - Z.of_nat (length (aliens (state w'))) in
  subsequence (aliens (state w')) (aliens (state w)) /\
  subsequence (bullets (state w')) (bullets (state w)) /\
  0 <= kills /\
  Z.of_nat (length (bullets (state w'))) =
    Z.of_nat (length (bullets (state w))) - kills /\
  score (state w') = score (state w) + 10 * multiplier (difficulty w) * kills /\
  Forall
    (fun a =>
       Forall (fun b => intersects (bullet_rect b) (alien_hitbox a) = false)
         (bullets (state w')))
    (aliens (state w')).
Proof.
  cbv zeta. unfold collision_detection.
  destruct (collision_loop_accounting (difficulty w) (aliens (state w)) [] (state w))
    as (survivors & Hrem & Hsub & Hbsub & Hscore & Hlen & Hclear).
  revert Hrem Hbsub Hscore Hlen Hclear.
  generalize (collision_loop (difficulty w) (aliens (state w)) [] (state w)).
  intros [rem s'] Hrem Hbsub Hscore Hlen Hclear.
  cbn [fst snd app] in *. subst rem.
  cbn [state set_state]. state_fields.
  pose proof (subsequence_length _ _ Hsub) as Hle.
  split; [exact Hsub|]. split; [exact Hbsub|].
  split; [lia|]. split; [exact Hlen|]. split; [exact Hscore|].
  eapply Forall_impl; [|exact Hclear]. cbv beta. intros a Ha.
  apply first_hit_None. exact Ha.
Qed.

(** ** Alien bullets against the player *)

Lemma count_request_initials_app (l1 l2 : list Signal) :
  count_request_initials (l1 ++ l2)
  = (count_request_initials l1 + count_request_initials l2)%nat.
Proof.
  induction l1 as [|[| |sc] l1 IH]; simpl; rewrite ?IH; reflexivity.
Qed.

Lemma player_hit_loop_accounting (copy : list Bullet) :
  forall (w : Worker) (pre : list Bullet),
    alien_bullets (state w) = pre ++ copy ->
    Forall (fun c => meets (player_rect (state w)) c = false) pre ->
    let r := player_rect (state w) in
    let h := Z.of_nat (length (filter (meets r) copy)) in
    let w' := player_hit_loop copy w in
    player_rect (state w') = r /\
    score (state w') = score (state w) /\
    alien_bullets (state w') = pre ++ filter (fun b => negb (meets r b)) copy /\
    lives (state w') = lives (state w) - h /\
    game_over (state w') =
      game_over (state w) || ((0 <? h) && (lives (state w) - h <=? 0)) /\
    Z.of_nat (count_request_initials (emitted w')) =
      Z.of_nat (count_request_initials (emitted w))
      + Z.max 0 (Z.min h (h - lives (state w) + 1)).
Proof.
  induction copy as [|b rest IH]; intros w pre Hab Hpre r h w'.
  - subst w' h. cbn [player_hit_loop filter length Z.of_nat].
    rewrite Hab. rewrite orb_false_r.
    repeat split; lia.
  - subst w'. cbn [player_hit_loop].
    change (intersects (bullet_rect b) (player_rect (state w))) with (meets r b).
    subst h. cbn [filter].
    destruct (meets r b) eqn:Hb; cbn [negb].
    + (* a hit *)
      change (alien_bullets (set_lives (lives (state w) - 1) (state w)))
        with (alien_bullets (state w)).
      rewrite Hab.
      rewrite (remove_bullet_split r pre rest b Hpre Hb).
      set (s2 := set_alien_bullets (pre ++ rest)
                   (set_lives (lives (state w) - 1) (state w))).
      set (w2 := if lives s2 <=? 0
                 then emit (RequestInitials (c_int (score s2)))
                        (on_state (set_game_over true) (set_state s2 w))
                 else set_state s2 w).
      assert (Hw2 : player_rect (state w2) = r
                    /\ score (state w2) = score (state w)
                    /\ alien_bullets (state w2) = pre ++ rest
                    /\ lives (state w2) = lives (state w) - 1
                    /\ game_over (state w2)
                       = game_over (state w) || (lives (state w) - 1 <=? 0)
                    /\ Z.of_nat (count_request_initials (emitted w2))
                       = Z.of_nat (count_request_initials (emitted w))
                         + (if lives (state w) - 1 <=? 0 then 1 else 0)).
      { subst w2. change (lives s2) with (lives (state w) - 1).
        destruct (lives (state w) - 1 <=? 0).
        - cbn [state emit on_state set_state emitted].
          rewrite count_request_initials_app. cbn [count_request_initials].
          rewrite orb_true_r. repeat split. lia.
        - cbn [state set_state emitted]. rewrite orb_false_r.
          repeat split. lia. }
      clearbody w2. clear s2.
      destruct Hw2 as (Hr2 & Hs2 & Hab2 & Hl2 & Hg2 & Hc2).
      assert (Hpre2 : Forall (fun c => meets (player_rect (state w2)) c = false) pre)
        by (rewrite Hr2; exact Hpre).
      destruct (IH w2 pre Hab2 Hpre2) as (Hr & Hs & Hab' & Hl & Hg & Hc).
      rewrite Hr2 in Hr, Hab', Hl, Hg, Hc.
      revert Hr Hs Hab' Hl Hg Hc. generalize (player_hit_loop rest w2).
      intros w' Hr Hs Hab' Hl Hg Hc.
      cbn [length]. rewrite Nat2Z.inj_succ.
      set (h := Z.of_nat (length (filter (meets r) rest))) in *.
      assert (Hh : 0 <= h) by (subst h; lia).
      split; [exact Hr|]. split; [congruence|]. split; [exact Hab'|].
      split; [lia|]. split.
      { rewrite Hg, Hg2, Hl2.
        destruct (game_over (state w)); [reflexivity|]. cbn [orb].
        repeat match goal with
               | |- context [?a <=? ?b] => destruct (Z.leb_spec a b)
               | |- context [?a <? ?b] => destruct (Z.ltb_spec a b)
               end; cbn [orb andb]; try reflexivity; lia. }
      rewrite Hc, Hc2, Hl2.
      destruct (Z.leb_spec (lives (state w) - 1) 0); lia.
    + (* a miss *)
      assert (Hab2 : alien_bullets (state w) = (pre ++ [b]) ++ rest)
        by (rewrite Hab, <- app_assoc; reflexivity).
      assert (Hpre2 : Forall (fun c => meets (player_rect (state w)) c = false)
                        (pre ++ [b])).
      { apply Forall_app. split; [exact Hpre|]. constructor; [exact Hb|constructor]. }
      destruct (IH w (pre ++ [b]) Hab2 Hpre2) as (Hr & Hs & Hab' & Hl & Hg & Hc).
      fold r in Hr, Hab', Hl, Hg, Hc.
      revert Hr Hs Hab' Hl Hg Hc. generalize (player_hit_loop rest w).
      intros w' Hr Hs Hab' Hl Hg Hc.
      split; [exact Hr|]. split; [exact Hs|].
      split; [rewrite Hab', <- app_assoc; reflexivity|].
      split; [exact Hl|]. split; [exact Hg|exact Hc].
Qed.

(** X2. The alien-bullets-against-player phase takes one life for
    every alien bullet that meets the player, removes exactly those
    bullets and keeps the others in order; it sets [game_over] when a
    hit leaves no life, and emits [request_initials] once for the hit
    that brings the lives to 0 or below and once more for every hit
    after it in the same tick.  The score is not touched. *)
Theorem alien_bullets_against_player (w : Worker) :
  let r := player_rect (state w) in
  let h := Z.of_nat (length (filter (meets r) (alien_bullets (state w)))) in
  let w' := alien_bullets_hit_player w in
  alien_bullets (state w') =
    filter (fun b => negb (meets r b)) (alien_bullets (state w)) /\
  lives (state w') = lives (state w) - h /\
  game_over (state w') =
    game_over (state w) || ((0 <? h) && (lives (state w) - h <=? 0)) /\
  Z.of_nat (count_request_initials (emitted w')) =
    Z.of_nat (count_request_initials (emitted w))
    + Z.max 0 (Z.min h (h - lives (state w) + 1)) /\
  score (state w') = score (state w).
Proof.
  cbv zeta. unfold alien_bullets_hit_player.
  destruct (player_hit_loop_accounting (alien_bullets (state w)) w []
              eq_refl (Forall_nil _))
    as (_ & Hs & Hab & Hl & Hg & Hc).
  cbn [app] in Hab.
  split; [exact Hab|]. split; [exact Hl|]. split; [exact Hg|].
  split; [exact Hc|exact Hs].
Qed.

(** ** The landing test and the signals of a tick *)

Lemma reach_bottom_loop_spec (formation : list Alien) (w : Worker) :
  reach_bottom_loop formation w =
    if existsb (fun a => alien_y a + 30 >=? player_y (state w)) formation
    then emit (RequestInitials (c_int (score (state w)))) (on_state (set_game_over true) w)
    else w.
Proof.
  induction formation as [|alien rest IH]; cbn [reach_bottom_loop existsb].
  - reflexivity.
  - destruct (alien_y alien + 30 >=? player_y (state w)); [reflexivity|exact IH].
Qed.

Lemma aliens_reach_bottom_spec (w : Worker) :
  aliens_reach_bottom w =
    if landed (state w)
    then emit (RequestInitials (c_int (score (state w)))) (on_state (set_game_over true) w)
    else w.
Proof. unfold aliens_reach_bottom, landed. apply reach_bottom_loop_spec. Qed.

Lemma emitted_alien_shooting (w : Worker) :
  count_request_initials (emitted (alien_shooting w))
  = count_request_initials (emitted w).
Proof.
  unfold alien_shooting.
  destruct (alien_shoot_cooldown (state w) <=? 0); [|reflexivity].
  destruct (aliens (state w)) as [|first rest]; [reflexivity|].
  destruct (random_lt_03 (rng w)) as [[|] g1]; [|reflexivity].
  destruct (choice (first :: rest) first g1) as [shooter g2].
  cbn [emit emitted set_rng set_state]. rewrite count_request_initials_app.
  cbn [count_request_initials]. lia.
Qed.

Lemma emitted_mystery_ship_movement (w : Worker) :
  emitted (mystery_ship_movement w) = emitted w.
Proof.
  unfold mystery_ship_movement.
  destruct (mystery_ship (state w)) as [[mx my]|].
  - destruct ((mx + mystery_ship_direction (state w) * 5 <? -60)
              || (mx + mystery_ship_direction (state w) * 5 >? WORLD_W));
      [|reflexivity].
    destruct (randint 600 1000 (rng w)) as [countdown g]. reflexivity.
  - cbn [mystery_ship_cooldown set_mystery_ship_cooldown].
    destruct (mystery_ship_cooldown (state w) - 1 <=? 0); [|reflexivity].
    destruct (choice [true; false] true (rng w)) as [from_left g]. reflexivity.
Qed.

Lemma emitted_collision_detection (w : Worker) :
  emitted (collision_detection w) = emitted w.
Proof.
  unfold collision_detection.
  destruct (collision_loop (difficulty w) (aliens (state w)) [] (state w)).
  reflexivity.
Qed.

Lemma emitted_mystery_ship_collisions (w : Worker) :
  emitted (mystery_ship_collisions w) = emitted w.
Proof.
  unfold mystery_ship_collisions.
  destruct (mystery_ship (state w)) as [ship|]; [|reflexivity].
  destruct (first_hit (ship_rect ship) (bullets (state w))) as [b|]; [|reflexivity].
  rewrite calculate_mystery_ship_score_spec.
  destruct (randint 600 1000 (rng w)) as [countdown g]. reflexivity.
Qed.

Lemma emitted_level_completion (w : Worker) :
  emitted (level_completion w) = emitted w.
Proof.
  unfold level_completion. destruct (aliens (state w)); [|reflexivity].
  rewrite create_aliens_spec. reflexivity.
Qed.

Lemma emitted_before_player_hits (w : Worker) :
  count_request_initials (emitted (before_player_hits w))
  = count_request_initials (emitted w).
Proof.
  unfold before_player_hits, before_ship_collisions.
  rewrite emitted_mystery_ship_collisions, emitted_collision_detection,
    emitted_mystery_ship_movement, emitted_alien_shooting.
  reflexivity.
Qed.

Lemma tally_inv (s : State) (sc lv : Z) (go : bool) :
  tally s = (sc, lv, go) -> score s = sc /\ lives s = lv /\ game_over s = go.
Proof. unfold tally. intros Heq. injection Heq as <- <- <-. repeat split. Qed.

Lemma tally_player_movement (s : State) : tally (player_movement s) = tally s.
Proof.
  unfold player_movement.
  destruct (key_left (keys_pressed s)); cbn [keys_pressed set_player_x];
    destruct (key_right (keys_pressed s)); reflexivity.
Qed.

Lemma tally_move_bullets (s : State) : tally (move_bullets s) = tally s.
Proof. reflexivity. Qed.

Lemma tally_move_aliens_and_animate (s : State) :
  tally (move_aliens_and_animate s) = tally s.
Proof. rewrite move_aliens_and_animate_spec. reflexivity. Qed.

Lemma tally_alien_shooting (w : Worker) :
  tally (state (alien_shooting w)) = tally (state w).
Proof.
  unfold alien_shooting.
  destruct (alien_shoot_cooldown (state w) <=? 0); [|reflexivity].
  destruct (aliens (state w)) as [|first rest]; [reflexivity|].
  destruct (random_lt_03 (rng w)) as [[|] g1]; [|reflexivity].
  destruct (choice (first :: rest) first g1) as [shooter g2]. reflexivity.
Qed.

Lemma tally_mystery_ship_movement (w : Worker) :
  tally (state (mystery_ship_movement w)) = tally (state w).
Proof.
  unfold mystery_ship_movement.
  destruct (mystery_ship (state w)) as [[mx my]|].
  - destruct ((mx + mystery_ship_direction (state w) * 5 <? -60)
              || (mx + mystery_ship_direction (state w) * 5 >? WORLD_W));
      [|reflexivity].
    destruct (randint 600 1000 (rng w)) as [countdown g]. reflexivity.
  - cbn [mystery_ship_cooldown set_mystery_ship_cooldown].
    destruct (mystery_ship_cooldown (state w) - 1 <=? 0); [|reflexivity].
    destruct (choice [true; false] true (rng w)) as [from_left g]. reflexivity.
Qed.

Lemma tally_collision_loop (d : Difficulty) (formation acc : list Alien) (s : State) :
  lives (snd (collision_loop d formation acc s)) = lives s /\
  game_over (snd (collision_loop d formation acc s)) = game_over s.
Proof.
  revert acc s. induction formation as [|alien rest IH]; intros acc s;
    cbn [collision_loop].
  - split; reflexivity.
  - destruct (first_hit (alien_hitbox alien) (bullets s)) as [b|]; [|apply IH].
    destruct (IH acc (set_bullets (remove_bullet b
                                     (bullets (set_score (score s + 10 * multiplier d) s)))
                        (set_score (score s + 10 * multiplier d) s))) as [Hl Hg].
    rewrite Hl, Hg. split; reflexivity.
Qed.

Lemma tally_collision_detection (w : Worker) :
  lives (state (collision_detection w)) = lives (state w) /\
  game_over (state (collision_detection w)) = game_over (state w).
Proof.
  unfold collision_detection.
  pose proof (tally_collision_loop (difficulty w) (aliens (state w)) [] (state w)) as Hl.
  destruct (collision_loop (difficulty w) (aliens (state w)) [] (state w)) as [rem s].
  exact Hl.
Qed.

Lemma tally_mystery_ship_collisions (w : Worker) :
  tally (state (mystery_ship_collisions w)) =
    (score (state w)
     + (if ship_is_hit (state w)
        then fst (calculate_mystery_ship_score (state w)) else 0),
     lives (state w), game_over (state w)).
Proof.
  unfold mystery_ship_collisions, ship_is_hit, tally.
  destruct (mystery_ship (state w)) as [ship|]; [|now rewrite Z.add_0_r].
  destruct (first_hit (ship_rect ship) (bullets (state w))) as [b|];
    [|now rewrite Z.add_0_r].
  rewrite !calculate_mystery_ship_score_spec.
  destruct (randint 600 1000 (rng w)) as [countdown g]. reflexivity.
Qed.

Lemma tally_level_completion (w : Worker) :
  tally (state (level_completion w)) = tally (state w).
Proof.
  unfold level_completion. destruct (aliens (state w)); [|reflexivity].
  rewrite create_aliens_spec. reflexivity.
Qed.

(** The lives and the flag when the hit loop starts are those of the
    start of the tick. *)
Lemma tally_before_player_hits (w : Worker) :
  lives (state (before_player_hits w)) = lives (state w) /\
  game_over (state (before_player_hits w)) = game_over (state w).
Proof.
  unfold before_player_hits, before_ship_collisions.
  pose proof (tally_mystery_ship_collisions
                (collision_detection
                   (mystery_ship_movement
                      (alien_shooting
                         (on_state
                            (fun s => move_aliens_and_animate
                                        (move_bullets (player_movement s))) w)))))
    as Hm.
  apply tally_inv in Hm. destruct Hm as (_ & -> & ->).
  destruct (tally_collision_detection
              (mystery_ship_movement
                 (alien_shooting
                    (on_state
                       (fun s => move_aliens_and_animate
                                   (move_bullets (player_movement s))) w))))
    as [-> ->].
  pose proof (tally_mystery_ship_movement
                (alien_shooting
                   (on_state
                      (fun s => move_aliens_and_animate
                                  (move_bullets (player_movement s))) w))) as Hmm.
  apply tally_inv in Hmm. destruct Hmm as (_ & -> & ->).
  pose proof (tally_alien_shooting
                (on_state
                   (fun s => move_aliens_and_animate
                               (move_bullets (player_movement s))) w)) as Has.
  apply tally_inv in Has. destruct Has as (_ & -> & ->).
  rewrite state_on_state.
  pose proof (tally_move_aliens_and_animate (move_bullets (player_movement (state w))))
    as Ha.
  rewrite tally_move_bullets, tally_player_movement in Ha.
  apply tally_inv in Ha. destruct Ha as (_ & -> & ->).
  split; reflexivity.
Qed.

Lemma update_logic_running_landing (w : Worker) :
  game_over (state w) = false ->
  update_logic w = emit_state (aliens_reach_bottom (before_landing w)).
Proof.
  intros Hgo. unfold before_landing. apply update_logic_running. exact Hgo.
Qed.

Lemma resolve_collisions_hits (w : Worker) :
  resolve_collisions w = alien_bullets_hit_player (before_player_hits w).
Proof. unfold resolve_collisions, before_player_hits. reflexivity. Qed.

Lemma before_landing_keeps (w : Worker) :
  emitted (before_landing w) = emitted (resolve_collisions w) /\
  tally (state (before_landing w)) = tally (state (resolve_collisions w)).
Proof.
  unfold before_landing. split.
  - apply emitted_level_completion.
  - apply tally_level_completion.
Qed.

Lemma hits_of_tick (w : Worker) :
  game_over (state w) = false ->
  let p := before_player_hits w in
  let h :=
    Z.of_nat (length (filter (meets (player_rect (state p)))
                        (alien_bullets (state p)))) in
  game_over (state (resolve_collisions w)) = (0 <? h) && (lives (state p) - h <=? 0) /\
  Z.of_nat (count_request_initials (emitted (resolve_collisions w))) =
    Z.of_nat (count_request_initials (emitted w))
    + Z.max 0 (Z.min h (h - lives (state p) + 1)).
Proof.
  intros Hgo. cbv zeta. rewrite resolve_collisions_hits.
  pose proof (emitted_before_player_hits w) as Hcp.
  destruct (tally_before_player_hits w) as [_ Hgp]. rewrite Hgo in Hgp.
  revert Hcp Hgp. generalize (before_player_hits w) as p. intros p Hcp Hgp.
  unfold alien_bullets_hit_player.
  pose proof (player_hit_loop_accounting (alien_bullets (state p)) p []
                eq_refl (Forall_nil _)) as Hh.
  cbv zeta in Hh. destruct Hh as (_ & _ & _ & _ & Hg & Hc).
  rewrite Hcp in Hc. rewrite Hgp in Hg. cbn [orb] in Hg.
  split; [exact Hg | exact Hc].
Qed.

(** X3. The [request_initials] signals of one tick of a running game:
    the hit loop emits one for the hit that brings the lives to 0 or
    below and one for every later hit of that tick, and the landing
    test adds exactly one when some alien of the formation (after level
    completion) has y + 30 >= player_y, however many aliens have landed;
    nothing else in the tick emits the signal.  The tick ends with one
    snapshot signal. *)
Theorem request_initials_per_tick (w : Worker) :
  game_over (state w) = false ->
  let p := before_player_hits w in
  let h :=
    Z.of_nat (length (filter (meets (player_rect (state p)))
                        (alien_bullets (state p)))) in
  let w' := update_logic w in
  Z.of_nat (count_request_initials (emitted w')) =
    Z.of_nat (count_request_initials (emitted w))
    + Z.max 0 (Z.min h (h - lives (state p) + 1))
    + (if landed (state (before_landing w)) then 1 else 0) /\
  game_over (state w') =
    ((0 <? h) && (lives (state p) - h <=? 0)) || landed (state (before_landing w)) /\
  (exists earlier, emitted w' = earlier ++ [UpdateState (state w')]).
Proof.
  intros Hgo. cbv zeta. rewrite (update_logic_running_landing w Hgo).
  destruct (hits_of_tick w Hgo) as [Hg Hc]. cbv zeta in Hg, Hc.
  destruct (before_landing_keeps w) as [Hle Hlt].
  apply tally_inv in Hlt. destruct Hlt as (_ & _ & Hlg).
  rewrite <- Hlg in Hg. rewrite <- Hle in Hc.
  revert Hg Hc.
  generalize (Z.of_nat (length (filter (meets (player_rect (state (before_player_hits w))))
                                  (alien_bullets (state (before_player_hits w)))))) as h.
  generalize (lives (state (before_player_hits w))) as lv.
  clear Hle Hlg.
  generalize (before_landing w) as bl.
  intros bl lv h Hg Hc.
  unfold emit_state. rewrite aliens_reach_bottom_spec.
  destruct (landed (state bl)).
  - cbn [emit emitted state on_state set_state]. state_fields.
    rewrite !count_request_initials_app. cbn [count_request_initials].
    split; [lia|]. split; [rewrite orb_true_r; reflexivity|].
    eexists. reflexivity.
  - cbn [emit emitted state]. rewrite count_request_initials_app.
    cbn [count_request_initials]. split; [lia|].
    split; [rewrite orb_false_r; exact Hg|]. eexists. reflexivity.
Qed.

Lemma request_initials_per_tick_witness :
  Z.of_nat (count_request_initials (emitted (update_logic two_bullets_last_life))) = 2.
Proof.
  destruct (request_initials_per_tick two_bullets_last_life) as (Hc & _).
  - reflexivity.
  - rewrite Hc. vm_compute. reflexivity.
Defined.

(** ** A fresh formation *)

Lemma fresh_alien_place (g : Rng) (k : nat) :
  (k < 55)%nat ->
  50 <= alien_x (fresh_alien g k) <= 550 /\
  50 <= alien_y (fresh_alien g k) <= 210.
Proof.
  intros Hk. unfold fresh_alien. cbn [alien_x alien_y].
  assert (Hm : (k mod 11 < 11)%nat) by (apply Nat.mod_upper_bound; lia).
  assert (Hd : (k / 11 <= 4)%nat).
  { assert (k / 11 < 5)%nat; [|lia]. apply Nat.Div0.div_lt_upper_bound. lia. }
  lia.
Qed.

Lemma formation_cleared_empty (w : Worker) :
  formation_cleared w = true -> aliens (state (resolve_collisions w)) = [].
Proof.
  unfold formation_cleared. generalize (resolve_collisions w). intros rc.
  destruct (aliens (state rc)); [reflexivity|discriminate].
Qed.

Lemma before_landing_fresh (w : Worker) :
  formation_cleared w = true ->
  aliens (state (before_landing w))
  = map (fresh_alien (rng (resolve_collisions w))) (seq 0 55).
Proof.
  intros Hclear. apply formation_cleared_empty in Hclear.
  unfold before_landing. revert Hclear. generalize (resolve_collisions w).
  intros rc Hempty. apply level_completion_empty. exact Hempty.
Qed.

Lemma player_y_before_landing (w : Worker) :
  player_y (state (before_landing w)) = player_y (state w).
Proof.
  unfold before_landing.
  pose proof (fields_level_completion (resolve_collisions w)) as Hf.
  pose proof (fields_resolve_collisions w) as Hr.
  revert Hf Hr. generalize (level_completion (resolve_collisions w)) as bl.
  generalize (resolve_collisions w) as rc. intros rc bl Hf Hr.
  apply session_fields_inv in Hr. destruct Hr as (_ & Hr & _).
  destruct (aliens (state rc)); apply session_fields_inv in Hf;
    destruct Hf as (_ & Hf & _); congruence.
Qed.

Lemma aliens_update_logic_landing (w : Worker) :
  game_over (state w) = false ->
  aliens (state (update_logic w)) = aliens (state (before_landing w)).
Proof. intros Hgo. unfold before_landing. apply aliens_update_logic. exact Hgo. Qed.

Lemma landing_outcome (bl : Worker) :
  landed (state bl) = false ->
  game_over (state (emit_state (aliens_reach_bottom bl))) = game_over (state bl) /\
  count_request_initials (emitted (emit_state (aliens_reach_bottom bl)))
  = count_request_initials (emitted bl).
Proof.
  intros Hland. unfold emit_state. rewrite aliens_reach_bottom_spec, Hland.
  cbn [state emit emitted]. rewrite count_request_initials_app.
  cbn [count_request_initials]. split; [reflexivity | lia].
Qed.

(** X4. A tick that clears the formation cannot end the game by
    landing: the fresh aliens stand at 50 <= x <= 550 and
    50 <= y <= 210, above a player whose y is more than 240 (it is 710
    throughout a session), so the landing test of that tick finds
    nothing and emits nothing. *)
Theorem fresh_formation_does_not_land (w : Worker) :
  game_over (state w) = false ->
  formation_cleared w = true ->
  240 < player_y (state w) ->
  Forall (fun a => 50 <= alien_x a <= 550 /\ 50 <= alien_y a <= 210)
    (aliens (state (update_logic w))) /\
  landed (state (before_landing w)) = false /\
  game_over (state (update_logic w)) = game_over (state (resolve_collisions w)) /\
  count_request_initials (emitted (update_logic w)) =
    count_request_initials (emitted (resolve_collisions w)).
Proof.
  intros Hgo Hclear Hy.
  pose proof (aliens_update_logic_landing w Hgo) as Ha.
  pose proof (before_landing_fresh w Hclear) as Hbl.
  pose proof (player_y_before_landing w) as Hpy.
  destruct (before_landing_keeps w) as [Hle Hlt].
  apply tally_inv in Hlt. destruct Hlt as (_ & _ & Hlg).
  rewrite (update_logic_running_landing w Hgo) in *.
  revert Ha Hbl Hpy Hle Hlg.
  generalize (before_landing w) as bl. generalize (resolve_collisions w) as rc.
  intros rc bl Ha Hbl Hpy Hle Hlg.
  assert (Hplace : Forall (fun a => 50 <= alien_x a <= 550 /\ 50 <= alien_y a <= 210)
                     (aliens (state bl))).
  { rewrite Hbl. apply Forall_forall. intros a Hin. apply in_map_iff in Hin.
    destruct Hin as (k & <- & Hk). apply in_seq in Hk.
    apply fresh_alien_place. lia. }
  assert (Hland : landed (state bl) = false).
  { unfold landed. rewrite Hpy.
    apply not_true_is_false. intros Hex. apply existsb_exists in Hex.
    destruct Hex as (a & Hin & Hge).
    rewrite Forall_forall in Hplace. specialize (Hplace a Hin). lia. }
  destruct (landing_outcome bl Hland) as [Hg Hc].
  split; [rewrite Ha; exact Hplace|]. split; [exact Hland|].
  split; [congruence | congruence].
Qed.

Lemma fresh_formation_does_not_land_witness :
  landed (state (before_landing last_alien_shot)) = false /\
  count_request_initials (emitted (update_logic last_alien_shot)) =
    count_request_initials (emitted (resolve_collisions last_alien_shot)).
Proof.
  destruct (fresh_formation_does_not_land last_alien_shot) as (_ & Hl & _ & Hc).
  - reflexivity.
  - vm_compute. reflexivity.
  - vm_compute. reflexivity.
  - split; [exact Hl | exact Hc].
Defined.

(** ** Alien shooting *)

Lemma choice_In {A : Type} (l : list A) (dflt : A) (g : Rng) :
  l <> [] -> In (fst (choice l dflt g)) l.
Proof.
  intros Hne. unfold choice.
  assert (Hlen : 0 < Z.of_nat (length l)).
  { destruct l; [contradiction|]. cbn [length]. lia. }
  pose proof (randbelow_range (Z.of_nat (length l)) g Hlen) as Hr.
  destruct (randbelow (Z.of_nat (length l)) g) as [i g']. cbn [fst] in *.
  apply nth_In. lia.
Qed.

(** X5. The alien-shooting phase does one of three things.  While the
    cooldown is positive it only counts it down by one.  With the
    cooldown run out it either does nothing at all (always so when the
    formation is empty), or it appends exactly one alien bullet, at
    (x + 18, y + 30) of an alien of the formation, sets the cooldown to
    the difficulty's value (15, 7 or 3) and emits the alien-fire
    signal.  So a tick adds at most one alien bullet. *)
Theorem alien_shooting_cases (w : Worker) :
  let s := state w in
  let w' := alien_shooting w in
  (0 < alien_shoot_cooldown s /\
   state w' = set_alien_shoot_cooldown (alien_shoot_cooldown s - 1) s /\
   emitted w' = emitted w /\ rng w' = rng w)
  \/
  (alien_shoot_cooldown s <= 0 /\ state w' = s /\ emitted w' = emitted w)
  \/
  (alien_shoot_cooldown s <= 0 /\
   exists shooter,
     In shooter (aliens s) /\
     state w' =
       set_alien_shoot_cooldown (cooldowns (difficulty w))
         (set_alien_bullets
            (alien_bullets s ++ [(alien_x shooter + 18, alien_y shooter + 30)]) s) /\
     0 < alien_shoot_cooldown (state w') /\
     emitted w' = emitted w ++ [UpdateAlienFire]).
Proof.
  cbv zeta. unfold alien_shooting.
  destruct (Z.leb_spec (alien_shoot_cooldown (state w)) 0) as [Hcd|Hcd].
  - destruct (aliens (state w)) as [|first rest] eqn:Ha.
    + right. left. repeat split. exact Hcd.
    + destruct (random_lt_03 (rng w)) as [[|] g1].
      * right. right. split; [exact Hcd|].
        pose proof (choice_In (first :: rest) first g1 ltac:(discriminate)) as Hin.
        destruct (choice (first :: rest) first g1) as [shooter g2].
        cbn [fst] in Hin. exists shooter. split; [exact Hin|].
        cbn [state emit set_rng set_state emitted]. state_fields.
        repeat split. destruct (difficulty w); reflexivity.
      * right. left. repeat split. exact Hcd.
  - left. split; [exact Hcd|]. repeat split.
Qed.

(** After a shot no alien fires for as many ticks as the cooldown
    says: each of the next [n <= cooldown] shooting phases only counts
    down. *)
Lemma alien_shooting_cooling (n : nat) (w : Worker) :
  Z.of_nat n <= alien_shoot_cooldown (state w) ->
  state (Nat.iter n alien_shooting w) =
    set_alien_shoot_cooldown (alien_shoot_cooldown (state w) - Z.of_nat n) (state w) /\
  emitted (Nat.iter n alien_shooting w) = emitted w.
Proof.
  induction n as [|n IH]; intros Hn.
  - cbn [Nat.iter nat_rect Z.of_nat]. rewrite Z.sub_0_r. split; [|reflexivity].
    apply State_ext; reflexivity.
  - rewrite !Nat.iter_succ. destruct IH as [Hs He]; [lia|].
    revert Hs He. generalize (Nat.iter n alien_shooting w). intros v Hs He.
    unfold alien_shooting. cbv zeta. rewrite Hs. state_fields.
    destruct (Z.leb_spec (alien_shoot_cooldown (state w) - Z.of_nat n) 0) as [Hle|Hgt];
      [lia|].
    cbn [state on_state set_state emitted]. rewrite Hs. state_fields.
    split; [|exact He].
    apply State_ext; state_fields; try reflexivity. lia.
Qed.

(** ** The mystery ship across a tick *)

Lemma ship_player_movement (s : State) :
  mystery_ship (player_movement s) = mystery_ship s /\
  mystery_ship_direction (player_movement s) = mystery_ship_direction s /\
  mystery_ship_cooldown (player_movement s) = mystery_ship_cooldown s.
Proof.
  unfold player_movement.
  destruct (key_left (keys_pressed s)); cbn [keys_pressed set_player_x];
    destruct (key_right (keys_pressed s)); repeat split.
Qed.

Lemma ship_before_shooting (s : State) :
  mystery_ship (move_aliens_and_animate (move_bullets (player_movement s)))
  = mystery_ship s /\
  mystery_ship_direction (move_aliens_and_animate (move_bullets (player_movement s)))
  = mystery_ship_direction s /\
  mystery_ship_cooldown (move_aliens_and_animate (move_bullets (player_movement s)))
  = mystery_ship_cooldown s.
Proof.
  rewrite move_aliens_and_animate_spec. cbv zeta. state_fields.
  change (mystery_ship (move_bullets ?t)) with (mystery_ship t).
  change (mystery_ship_direction (move_bullets ?t)) with (mystery_ship_direction t).
  change (mystery_ship_cooldown (move_bullets ?t)) with (mystery_ship_cooldown t).
  apply ship_player_movement.
Qed.

Lemma ship_alien_shooting (w : Worker) :
  mystery_ship (state (alien_shooting w)) = mystery_ship (state w) /\
  mystery_ship_direction (state (alien_shooting w)) = mystery_ship_direction (state w) /\
  mystery_ship_cooldown (state (alien_shooting w)) = mystery_ship_cooldown (state w).
Proof.
  unfold alien_shooting.
  destruct (alien_shoot_cooldown (state w) <=? 0); [|repeat split].
  destruct (aliens (state w)) as [|first rest]; [repeat split|].
  destruct (random_lt_03 (rng w)) as [[|] g1]; [|repeat split].
  destruct (choice (first :: rest) first g1) as [shooter g2]. repeat split.
Qed.

Lemma ship_collision_detection (w : Worker) :
  mystery_ship (state (collision_detection w)) = mystery_ship (state w).
Proof.
  unfold collision_detection.
  assert (Hloop : forall f acc s,
             mystery_ship (snd (collision_loop (difficulty w) f acc s)) = mystery_ship s).
  { induction f as [|a f IHf]; intros acc s; cbn [collision_loop].
    - reflexivity.
    - destruct (first_hit (alien_hitbox a) (bullets s)); rewrite IHf; reflexivity. }
  pose proof (Hloop (aliens (state w)) [] (state w)) as Hw.
  destruct (collision_loop (difficulty w) (aliens (state w)) [] (state w)).
  exact Hw.
Qed.

Lemma ship_mystery_ship_collisions (w : Worker) :
  mystery_ship (state (mystery_ship_collisions w)) =
    if ship_is_hit (state w) then None else mystery_ship (state w).
Proof.
  unfold mystery_ship_collisions, ship_is_hit.
  destruct (mystery_ship (state w)) as [ship|] eqn:Hm; [|exact Hm].
  destruct (first_hit (ship_rect ship) (bullets (state w))) as [b|]; [|exact Hm].
  rewrite calculate_mystery_ship_score_spec.
  destruct (randint 600 1000 (rng w)) as [countdown g]. reflexivity.
Qed.

Lemma ship_player_hit_loop (copy : list Bullet) (w : Worker) :
  mystery_ship (state (player_hit_loop copy w)) = mystery_ship (state w).
Proof.
  revert w. induction copy as [|b rest IH]; intros w; cbn [player_hit_loop].
  - reflexivity.
  - destruct (intersects (bullet_rect b) (player_rect (state w))); [|apply IH].
    rewrite IH.
    match goal with |- context [if ?c then _ else _] => destruct c end; reflexivity.
Qed.

Lemma ship_level_completion (w : Worker) :
  mystery_ship (state (level_completion w)) = mystery_ship (state w).
Proof.
  unfold level_completion. destruct (aliens (state w)); [|reflexivity].
  rewrite create_aliens_spec. reflexivity.
Qed.

Lemma ship_after_landing_test (bl : Worker) :
  mystery_ship (state (emit_state (aliens_reach_bottom bl))) = mystery_ship (state bl).
Proof.
  unfold emit_state. rewrite aliens_reach_bottom_spec.
  destruct (landed (state bl)); reflexivity.
Qed.

(** The ship after the movement phase of the mystery ship. *)
Lemma mystery_ship_movement_cases (w : Worker) :
  let s := state w in
  let s' := state (mystery_ship_movement w) in
  (mystery_ship s = None /\ 0 < mystery_ship_cooldown s - 1 /\
   mystery_ship s' = None /\
   mystery_ship_cooldown s' = mystery_ship_cooldown s - 1)
  \/
  (mystery_ship s = None /\ mystery_ship_cooldown s - 1 <= 0 /\
   mystery_ship_cooldown s' = mystery_ship_cooldown s - 1 /\
   ((mystery_ship s' = Some (0, 50) /\ mystery_ship_direction s' = 1)
    \/ (mystery_ship s' = Some (WORLD_W - 60, 50) /\ mystery_ship_direction s' = -1)))
  \/
  (exists mx my,
     mystery_ship s = Some (mx, my) /\
     let mx' := mx + mystery_ship_direction s * 5 in
     mystery_ship_direction s' = mystery_ship_direction s /\
     ((-60 <= mx' <= WORLD_W /\ mystery_ship s' = Some (mx', my) /\
       mystery_ship_cooldown s' = mystery_ship_cooldown s)
      \/ ((mx' < -60 \/ WORLD_W < mx') /\ mystery_ship s' = None /\
          600 <= mystery_ship_cooldown s' <= 1000))).
Proof.
  cbv zeta. unfold mystery_ship_movement.
  destruct (mystery_ship (state w)) as [[mx my]|] eqn:Hm.
  - right. right. exists mx, my. split; [reflexivity|].
    destruct (Z.ltb_spec (mx + mystery_ship_direction (state w) * 5) (-60)) as [Hlo|Hlo];
      [|destruct (Z.gtb_spec (mx + mystery_ship_direction (state w) * 5) WORLD_W)
          as [Hhi|Hhi]]; cbn [orb].
    + pose proof (randint_range 600 1000 (rng w) ltac:(lia)) as Hr.
      destruct (randint 600 1000 (rng w)) as [countdown g]. cbn [fst] in Hr.
      cbn [state set_rng set_state]. state_fields.
      split; [reflexivity|]. right. split; [left; exact Hlo|]. split; [reflexivity|exact Hr].
    + pose proof (randint_range 600 1000 (rng w) ltac:(lia)) as Hr.
      destruct (randint 600 1000 (rng w)) as [countdown g]. cbn [fst] in Hr.
      cbn [state set_rng set_state]. state_fields.
      split; [reflexivity|]. right. split; [right; lia|]. split; [reflexivity|exact Hr].
    + cbn [state set_state]. state_fields.
      split; [reflexivity|]. left. split; [lia|]. split; reflexivity.
  - state_fields.
    destruct (Z.leb_spec (mystery_ship_cooldown (state w) - 1) 0) as [Hcd|Hcd].
    + right. left. split; [reflexivity|]. split; [exact Hcd|].
      unfold choice, randbelow. cbn [length Z.of_nat Pos.of_succ_nat Pos.succ].
      pose proof (Z.mod_pos_bound (tape (rng w) (cursor (rng w))) 2 ltac:(lia)) as Hb.
      assert (Hcase : tape (rng w) (cursor (rng w)) mod 2 = 0
                      \/ tape (rng w) (cursor (rng w)) mod 2 = 1) by lia.
      destruct Hcase as [-> | ->]; cbn [Z.to_nat Pos.to_nat Pos.iter_op nth Nat.add];
        cbn [state set_rng set_state]; state_fields;
        (split; [reflexivity|]); [left|right]; split; reflexivity.
    + left. split; [reflexivity|]. split; [exact Hcd|].
      cbn [state set_state]. state_fields. split; [exact Hm | reflexivity].
Qed.

Lemma ship_direction_after_movement (w : Worker) :
  game_over (state w) = false ->
  mystery_ship_direction (state (update_logic w))
  = mystery_ship_direction
      (state (mystery_ship_movement
                (alien_shooting
                   (on_state
                      (fun s => move_aliens_and_animate (move_bullets (player_movement s)))
                      w)))).
Proof.
  intros Hgo. rewrite (update_logic_running_landing w Hgo).
  unfold before_landing, resolve_collisions, before_ship_collisions.
  generalize (mystery_ship_movement
                (alien_shooting
                   (on_state
                      (fun s => move_aliens_and_animate (move_bullets (player_movement s)))
                      w))).
  intros m.
  assert (Hcd : mystery_ship_direction (state (collision_detection m))
                = mystery_ship_direction (state m)).
  { unfold collision_detection.
    assert (Hloop : forall f acc s,
               mystery_ship_direction (snd (collision_loop (difficulty m) f acc s))
               = mystery_ship_direction s).
    { induction f as [|a f IHf]; intros acc s; cbn [collision_loop].
      - reflexivity.
      - destruct (first_hit (alien_hitbox a) (bullets s)); rewrite IHf; reflexivity. }
    pose proof (Hloop (aliens (state m)) [] (state m)) as Hm.
    destruct (collision_loop (difficulty m) (aliens (state m)) [] (state m)).
    exact Hm. }
  revert Hcd. generalize (collision_detection m). intros c Hcd.
  assert (Hsc : mystery_ship_direction (state (mystery_ship_collisions c))
                = mystery_ship_direction (state c)).
  { unfold mystery_ship_collisions.
    destruct (mystery_ship (state c)) as [ship|]; [|reflexivity].
    destruct (first_hit (ship_rect ship) (bullets (state c))) as [b|]; [|reflexivity].
    rewrite calculate_mystery_ship_score_spec.
    destruct (randint 600 1000 (rng c)) as [countdown g]. reflexivity. }
  revert Hsc. generalize (mystery_ship_collisions c). intros p Hsc.
  assert (Hh : forall copy v,
             mystery_ship_direction (state (player_hit_loop copy v))
             = mystery_ship_direction (state v)).
  { induction copy as [|b rest IH]; intros v; cbn [player_hit_loop].
    - reflexivity.
    - destruct (intersects (bullet_rect b) (player_rect (state v))); [|apply IH].
      rewrite IH.
      match goal with |- context [if ?c then _ else _] => destruct c end; reflexivity. }
  unfold alien_bullets_hit_player.
  pose proof (Hh (alien_bullets (state p)) p) as Hp.
  revert Hp. generalize (player_hit_loop (alien_bullets (state p)) p). intros rc Hp.
  assert (Hl : mystery_ship_direction (state (level_completion rc))
               = mystery_ship_direction (state rc)).
  { unfold level_completion. destruct (aliens (state rc)); [|reflexivity].
    rewrite create_aliens_spec. reflexivity. }
  revert Hl. generalize (level_completion rc). intros bl Hl.
  unfold emit_state. rewrite aliens_reach_bottom_spec.
  destruct (landed (state bl)); cbn [state emit on_state set_state]; state_fields;
    congruence.
Qed.

Lemma ship_after_tick (w : Worker) :
  game_over (state w) = false ->
  mystery_ship (state (update_logic w)) =
    if ship_is_hit (state (before_ship_collisions w)) then None
    else mystery_ship
           (state (mystery_ship_movement
                     (alien_shooting
                        (on_state
                           (fun s => move_aliens_and_animate
                                       (move_bullets (player_movement s)))
                           w)))).
Proof.
  intros Hgo. rewrite (update_logic_running_landing w Hgo).
  rewrite ship_after_landing_test.
  unfold before_landing. rewrite ship_level_completion.
  unfold resolve_collisions, alien_bullets_hit_player.
  rewrite ship_player_hit_loop, ship_mystery_ship_collisions.
  unfold before_ship_collisions at 2. rewrite ship_collision_detection.
  reflexivity.
Qed.

(** X6. A mystery ship that is present at the end of a tick of a
    running game is within -60 <= x <= WORLD_W.  Either it was spawned
    in that tick -- then it was absent with its countdown at 1 or less,
    and it stands at y = 50 on the left edge (x = 0) moving right or on
    the right edge (x = WORLD_W - 60) moving left --, or it was there
    before and has moved by 5 in its direction, its y and direction
    unchanged. *)
Theorem mystery_ship_after_tick (w : Worker) (x y : Z) :
  game_over (state w) = false ->
  mystery_ship (state (update_logic w)) = Some (x, y) ->
  -60 <= x <= WORLD_W /\
  ((mystery_ship (state w) = None /\
    mystery_ship_cooldown (state w) <= 1 /\ y = 50 /\
    ((x = 0 /\ mystery_ship_direction (state (update_logic w)) = 1)
     \/ (x = WORLD_W - 60 /\ mystery_ship_direction (state (update_logic w)) = -1)))
   \/
   (exists mx,
      mystery_ship (state w) = Some (mx, y) /\
      x = mx + mystery_ship_direction (state w) * 5 /\
      mystery_ship_direction (state (update_logic w))
      = mystery_ship_direction (state w))).
Proof.
  intros Hgo Hship.
  rewrite (ship_after_tick w Hgo) in Hship.
  rewrite (ship_direction_after_movement w Hgo).
  destruct (ship_is_hit (state (before_ship_collisions w))); [discriminate|].
  clear Hgo.
  destruct (ship_alien_shooting
              (on_state
                 (fun s => move_aliens_and_animate (move_bullets (player_movement s))) w))
    as (Hs1 & Hd1 & Hc1).
  rewrite state_on_state in Hs1, Hd1, Hc1.
  destruct (ship_before_shooting (state w)) as (Hs0 & Hd0 & Hc0).
  rewrite Hs0 in Hs1. rewrite Hd0 in Hd1. rewrite Hc0 in Hc1. clear Hs0 Hd0 Hc0.
  revert Hship Hs1 Hd1 Hc1.
  generalize (alien_shooting
                (on_state
                   (fun s => move_aliens_and_animate (move_bullets (player_movement s)))
                   w)).
  intros v Hship Hs1 Hd1 Hc1.
  destruct (mystery_ship_movement_cases v)
    as [(_ & _ & Hnone & _)
       |[(Hn & Hcd & _ & Hspawn)
        |(mx & my & Hsome & Hd & Hmove)]]; cbv zeta in *.
  - congruence.
  - rewrite Hs1 in Hn. rewrite Hc1 in Hcd.
    unfold WORLD_W in *.
    destruct Hspawn as [[Hp Hdir]|[Hp Hdir]]; rewrite Hp in Hship;
      injection Hship as <- <-; (split; [lia|]); left;
      (split; [exact Hn|]); (split; [lia|]); (split; [reflexivity|]);
      [left|right]; split; (reflexivity || exact Hdir).
  - rewrite Hs1 in Hsome. rewrite Hd1 in Hd, Hmove.
    destruct Hmove as [(Hin & Hp & _)|(_ & Hp & _)]; [|congruence].
    rewrite Hp in Hship. injection Hship as <- <-.
    split; [exact Hin|]. right. exists mx. split; [exact Hsome|].
    split; [reflexivity | exact Hd].
Qed.

Lemma mystery_ship_after_tick_witness :
  mystery_ship (state (update_logic ship_about_to_spawn)) = Some (0, 50) /\
  -60 <= 0 <= WORLD_W.
Proof.
  assert (Hs : mystery_ship (state (update_logic ship_about_to_spawn)) = Some (0, 50))
    by (vm_compute; reflexivity).
  destruct (mystery_ship_after_tick ship_about_to_spawn 0 50) as (Hin & _).
  - reflexivity.
  - exact Hs.
  - split; [exact Hs | exact Hin].
Defined.

(** ** The mystery-ship award *)

(** X7. The points for a mystery ship are a multiple of 50 between 50
    and 300.  They depend only on [shots_fired] modulo 15: with
    r = (shots_fired + 23) mod 15 the award is 50 * (r + 1) for r <= 4
    and 300 for the ten other values of r. *)
Theorem mystery_ship_award (s : State) :
  let a := fst (calculate_mystery_ship_score s) in
  let r := (shots_fired s + 23) mod 15 in
  50 <= a <= 300 /\
  a mod 50 = 0 /\
  a = (if r <=? 4 then 50 * (r + 1) else 300) /\
  fst (calculate_mystery_ship_score (set_shots_fired (shots_fired s + 15) s)) = a.
Proof.
  cbv zeta. rewrite !calculate_mystery_ship_score_spec. cbn [fst]. state_fields.
  replace (shots_fired s + 15 + 1 + 22) with (shots_fired s + 23 + 1 * 15) by lia.
  rewrite Z.mod_add by lia.
  replace (shots_fired s + 1 + 22) with (shots_fired s + 23) by lia.
  pose proof (Z.mod_pos_bound (shots_fired s + 23) 15 ltac:(lia)) as Hr.
  generalize dependent ((shots_fired s + 23) mod 15). intros r Hr.
  assert (Hcases : r = 0 \/ r = 1 \/ r = 2 \/ r = 3 \/ r = 4 \/ r = 5 \/ r = 6 \/ r = 7
                   \/ r = 8 \/ r = 9 \/ r = 10 \/ r = 11 \/ r = 12 \/ r = 13 \/ r = 14)
    by lia.
  repeat (destruct Hcases as [-> | Hcases]); [..|subst r]; vm_compute;
    repeat split; discriminate.
Qed.

(** ** Invariants of a session *)

Lemma ticking_running (w : Worker) :
  ticking w = true -> game_over (state w) = false.
Proof.
  unfold ticking. destruct (game_over (state w)); [|reflexivity].
  rewrite andb_false_r. discriminate.
Qed.

Lemma fields_ok_handle (ev : Event) (g : Widget) :
  fields_ok (session_fields (state (worker g))) ->
  fields_ok (session_fields (state (worker (handle ev g)))).
Proof.
  intros Hok. destruct ev as [k|k|]; cbn [handle].
  - rewrite fields_keyPressEvent. destruct (key_resets k g); [|exact Hok].
    cbn. repeat split; lia.
  - rewrite fields_keyReleaseEvent. exact Hok.
  - rewrite fields_tick. destruct (ticking (worker g)) eqn:Ht; [|exact Hok].
    rewrite (fields_update_logic_running _ (ticking_running _ Ht)).
    unfold session_fields in Hok. cbn [fields_ok] in *.
    destruct Hok as (Hy & Hd & Hs & Hl & Hc & Hf).
    unfold ANIM_SPEED.
    split; [exact Hy|]. split.
    { destruct (edge_hit_of (state (worker g))); destruct Hd as [-> | ->]; lia. }
    split; [destruct (formation_cleared (worker g)); lia|].
    split; [destruct (formation_cleared (worker g)); lia|].
    split.
    { destruct (Z.geb_spec (alien_anim_counter (state (worker g)) + 1) 5); lia. }
    destruct (ship_is_hit (state (before_ship_collisions (worker g)))); lia.
Qed.

Lemma fields_ok_run_events (evs : list Event) (g : Widget) :
  fields_ok (session_fields (state (worker g))) ->
  fields_ok (session_fields (state (worker (run_events evs g)))).
Proof.
  unfold run_events. revert g.
  induction evs as [|ev rest IH]; intros g Hok; cbn [fold_left].
  - exact Hok.
  - apply IH. apply fields_ok_handle. exact Hok.
Qed.

(** X8. From [start_game] on, after any events: the player's y is 710,
    the formation direction is +1 or -1, the formation speed is
    8 + 2 * level with level >= 1, the shared animation counter is in
    0..4, and [shots_fired] is not negative. *)
Theorem session_invariants (g : Widget) (d : Difficulty) (evs : list Event) :
  let s :=
    state (worker (run_events evs (set_worker (start_game d (worker g)) g))) in
  player_y s = 710 /\
  (alien_direction s = 1 \/ alien_direction s = -1) /\
  alien_speed s = 8 + 2 * level s /\
  1 <= level s /\
  0 <= alien_anim_counter s <= 4 /\
  0 <= shots_fired s.
Proof.
  cbv zeta.
  assert (Hstart : fields_ok (session_fields
                     (state (worker (set_worker (start_game d (worker g)) g))))).
  { cbn [worker set_worker]. rewrite fields_start_game.
    cbn. repeat split; lia. }
  pose proof (fields_ok_run_events evs _ Hstart) as Hok.
  revert Hok.
  generalize (run_events evs (set_worker (start_game d (worker g)) g)).
  intros g' Hok. exact Hok.
Qed.

(** ** After the end of the game *)

Lemma frozen_fire (g : Widget) : frozen (worker (fire g)) = frozen (worker g).
Proof.
  unfold fire. destruct (gui_state g) as [snap|]; [|reflexivity].
  destruct (space_pressed g); [reflexivity|].
  destruct (shares_bullets g); reflexivity.
Qed.

Lemma frozen_debug_spawn (g : Widget) :
  frozen (worker (debug_spawn g)) = frozen (worker g).
Proof.
  unfold debug_spawn. destruct (mystery_ship (state (worker g))); [reflexivity|].
  destruct (choice [true; false] true (rng (worker g))) as [from_left r].
  reflexivity.
Qed.

Lemma frozen_update_key_state (g : Widget) :
  frozen (worker (update_key_state g)) = frozen (worker g).
Proof. reflexivity. Qed.

Lemma frozen_keyPressEvent (k : Key) (g : Widget) :
  key_resets k g = false ->
  frozen (worker (keyPressEvent k g)) = frozen (worker g).
Proof.
  unfold keyPressEvent, key_resets.
  destruct k; cbn [difficulty_of_key is_difficulty_key is_restart_key orb andb];
    rewrite ?andb_false_r, ?andb_true_r; intros Hno; try discriminate.
  - widget_fields. destruct (selecting_difficulty g); reflexivity.
  - widget_fields. destruct (selecting_difficulty g); reflexivity.
  - rewrite selecting_fire. destruct (selecting_difficulty g);
      rewrite ?frozen_update_key_state; apply frozen_fire.
  - destruct (selecting_difficulty g); reflexivity.
  - widget_fields. destruct (selecting_difficulty g); reflexivity.
  - widget_fields. destruct (selecting_difficulty g); reflexivity.
  - widget_fields. destruct (selecting_difficulty g); reflexivity.
  - rewrite selecting_debug_spawn. rewrite Hno.
    rewrite frozen_update_key_state. apply frozen_debug_spawn.
  - rewrite Hno. reflexivity.
  - rewrite Hno. reflexivity.
  - destruct (selecting_difficulty g); reflexivity.
Qed.

Lemma frozen_keyReleaseEvent (k : Key) (g : Widget) :
  frozen (worker (keyReleaseEvent k g)) = frozen (worker g).
Proof. destruct k; reflexivity. Qed.

Lemma tick_after_game_over (g : Widget) :
  game_over (state (worker g)) = true -> worker (tick g) = worker g.
Proof.
  intros Hgo. unfold tick, run_iteration.
  destruct (running (worker g)); [|reflexivity].
  rewrite (update_logic_game_over _ Hgo), Hgo, orb_true_r.
  destruct (paused (state (worker g))); reflexivity.
Qed.

Lemma game_over_handle (ev : Event) (g : Widget) :
  event_resets ev g = false ->
  game_over (state (worker g)) = true ->
  frozen (worker (handle ev g)) = frozen (worker g) /\
  session_fields (state (worker (handle ev g))) = session_fields (state (worker g)).
Proof.
  intros Hno Hgo. destruct ev as [k|k|]; cbn [handle event_resets] in *.
  - split; [apply frozen_keyPressEvent; exact Hno|].
    rewrite fields_keyPressEvent, Hno. reflexivity.
  - split; [apply frozen_keyReleaseEvent | apply fields_keyReleaseEvent].
  - rewrite (tick_after_game_over g Hgo). split; reflexivity.
Qed.

(** X9. Game over is terminal within a session.  Once [game_over] is
    set, no run of ticks and key presses that does not go through
    [reset_state] clears it; the ticks do nothing, so the formation,
    the alien bullets, the player's x, the level, the speed and
    [shots_fired] stay as they are and no further signal is emitted,
    whatever the debug keys add to the lives or the score. *)
Theorem game_over_is_terminal (g : Widget) (evs : list Event) :
  within_session evs g = true ->
  game_over (state (worker g)) = true ->
  let w := worker g in
  let w' := worker (run_events evs g) in
  game_over (state w') = true /\
  emitted w' = emitted w /\
  aliens (state w') = aliens (state w) /\
  alien_bullets (state w') = alien_bullets (state w) /\
  session_fields (state w') = session_fields (state w).
Proof.
  cbv zeta. unfold run_events. revert g.
  induction evs as [|ev rest IH]; intros g Hs Hgo; cbn [fold_left within_session] in *.
  - repeat split. exact Hgo.
  - apply andb_true_iff in Hs. destruct Hs as [Hno Hrest].
    apply negb_true_iff in Hno.
    destruct (game_over_handle ev g Hno Hgo) as [Hfr Hfi].
    revert Hrest Hfr Hfi IH. generalize (handle ev g). intros g1 Hrest Hfr Hfi IH.
    unfold frozen in Hfr. injection Hfr as Hg1 Ha1 Hb1 He1.
    rewrite Hgo in Hg1.
    destruct (IH g1 Hrest Hg1) as (Hg & He & Ha & Hb & Hf).
    split; [exact Hg|]. repeat split; congruence.
Qed.

Lemma game_over_is_terminal_witness :
  game_over (state (worker (run_events after_the_end finished_game))) = true /\
  emitted (worker (run_events after_the_end finished_game))
  = emitted (worker finished_game).
Proof.
  destruct (game_over_is_terminal finished_game after_the_end) as (Hg & He & _).
  - vm_compute. reflexivity.
  - vm_compute. reflexivity.
  - split; [exact Hg | exact He].
Defined.

(** ** Qualifying for the table *)

Lemma insert_desc_front (h : HighScores.Entry) (l : list HighScores.Entry) :
  (forall x, hd_error l = Some x -> HighScores.score h >= HighScores.score x) ->
  HighScores.insert_desc h l = h :: l.
Proof.
  destruct l as [|x l]; intros Hhd; cbn [HighScores.insert_desc].
  - reflexivity.
  - specialize (Hhd x eq_refl).
    destruct (Z.geb_spec (HighScores.score h) (HighScores.score x)); [reflexivity|lia].
Qed.

Lemma sorted_split (sc : Z) (t : list HighScores.Entry) :
  score_descending t -> t = at_least sc t ++ below sc t.
Proof.
  unfold score_descending, at_least, below.
  intros Hs. induction Hs as [|h t Ht IH Hh]; cbn [filter app].
  - reflexivity.
  - destruct (Z.geb_spec (HighScores.score h) sc) as [Hge|Hlt];
      destruct (Z.ltb_spec (HighScores.score h) sc) as [Hlt'|Hge']; try lia.
    + cbn [app]. f_equal. exact IH.
    + assert (Hnone : filter (fun x => HighScores.score x >=? sc) t = []).
      { clear IH Ht. induction Hh as [|x t Hx Hh IHh]; cbn [filter]; [reflexivity|].
        destruct (Z.geb_spec (HighScores.score x) sc); [lia|exact IHh]. }
      rewrite Hnone in *. cbn [app] in *. f_equal. exact IH.
Qed.

(** Sorting a sorted table with one entry appended puts the entry
    after the entries that score at least as much and before those
    that score less. *)
Lemma sort_desc_append (e : HighScores.Entry) (t : list HighScores.Entry) :
  score_descending t ->
  HighScores.sort_desc (t ++ [e])
  = at_least (HighScores.score e) t ++ e :: below (HighScores.score e) t.
Proof.
  unfold score_descending, at_least, below.
  intros Hs. induction Hs as [|h t Ht IH Hh]; cbn [app HighScores.sort_desc filter].
  - reflexivity.
  - rewrite IH.
    destruct (Z.geb_spec (HighScores.score h) (HighScores.score e)) as [Hge|Hlt];
      destruct (Z.ltb_spec (HighScores.score h) (HighScores.score e)) as [Hlt'|Hge'];
      try lia.
    + cbn [app]. apply insert_desc_front.
      intros x Hx.
      destruct (filter (fun x0 => HighScores.score x0 >=? HighScores.score e) t)
        as [|y l] eqn:Hf; cbn [app hd_error] in Hx; injection Hx as <-.
      * lia.
      * assert (Hin : In y (filter (fun x0 => HighScores.score x0 >=? HighScores.score e) t))
          by (rewrite Hf; left; reflexivity).
        apply filter_In in Hin. destruct Hin as [Hin _].
        rewrite Forall_forall in Hh. apply Hh. exact Hin.
    + assert (Hnone : filter (fun x => HighScores.score x >=? HighScores.score e) t = []).
      { clear IH Ht. induction Hh as [|x t Hx Hh IHh]; cbn [filter]; [reflexivity|].
        destruct (Z.geb_spec (HighScores.score x) (HighScores.score e)); [lia|exact IHh]. }
      assert (Hall : filter (fun x => HighScores.score x <? HighScores.score e) t = t).
      { clear IH Ht Hnone. induction Hh as [|x t Hx Hh IHh]; cbn [filter]; [reflexivity|].
        destruct (Z.ltb_spec (HighScores.score x) (HighScores.score e)); [|lia].
        f_equal. exact IHh. }
      rewrite Hnone, Hall. cbn [app HighScores.insert_desc].
      destruct (Z.geb_spec (HighScores.score h) (HighScores.score e)); [lia|].
      f_equal. apply insert_desc_front.
      intros x Hx. destruct t as [|y t]; [discriminate|].
      cbn [hd_error] in Hx. injection Hx as <-.
      inversion Hh; subst. assumption.
Qed.

Lemma is_high_score_below (t : list HighScores.Entry) (sc : Z) :
  HighScores.is_high_score t sc
  = (length t <? 10)%nat || negb (Nat.eqb (length (below sc t)) 0).
Proof.
  unfold HighScores.is_high_score, below.
  destruct (length t <? 10)%nat; [reflexivity|]. cbn [orb].
  induction t as [|x t IH]; cbn [existsb filter].
  - reflexivity.
  - replace (sc >? HighScores.score x) with (HighScores.score x <? sc)
      by (rewrite Z.gtb_ltb; reflexivity).
    destruct (HighScores.score x <? sc); [reflexivity|exact IH].
Qed.

(** X10. On a table that is sorted by score, highest first, and has at
    most 10 entries, [is_high_score] says exactly whether [add_score]
    will keep the new entry.  The entry goes after the entries that
    score at least as much and before those that score less, and the
    first 10 are kept.  A score qualifies when the table has fewer than
    10 entries or some entry scores less; then the new entry is in the
    table afterwards.  Otherwise (a full table and no lower score, a tie
    with the last entry included) the table is left as it was. *)
Theorem qualifying_and_adding (upper_char : HighScores.char -> HighScores.str)
    (name : HighScores.str) (sc : Z) (table : list HighScores.Entry)
    (d : HighScores.Disk) :
  score_descending table ->
  (length table <= 10)%nat ->
  let e := HighScores.mkEntry
             (HighScores.upper upper_char (firstn 3 (HighScores.strip name))) sc in
  let table' := fst (HighScores.add_score upper_char name sc table d) in
  table' = firstn 10 (at_least sc table ++ e :: below sc table) /\
  (HighScores.is_high_score table sc = true <->
   (length table < 10)%nat \/ exists x, In x table /\ HighScores.score x < sc) /\
  (HighScores.is_high_score table sc = false -> table' = table) /\
  (HighScores.is_high_score table sc = true ->
   In e table' /\ length table' = Nat.min 10 (S (length table))).
Proof.
  intros Hsorted Hlen e table'.
  assert (Ht : table' = firstn 10 (at_least sc table ++ e :: below sc table)).
  { unfold table', HighScores.add_score. cbn [fst]. fold e.
    rewrite (sort_desc_append e table Hsorted). reflexivity. }
  pose proof (sorted_split sc table Hsorted) as Hsplit.
  assert (Hcount : length table
                   = (length (at_least sc table) + length (below sc table))%nat).
  { rewrite Hsplit at 1. apply length_app. }
  assert (Hq : HighScores.is_high_score table sc = true <->
               (length table < 10)%nat
               \/ exists x, In x table /\ HighScores.score x < sc).
  { rewrite is_high_score_below, orb_true_iff, Nat.ltb_lt, negb_true_iff, Nat.eqb_neq.
    split; (intros [Hl|Hb]; [left; exact Hl|right]).
    - destruct (below sc table) as [|x l] eqn:Hbl; [contradiction|].
      assert (Hin : In x (below sc table)) by (rewrite Hbl; left; reflexivity).
      unfold below in Hin. apply filter_In in Hin. destruct Hin as [Hin Hx].
      exists x. split; [exact Hin | lia].
    - destruct Hb as (x & Hin & Hx).
      assert (Hinb : In x (below sc table)).
      { unfold below. apply filter_In. split; [exact Hin | lia]. }
      destruct (below sc table); [contradiction | discriminate]. }
  split; [exact Ht|]. split; [exact Hq|]. split.
  - intros Hno.
    rewrite is_high_score_below in Hno. apply orb_false_iff in Hno.
    destruct Hno as [Hl Hb]. apply Nat.ltb_ge in Hl.
    apply negb_false_iff, Nat.eqb_eq in Hb.
    destruct (below sc table); [|discriminate].
    rewrite app_nil_r in Hsplit. rewrite <- Hsplit in Ht.
    rewrite Ht, firstn_app. cbn [length] in *.
    replace (10 - length table)%nat with 0%nat by lia.
    rewrite firstn_all2 by lia. cbn [firstn]. apply app_nil_r.
  - intros Hyes.
    assert (Habove : (length (at_least sc table) <= 9)%nat).
    { rewrite is_high_score_below in Hyes. apply orb_true_iff in Hyes.
      destruct Hyes as [Hl|Hb].
      - apply Nat.ltb_lt in Hl. lia.
      - apply negb_true_iff, Nat.eqb_neq in Hb. lia. }
    split.
    + rewrite Ht, firstn_app. apply in_or_app. right.
      destruct (10 - length (at_least sc table))%nat as [|n] eqn:Hn; [lia|].
      cbn [firstn]. left. reflexivity.
    + rewrite Ht, length_firstn, length_app. cbn [length]. lia.
Qed.

Lemma qualifying_and_adding_witness :
  fst (HighScores.add_score HighScores.upper_latin1 blank_zed_blank 500
         full_table writable_disk) = full_table /\
  In (HighScores.mkEntry [90%N; 69%N; 68%N] 501)
    (fst (HighScores.add_score HighScores.upper_latin1 blank_zed_blank 501
            full_table writable_disk)).
Proof.
  split.
  - destruct (qualifying_and_adding HighScores.upper_latin1 blank_zed_blank 500
                full_table writable_disk) as (_ & _ & Hno & _).
    + unfold score_descending, full_table. cbn [map].
      repeat (constructor; [|repeat (constructor; [cbn; lia|]); constructor]).
      constructor.
    + cbn. lia.
    + apply Hno. vm_compute. reflexivity.
  - destruct (qualifying_and_adding HighScores.upper_latin1 blank_zed_blank 501
                full_table writable_disk) as (_ & _ & _ & Hyes).
    + unfold score_descending, full_table. cbn [map].
      repeat (constructor; [|repeat (constructor; [cbn; lia|]); constructor]).
      constructor.
    + cbn. lia.
    + apply Hyes. vm_compute. reflexivity.
Defined.

(** ** Firing *)

(** X11. Space is edge-triggered.  A second press of Space with no
    release in between (a held key repeating) changes nothing, so a
    press adds at most one bullet.  A press with the key released
    before, on a widget whose snapshot shares the worker's bullet list,
    appends exactly one bullet at (player_x + 28, player_y) of the
    snapshot; releasing Space re-arms the key. *)
Theorem fire_once_per_press (g : Widget) :
  keyPressEvent Key_Space (keyPressEvent Key_Space g) = keyPressEvent Key_Space g /\
  (length (bullets (state (worker (keyPressEvent Key_Space g))))
   <= S (length (bullets (state (worker g)))))%nat /\
  space_pressed (keyReleaseEvent Key_Space g) = false /\
  (forall snap,
     gui_state g = Some snap -> space_pressed g = false -> shares_bullets g = true ->
     bullets (state (worker (keyPressEvent Key_Space g)))
     = bullets (state (worker g)) ++ [(player_x snap + 28, player_y snap)] /\
     space_pressed (keyPressEvent Key_Space g) = true).
Proof.
  destruct g as [w gk sel sp gs sh].
  destruct w as [s d r rg em].
  unfold keyPressEvent, keyReleaseEvent, fire.
  cbn [gui_state space_pressed shares_bullets selecting_difficulty difficulty_of_key].
  split; [|split; [|split]].
  - destruct gs as [snap|], sp, sh, sel; reflexivity.
  - destruct gs as [snap|], sp, sh, sel;
      cbn [worker state set_worker set_gui_state set_space_pressed update_key_state
           on_state set_state selecting_difficulty gui_state space_pressed
           shares_bullets gui_keys];
      state_fields; rewrite ?length_app; cbn [length]; lia.
  - reflexivity.
  - intros snap -> -> ->.
    destruct sel;
      cbn [worker state set_worker set_gui_state set_space_pressed update_key_state
           on_state set_state selecting_difficulty gui_state space_pressed
           shares_bullets gui_keys];
      state_fields; change (PLAYER_WIDTH / 2) with 30;
      (split; [|reflexivity]); do 3 f_equal; lia.
Qed.

Lemma fire_once_per_press_witness :
  bullets (state (worker (keyPressEvent Key_Space finished_game)))
  = bullets (state (worker finished_game)) ++ [(498, 710)].
Proof.
  destruct (fire_once_per_press finished_game) as (_ & _ & _ & Hfire).
  destruct (Hfire (state (update_logic lethal_hit_and_landing))) as [Hb _].
  - reflexivity.
  - reflexivity.
  - reflexivity.
  - rewrite Hb. vm_compute. reflexivity.
Defined.

(** ** Entering the initials *)

Lemma lstrip_incl (l : HighScores.str) :
  forall u, In u (HighScores.lstrip l) -> In u l.
Proof.
  induction l as [|c l IH]; intros u; cbn [HighScores.lstrip].
  - auto.
  - destruct (HighScores.isspace c); [|auto].
    intros Hin. right. apply IH. exact Hin.
Qed.

Lemma strip_incl (l : HighScores.str) :
  forall u, In u (HighScores.strip l) -> In u l.
Proof.
  intros u. unfold HighScores.strip, HighScores.rstrip. intros Hin.
  apply in_rev in Hin. apply lstrip_incl in Hin. apply in_rev in Hin.
  apply lstrip_incl. exact Hin.
Qed.

Lemma firstn_incl {A : Type} (n : nat) (l : list A) :
  forall u, In u (firstn n l) -> In u l.
Proof.
  revert n. induction l as [|a l IH]; intros [|n] u; cbn [firstn In]; try tauto.
  intros [->|Hin]; [left; reflexivity | right; eapply IH; exact Hin].
Qed.

Lemma upper_fixed (upper_char : HighScores.char -> HighScores.str) (l : HighScores.str) :
  Forall (fun u => upper_char u = [u]) l -> HighScores.upper upper_char l = l.
Proof.
  unfold HighScores.upper. intros Hall.
  induction Hall as [|u l Hu _ IH]; cbn [flat_map].
  - reflexivity.
  - rewrite Hu, IH. reflexivity.
Qed.

Lemma upper_members (upper_char : HighScores.char -> HighScores.str) (l : HighScores.str) :
  forall u, In u (HighScores.upper upper_char l) -> exists c, In u (upper_char c).
Proof.
  intros u Hin. unfold HighScores.upper in Hin. apply in_flat_map in Hin.
  destruct Hin as (c & _ & Hc). exists c. exact Hc.
Qed.

(** X12. [get_initials] leaves the table and the file alone when the
    dialog is cancelled or the text is empty.  Otherwise it adds the
    entry, and when uppercasing leaves uppercased characters as they are
    the initials stored are the first 3 characters of the stripped,
    uppercased first 3 characters of the text: never more than 3
    characters, since the widget cuts and uppercases before [add_score]
    cuts again. *)
Theorem get_initials_outcome (upper_char : HighScores.char -> HighScores.str)
    (text : HighScores.str) (ok : bool) (sc : Z)
    (table : list HighScores.Entry) (d : HighScores.Disk) :
  (forall c u, In u (upper_char c) -> upper_char u = [u]) ->
  let typed := HighScores.upper upper_char (firstn 3 text) in
  let stored := firstn 3 (HighScores.strip typed) in
  (ok = false \/ text = [] ->
   get_initials upper_char text ok sc table d = (table, d)) /\
  (ok = true -> text <> [] ->
   get_initials upper_char text ok sc table d
   = HighScores.add_score upper_char typed sc table d /\
   fst (get_initials upper_char text ok sc table d)
   = firstn 10 (HighScores.sort_desc (table ++ [HighScores.mkEntry stored sc])) /\
   (length stored <= 3)%nat).
Proof.
  intros Hfix typed stored. split.
  - intros [-> | ->]; [reflexivity|]. destruct ok; reflexivity.
  - intros -> Hne. destruct text as [|c text]; [contradiction|].
    cbn [get_initials]. fold typed.
    split; [reflexivity|]. split.
    + unfold HighScores.add_score. cbn [fst]. fold stored.
      rewrite (upper_fixed upper_char stored); [reflexivity|].
      apply Forall_forall. intros u Hin.
      apply firstn_incl, strip_incl in Hin.
      destruct (upper_members upper_char _ u Hin) as (c0 & Hc0).
      apply (Hfix c0). exact Hc0.
    + unfold stored. rewrite length_firstn. lia.
Qed.

Lemma upper_latin1_stable (u : HighScores.char) :
  (u < 97 \/ (122 < u /\ u < 181) \/ (181 < u /\ u < 223) \/ u = 247 \/ 255 < u)%N ->
  HighScores.upper_latin1 u = [u].
Proof.
  intros Hu. unfold HighScores.upper_latin1.
  destruct (N.leb_spec 97 u); destruct (N.leb_spec u 122); cbn [andb]; try lia.
  all: destruct (N.eqb_spec u 181); try lia.
  all: destruct (N.eqb_spec u 223); try lia.
  all: destruct (N.leb_spec 224 u); destruct (N.leb_spec u 254);
    destruct (N.eqb_spec u 247); cbn [andb negb]; try lia.
  all: destruct (N.eqb_spec u 255); try lia; reflexivity.
Qed.

Lemma upper_latin1_fixed (c u : HighScores.char) :
  In u (HighScores.upper_latin1 c) -> HighScores.upper_latin1 u = [u].
Proof.
  unfold HighScores.upper_latin1 at 1.
  destruct (N.leb_spec 97 c); destruct (N.leb_spec c 122); cbn [andb].
  1: { intros [<-|[]]. apply upper_latin1_stable. lia. }
  all: destruct (N.eqb_spec c 181);
    [intros [<-|[]]; apply upper_latin1_stable; lia|].
  all: destruct (N.eqb_spec c 223);
    [intros [<-|[<-|[]]]; apply upper_latin1_stable; lia|].
  all: destruct (N.leb_spec 224 c); destruct (N.leb_spec c 254);
    destruct (N.eqb_spec c 247); cbn [andb negb];
    try (intros [<-|[]]; apply upper_latin1_stable; lia).
  all: destruct (N.eqb_spec c 255);
    intros [<-|[]]; apply upper_latin1_stable; lia.
Qed.

Lemma get_initials_outcome_witness :
  fst (get_initials HighScores.upper_latin1 sharp_s_a_b true 1 []
         (HighScores.mkDisk HighScores.Missing true))
  = [HighScores.mkEntry [83%N; 83%N; 65%N] 1].
Proof.
  destruct (get_initials_outcome HighScores.upper_latin1 sharp_s_a_b true 1 []
              (HighScores.mkDisk HighScores.Missing true) upper_latin1_fixed)
    as (_ & Hadd).
  destruct Hadd as (_ & Hfst & _).
  - reflexivity.
  - discriminate.
  - rewrite Hfst. vm_compute. reflexivity.
Defined.

(** ** The score and the lives within a session *)

Lemma score_collision_detection (w : Worker) :
  exists gain,
    0 <= gain /\ gain mod 10 = 0 /\
    score (state (collision_detection w)) = score (state w) + gain.
Proof.
  unfold collision_detection.
  destruct (collision_loop_accounting (difficulty w) (aliens (state w)) [] (state w))
    as (survivors & _ & Hsub & _ & Hscore & _).
  revert Hscore.
  generalize (collision_loop (difficulty w) (aliens (state w)) [] (state w)).
  intros [rem s'] Hscore. cbn [snd] in Hscore.
  cbn [state set_state]. state_fields.
  pose proof (subsequence_length _ _ Hsub) as Hle.
  exists (10 * multiplier (difficulty w)
          * (Z.of_nat (length (aliens (state w))) - Z.of_nat (length survivors))).
  split; [destruct (difficulty w); cbn [multiplier]; nia|].
  split; [|exact Hscore].
  rewrite <- Z.mul_assoc, Z.mul_comm. apply Z.mod_mul. lia.
Qed.

Lemma award_multiple (s : State) :
  0 <= fst (calculate_mystery_ship_score s) /\
  fst (calculate_mystery_ship_score s) mod 10 = 0.
Proof.
  rewrite calculate_mystery_ship_score_spec. cbn [fst].
  pose proof (Z.mod_pos_bound (shots_fired s + 1 + 22) 15 ltac:(lia)) as Hr.
  generalize dependent ((shots_fired s + 1 + 22) mod 15). intros r Hr.
  destruct (Z.min_spec (50 + r * 50) 300) as [[_ ->]|[_ ->]].
  - split; [lia|].
    replace (50 + r * 50) with ((5 + r * 5) * 10) by lia. apply Z.mod_mul. lia.
  - split; [lia | reflexivity].
Qed.

Lemma score_before_player_hits (w : Worker) :
  exists gain,
    0 <= gain /\ gain mod 10 = 0 /\
    score (state (before_player_hits w)) = score (state w) + gain.
Proof.
  unfold before_player_hits, before_ship_collisions.
  set (v0 := on_state
               (fun s => move_aliens_and_animate (move_bullets (player_movement s))) w).
  assert (H0 : score (state v0) = score (state w)).
  { unfold v0. rewrite state_on_state.
    pose proof (tally_move_aliens_and_animate (move_bullets (player_movement (state w))))
      as Ha.
    rewrite tally_move_bullets, tally_player_movement in Ha.
    apply tally_inv in Ha. destruct Ha as (-> & _). reflexivity. }
  revert H0. generalize v0. clear v0. intros v0 H0.
  pose proof (tally_alien_shooting v0) as H1.
  apply tally_inv in H1. destruct H1 as (H1 & _).
  revert H1. generalize (alien_shooting v0). intros v1 H1.
  pose proof (tally_mystery_ship_movement v1) as H2.
  apply tally_inv in H2. destruct H2 as (H2 & _).
  revert H2. generalize (mystery_ship_movement v1). intros v2 H2.
  destruct (score_collision_detection v2) as (kill_gain & Hk0 & Hk10 & H3).
  revert H3. generalize (collision_detection v2). intros v3 H3.
  pose proof (tally_mystery_ship_collisions v3) as H4.
  apply tally_inv in H4. destruct H4 as (H4 & _).
  destruct (award_multiple (state v3)) as [Ha0 Ha10].
  revert H4. generalize (mystery_ship_collisions v3). intros v4 H4.
  exists (kill_gain
          + (if ship_is_hit (state v3)
             then fst (calculate_mystery_ship_score (state v3)) else 0)).
  destruct (ship_is_hit (state v3)).
  - split; [lia|]. split; [|lia].
    rewrite Z.add_mod, Hk10, Ha10 by lia. reflexivity.
  - split; [lia|]. split; [|lia]. rewrite Z.add_0_r. exact Hk10.
Qed.

Lemma purse_aliens_reach_bottom (w : Worker) :
  purse (aliens_reach_bottom w) = purse w.
Proof.
  rewrite aliens_reach_bottom_spec. destruct (landed (state w)); reflexivity.
Qed.

Lemma purse_inv (w : Worker) (sc lv : Z) :
  purse w = (sc, lv) -> score (state w) = sc /\ lives (state w) = lv.
Proof. unfold purse. intros Heq. injection Heq as <- <-. split; reflexivity. Qed.

(** One tick of a running game: the score grows by a multiple of 10,
    the lives go down by the number of hits. *)
Lemma purse_update_logic (w : Worker) :
  game_over (state w) = false ->
  exists gain hits,
    0 <= gain /\ gain mod 10 = 0 /\ 0 <= hits /\
    score (state (update_logic w)) = score (state w) + gain /\
    lives (state (update_logic w)) = lives (state w) - hits.
Proof.
  intros Hgo. rewrite (update_logic_running_landing w Hgo), state_emit_state.
  pose proof (purse_aliens_reach_bottom (before_landing w)) as Hp.
  apply purse_inv in Hp. destruct Hp as [-> ->].
  destruct (before_landing_keeps w) as [_ Ht].
  apply tally_inv in Ht. destruct Ht as (-> & -> & _).
  rewrite resolve_collisions_hits.
  destruct (score_before_player_hits w) as (gain & Hg0 & Hg10 & Hs).
  destruct (tally_before_player_hits w) as [Hl _].
  revert Hs Hl. generalize (before_player_hits w). intros p Hs Hl.
  unfold alien_bullets_hit_player.
  pose proof (player_hit_loop_accounting (alien_bullets (state p)) p []
                eq_refl (Forall_nil _)) as Hh.
  cbv zeta in Hh. destruct Hh as (_ & Hsc & _ & Hlv & _).
  exists gain.
  exists (Z.of_nat (length (filter (meets (player_rect (state p)))
                              (alien_bullets (state p))))).
  split; [exact Hg0|]. split; [exact Hg10|]. split; [lia|].
  split; [rewrite Hsc; exact Hs | rewrite Hlv, Hl; reflexivity].
Qed.

Lemma purse_fire (g : Widget) : purse (worker (fire g)) = purse (worker g).
Proof.
  unfold fire. destruct (gui_state g) as [snap|]; [|reflexivity].
  destruct (space_pressed g); [reflexivity|].
  destruct (shares_bullets g); reflexivity.
Qed.

Lemma purse_debug_spawn (g : Widget) :
  purse (worker (debug_spawn g)) = purse (worker g).
Proof.
  unfold debug_spawn. destruct (mystery_ship (state (worker g))); [reflexivity|].
  destruct (choice [true; false] true (rng (worker g))) as [from_left r].
  reflexivity.
Qed.

Lemma purse_update_key_state (g : Widget) :
  purse (worker (update_key_state g)) = purse (worker g).
Proof. reflexivity. Qed.

Lemma purse_keyPressEvent (k : Key) (g : Widget) :
  key_resets k g = false ->
  purse (worker (keyPressEvent k g)) =
    (score (state (worker g)) + match k with Key_S => 100 | _ => 0 end,
     lives (state (worker g)) + match k with Key_L => 1 | _ => 0 end).
Proof.
  unfold keyPressEvent, key_resets.
  destruct k; cbn [difficulty_of_key is_difficulty_key is_restart_key orb andb];
    rewrite ?andb_false_r, ?andb_true_r, ?Z.add_0_r; intros Hno; try discriminate.
  - widget_fields. destruct (selecting_difficulty g); reflexivity.
  - widget_fields. destruct (selecting_difficulty g); reflexivity.
  - rewrite selecting_fire. destruct (selecting_difficulty g);
      rewrite ?purse_update_key_state; apply purse_fire.
  - destruct (selecting_difficulty g); reflexivity.
  - widget_fields. destruct (selecting_difficulty g); reflexivity.
  - widget_fields. destruct (selecting_difficulty g); reflexivity.
  - widget_fields. destruct (selecting_difficulty g); reflexivity.
  - rewrite selecting_debug_spawn. rewrite Hno.
    rewrite purse_update_key_state. apply purse_debug_spawn.
  - rewrite Hno. reflexivity.
  - rewrite Hno. reflexivity.
  - destruct (selecting_difficulty g); reflexivity.
Qed.

Lemma purse_keyReleaseEvent (k : Key) (g : Widget) :
  purse (worker (keyReleaseEvent k g)) = purse (worker g).
Proof. destruct k; reflexivity. Qed.

Lemma purse_tick (g : Widget) :
  exists gain hits,
    0 <= gain /\ gain mod 10 = 0 /\ 0 <= hits /\
    score (state (worker (tick g))) = score (state (worker g)) + gain /\
    lives (state (worker (tick g))) = lives (state (worker g)) - hits.
Proof.
  unfold tick, run_iteration.
  destruct (running (worker g));
    [|exists 0, 0; repeat split; lia].
  destruct (paused (state (worker g)));
    [exists 0, 0; cbn [orb]; widget_fields; repeat split; lia|].
  destruct (game_over (state (worker g))) eqn:Hgo; cbn [orb].
  - rewrite (update_logic_game_over _ Hgo). widget_fields.
    exists 0, 0. repeat split; lia.
  - destruct (purse_update_logic (worker g) Hgo) as (gain & hits & H).
    exists gain, hits. revert H. generalize (update_logic (worker g)).
    intros w' H. widget_fields. exact H.
Qed.

Lemma purse_handle (ev : Event) (g : Widget) :
  event_resets ev g = false ->
  exists gain hits,
    0 <= gain /\ gain mod 10 = 0 /\ 0 <= hits /\
    score (state (worker (handle ev g))) = score (state (worker g)) + gain /\
    lives (state (worker (handle ev g))) =
      lives (state (worker g)) - hits + (if is_extra_life ev then 1 else 0).
Proof.
  intros Hno. destruct ev as [k|k|]; cbn [handle event_resets] in *.
  - pose proof (purse_keyPressEvent k g Hno) as Hp.
    apply purse_inv in Hp. destruct Hp as [-> ->].
    exists (match k with Key_S => 100 | _ => 0 end), 0.
    destruct k; cbn [is_extra_life]; repeat split; lia.
  - pose proof (purse_keyReleaseEvent k g) as Hp.
    apply purse_inv in Hp. destruct Hp as [-> ->].
    exists 0, 0. cbn [is_extra_life]. repeat split; lia.
  - destruct (purse_tick g) as (gain & hits & H0 & H10 & Hh & Hs & Hl).
    exists gain, hits. cbn [is_extra_life]. repeat split; try assumption; lia.
Qed.

(** X13. Within a session (no event goes through [reset_state]) the
    score never goes down and changes by multiples of 10 only: 10, 20
    or 30 for an alien, a multiple of 50 for the mystery ship, 100 for
    the S key.  The lives go up only by the L key, one for each press:
    no tick ever gives a life back. *)
Theorem score_and_lives_within_session (evs : list Event) (g : Widget) :
  within_session evs g = true ->
  let s := state (worker g) in
  let s' := state (worker (run_events evs g)) in
  score s <= score s' /\
  (score s' - score s) mod 10 = 0 /\
  lives s' <= lives s + Z.of_nat (extra_lives evs).
Proof.
  cbv zeta. unfold run_events. revert g.
  induction evs as [|ev rest IH]; intros g Hin; cbn [fold_left].
  - rewrite Z.sub_diag. cbn. repeat split; lia.
  - cbn [within_session] in Hin. apply andb_true_iff in Hin.
    destruct Hin as [Hno Hrest]. apply negb_true_iff in Hno.
    destruct (purse_handle ev g Hno) as (gain & hits & H0 & H10 & Hh & Hs & Hl).
    specialize (IH (handle ev g) Hrest).
    revert IH Hs Hl. generalize (handle ev g). intros g1 (IHs & IHm & IHl) Hs Hl.
    rewrite Hs in IHs, IHm. rewrite Hl in IHl.
    split; [lia|]. split.
    + replace (score (state (worker (fold_left (fun g0 ev0 => handle ev0 g0) rest g1)))
               - score (state (worker g)))
        with ((score (state (worker (fold_left (fun g0 ev0 => handle ev0 g0) rest g1)))
               - (score (state (worker g)) + gain)) + gain) by lia.
      rewrite Z.add_mod, IHm, H10 by lia. reflexivity.
    + unfold extra_lives in *. cbn [filter].
      destruct (is_extra_life ev); cbn [length]; lia.
Qed.

Lemma score_and_lives_within_session_witness :
  within_session after_the_end finished_game = true /\
  score (state (worker finished_game))
  <= score (state (worker (run_events after_the_end finished_game))).
Proof.
  assert (Hin : within_session after_the_end finished_game = true)
    by (vm_compute; reflexivity).
  split; [exact Hin|].
  destruct (score_and_lives_within_session after_the_end finished_game Hin)
    as (Hs & _).
  exact Hs.
Defined.

(** ** Restarting and choosing a difficulty *)

Lemma reset_state_fresh (w : Worker) :
  exists r countdown,
    600 <= countdown <= 1000 /\
    state (reset_state w) = fresh_state r countdown /\
    emitted (reset_state w) = emitted w /\
    running (reset_state w) = running w /\
    difficulty (reset_state w) = difficulty w.
Proof.
  unfold reset_state.
  pose proof (randint_range 600 1000 (rng w) ltac:(lia)) as Hrange.
  destruct (randint 600 1000 (rng w)) as [countdown g1]. cbn [fst] in Hrange.
  rewrite create_aliens_spec.
  exists g1, countdown. split; [exact Hrange|]. repeat split.
Qed.

Lemma start_game_fresh (d : Difficulty) (w : Worker) :
  exists r countdown,
    600 <= countdown <= 1000 /\
    state (start_game d w) = fresh_state r countdown /\
    emitted (start_game d w) = emitted w /\
    running (start_game d w) = true /\
    difficulty (start_game d w) = d.
Proof.
  unfold start_game.
  destruct (reset_state_fresh (set_difficulty d w))
    as (r & countdown & Hrange & Hs & He & _ & Hd).
  revert Hs He Hd. generalize (reset_state (set_difficulty d w)).
  intros v Hs He Hd.
  exists r, countdown. split; [exact Hrange|].
  split; [|split; [exact He|split; [reflexivity|exact Hd]]].
  cbn [state set_running on_state set_state]. rewrite Hs. reflexivity.
Qed.

(** X14. A difficulty key (E, M or H) pressed while the menu is shown
    starts a new game at that difficulty: the menu closes, the worker
    runs, and the state is the initial one whatever was pressed before
    (pause, extra lives, extra score, the debug ship that M itself has
    just spawned).  The handler returns before it copies the widget's
    keys to the worker: an arrow key held down during the choice stays
    recorded in the widget, but the new state has both keys released. *)
Theorem new_game_on_difficulty_key (k : Key) (d : Difficulty) (g : Widget) :
  selecting_difficulty g = true ->
  difficulty_of_key k = Some d ->
  let g' := keyPressEvent k g in
  selecting_difficulty g' = false /\
  running (worker g') = true /\
  difficulty (worker g') = d /\
  gui_keys g' = gui_keys g /\
  emitted (worker g') = emitted (worker g) /\
  exists r countdown,
    600 <= countdown <= 1000 /\ state (worker g') = fresh_state r countdown.
Proof.
  intros Hsel Hk. cbv zeta. unfold keyPressEvent.
  assert (Hpre : exists g1,
             match k with
             | Key_Left => set_gui_keys (mkKeys true (key_right (gui_keys g))) g
             | Key_Right => set_gui_keys (mkKeys (key_left (gui_keys g)) true) g
             | Key_Space => fire g
             | Key_Q => g
             | Key_R => restart g
             | Key_P =>
                 set_worker
                   (on_state (fun s => set_paused (negb (paused s)) s) (worker g)) g
             | Key_L =>
                 set_worker (on_state (fun s => set_lives (lives s + 1) s) (worker g)) g
             | Key_S =>
                 set_worker (on_state (fun s => set_score (score s + 100) s) (worker g)) g
             | Key_M => debug_spawn g
             | _ => g
             end = g1 /\
             selecting_difficulty g1 = true /\ gui_keys g1 = gui_keys g /\
             emitted (worker g1) = emitted (worker g)).
  { destruct k; try discriminate Hk.
    - exists (debug_spawn g). split; [reflexivity|].
      split; [rewrite selecting_debug_spawn; exact Hsel|].
      unfold debug_spawn. destruct (mystery_ship (state (worker g)));
        [split; reflexivity|].
      destruct (choice [true; false] true (rng (worker g))) as [from_left r].
      split; reflexivity.
    - exists g. repeat split. exact Hsel.
    - exists g. repeat split. exact Hsel. }
  destruct Hpre as (g1 & -> & Hsel1 & Hkeys & Hem).
  rewrite Hsel1, Hk. widget_fields.
  destruct (start_game_fresh d (worker g1))
    as (r & countdown & Hrange & Hs & He & Hr & Hd).
  split; [reflexivity|]. split; [exact Hr|]. split; [exact Hd|].
  split; [exact Hkeys|]. split; [rewrite He; exact Hem|].
  exists r, countdown. split; [exact Hrange | exact Hs].
Qed.

Lemma new_game_on_difficulty_key_witness :
  gui_keys (keyPressEvent Key_M menu_with_left_held) = mkKeys true false /\
  keys_pressed (state (worker (keyPressEvent Key_M menu_with_left_held)))
  = mkKeys false false /\
  mystery_ship (state (worker (keyPressEvent Key_M menu_with_left_held))) = None /\
  paused (state (worker (keyPressEvent Key_M menu_with_left_held))) = false.
Proof.
  destruct (new_game_on_difficulty_key Key_M M menu_with_left_held)
    as (_ & _ & _ & Hkeys & _ & r & countdown & _ & Hs).
  - vm_compute. reflexivity.
  - reflexivity.
  - rewrite Hkeys, Hs. repeat split.
Defined.

Lemma mode_fire (g : Widget) : mode (fire g) = mode g.
Proof.
  unfold fire. destruct (gui_state g) as [snap|]; [|reflexivity].
  destruct (space_pressed g); [reflexivity|].
  destruct (shares_bullets g); reflexivity.
Qed.

Lemma mode_debug_spawn (g : Widget) : mode (debug_spawn g) = mode g.
Proof.
  unfold debug_spawn. destruct (mystery_ship (state (worker g))); [reflexivity|].
  destruct (choice [true; false] true (rng (worker g))) as [from_left r].
  reflexivity.
Qed.

Lemma mode_update_key_state (g : Widget) : mode (update_key_state g) = mode g.
Proof. reflexivity. Qed.

Lemma mode_keyPressEvent (k : Key) (g : Widget) :
  key_resets k g = false -> mode (keyPressEvent k g) = mode g.
Proof.
  unfold keyPressEvent, key_resets.
  destruct k; cbn [difficulty_of_key is_difficulty_key is_restart_key orb andb];
    rewrite ?andb_false_r, ?andb_true_r; intros Hno; try discriminate.
  - widget_fields. destruct (selecting_difficulty g); reflexivity.
  - widget_fields. destruct (selecting_difficulty g); reflexivity.
  - rewrite selecting_fire. destruct (selecting_difficulty g);
      rewrite ?mode_update_key_state; apply mode_fire.
  - destruct (selecting_difficulty g); reflexivity.
  - widget_fields. destruct (selecting_difficulty g); reflexivity.
  - widget_fields. destruct (selecting_difficulty g); reflexivity.
  - widget_fields. destruct (selecting_difficulty g); reflexivity.
  - rewrite selecting_debug_spawn. rewrite Hno.
    rewrite mode_update_key_state. apply mode_debug_spawn.
  - rewrite Hno. reflexivity.
  - rewrite Hno. reflexivity.
  - destruct (selecting_difficulty g); reflexivity.
Qed.

Lemma mode_keyReleaseEvent (k : Key) (g : Widget) :
  mode (keyReleaseEvent k g) = mode g.
Proof. destruct k; reflexivity. Qed.

Lemma mode_inv (g : Widget) (sel run : bool) :
  mode g = (sel, run) -> selecting_difficulty g = sel /\ running (worker g) = run.
Proof. unfold mode. intros Heq. injection Heq as <- <-. split; reflexivity. Qed.

Lemma stopped_handle (ev : Event) (g : Widget) :
  event_resets ev g = false ->
  running (worker g) = false ->
  mode (handle ev g) = mode g /\ frozen (worker (handle ev g)) = frozen (worker g).
Proof.
  intros Hno Hrun. destruct ev as [k|k|]; cbn [handle event_resets] in *.
  - split; [apply mode_keyPressEvent | apply frozen_keyPressEvent]; exact Hno.
  - split; [apply mode_keyReleaseEvent | apply frozen_keyReleaseEvent].
  - unfold tick. rewrite Hrun. split; reflexivity.
Qed.

Lemma stopped_run_events (evs : list Event) (g : Widget) :
  within_session evs g = true ->
  running (worker g) = false ->
  mode (run_events evs g) = mode g /\
  frozen (worker (run_events evs g)) = frozen (worker g).
Proof.
  unfold run_events. revert g.
  induction evs as [|ev rest IH]; intros g Hin Hrun; cbn [fold_left].
  - split; reflexivity.
  - cbn [within_session] in Hin. apply andb_true_iff in Hin.
    destruct Hin as [Hno Hrest]. apply negb_true_iff in Hno.
    destruct (stopped_handle ev g Hno Hrun) as [Hm Hf].
    assert (Hrun1 : running (worker (handle ev g)) = false).
    { pose proof Hm as Hm'. unfold mode in Hm'.
      injection Hm' as _ Hr. rewrite Hr. exact Hrun. }
    specialize (IH (handle ev g) Hrest Hrun1).
    revert IH Hm Hf. generalize (handle ev g). intros g1 [IHm IHf] Hm Hf.
    split; [rewrite IHm; exact Hm | rewrite IHf; exact Hf].
Qed.

(** X15. R stops the worker loop, builds the initial state, releases
    both arrow keys and opens the difficulty menu.  Until E, M, H or R
    is pressed the game stands still whatever else happens: the menu
    stays open, the loop stays stopped, no tick moves the formation or
    the alien bullets, and no signal is emitted. *)
Theorem restart_waits_for_difficulty (evs : list Event) (g : Widget) :
  let g0 := keyPressEvent Key_R g in
  let g1 := run_events evs g0 in
  within_session evs g0 = true ->
  (exists r countdown,
     600 <= countdown <= 1000 /\ state (worker g0) = fresh_state r countdown) /\
  gui_keys g0 = mkKeys false false /\
  difficulty (worker g0) = difficulty (worker g) /\
  selecting_difficulty g1 = true /\
  running (worker g1) = false /\
  aliens (state (worker g1)) = aliens (state (worker g0)) /\
  alien_bullets (state (worker g1)) = [] /\
  emitted (worker g1) = emitted (worker g).
Proof.
  cbv zeta.
  assert (H0 : exists r countdown,
             600 <= countdown <= 1000 /\
             state (worker (keyPressEvent Key_R g)) = fresh_state r countdown /\
             gui_keys (keyPressEvent Key_R g) = mkKeys false false /\
             difficulty (worker (keyPressEvent Key_R g)) = difficulty (worker g) /\
             mode (keyPressEvent Key_R g) = (true, false) /\
             emitted (worker (keyPressEvent Key_R g)) = emitted (worker g)).
  { unfold keyPressEvent. destruct (fields_restart g) as [_ Hsel].
    rewrite Hsel. cbn [difficulty_of_key]. unfold restart, update_key_state, mode.
    destruct (reset_state_fresh (set_running false (worker g)))
      as (r & countdown & Hrange & Hs & He & Hr & Hd).
    revert Hs He Hr Hd. generalize (reset_state (set_running false (worker g))).
    intros v Hs He Hr Hd. widget_fields.
    exists r, countdown. split; [exact Hrange|].
    cbn [state on_state set_state emitted running difficulty].
    rewrite Hs, He, Hr, Hd. repeat split. }
  destruct H0 as (r & countdown & Hrange & Hs & Hkeys & Hd & Hm & He).
  revert Hs Hkeys Hd Hm He. generalize (keyPressEvent Key_R g).
  intros g0 Hs Hkeys Hd Hm He Hin.
  pose proof (mode_inv _ _ _ Hm) as [Hsel Hrun].
  destruct (stopped_run_events evs g0 Hin Hrun) as [Hm1 Hf1].
  rewrite Hm in Hm1. apply mode_inv in Hm1. destruct Hm1 as [Hsel1 Hrun1].
  revert Hf1 Hsel1 Hrun1. generalize (run_events evs g0).
  intros g1 Hf1 Hsel1 Hrun1.
  unfold frozen in Hf1. injection Hf1 as _ Ha Hab Hem.
  split; [exists r, countdown; split; [exact Hrange | exact Hs]|].
  split; [exact Hkeys|]. split; [exact Hd|]. split; [exact Hsel1|].
  split; [exact Hrun1|]. split; [exact Ha|].
  split; [rewrite Hab, Hs; reflexivity | rewrite Hem; exact He].
Qed.

Lemma restart_waits_for_difficulty_witness :
  selecting_difficulty (run_events after_the_end (keyPressEvent Key_R finished_game))
  = true /\
  running (worker (run_events after_the_end (keyPressEvent Key_R finished_game)))
  = false.
Proof.
  destruct (restart_waits_for_difficulty after_the_end finished_game)
    as (_ & _ & _ & Hsel & Hrun & _).
  - vm_compute. reflexivity.
  - split; [exact Hsel | exact Hrun].
Defined.

(** ** The formation and the edges of the world *)

Lemma fresh_formation_inside (g : Rng) :
  formation_in 0 (WORLD_W - 40) (map (fresh_alien g) (seq 0 55)).
Proof.
  unfold formation_in. apply Forall_forall. intros a Hin.
  apply in_map_iff in Hin. destruct Hin as (k & <- & Hk).
  apply in_seq in Hk.
  destruct (fresh_alien_place g k ltac:(lia)) as [Hx _].
  unfold WORLD_W. lia.
Qed.

Lemma formation_step (formation survivors : list Alien) (dir v dy : Z) (toggle : bool) :
  dir = 1 \/ dir = -1 ->
  0 < v ->
  formation_ok formation dir v ->
  (forall a, In a survivors ->
             In a (map (moved_alien (dir * v) dy toggle) formation)) ->
  formation_ok survivors
    (if existsb
          (fun a =>
             let x' := alien_x a + dir * v in (x' <=? 0) || (x' >=? WORLD_W - 40))
          formation
     then dir * -1 else dir) v.
Proof.
  intros Hdir Hv Hok Hsub.
  assert (Hfrom : forall a, In a survivors ->
            exists a0, In a0 formation /\ alien_x a = alien_x a0 + dir * v).
  { intros a Hin. apply Hsub, in_map_iff in Hin.
    destruct Hin as (a0 & <- & Hin0). exists a0. split; [exact Hin0|reflexivity]. }
  clear Hsub. unfold formation_ok, formation_in, WORLD_W in *.
  destruct (existsb _ formation) eqn:Hhit.
  - apply existsb_exists in Hhit. destruct Hhit as (e & He & Hedge).
    cbv zeta in Hedge. apply orb_true_iff in Hedge.
    assert (Hpast : alien_x e + dir * v <= 0 \/ alien_x e + dir * v >= 1000 - 40).
    { destruct Hedge as [Hl|Hr]; [left|right].
      - destruct (Z.leb_spec (alien_x e + dir * v) 0); [assumption|discriminate].
      - destruct (Z.geb_spec (alien_x e + dir * v) (1000 - 40)); [lia|discriminate]. }
    destruct Hok as [Hin|[[Hd Hin]|[Hd Hin]]].
    + destruct Hdir as [-> | ->].
      * right. right. split; [reflexivity|].
        apply Forall_forall. intros a Ha.
        destruct (Hfrom a Ha) as (a0 & Ha0 & ->).
        pose proof (proj1 (Forall_forall _ _) Hin a0 Ha0). cbv beta in *. lia.
      * right. left. split; [reflexivity|].
        apply Forall_forall. intros a Ha.
        destruct (Hfrom a Ha) as (a0 & Ha0 & ->).
        pose proof (proj1 (Forall_forall _ _) Hin a0 Ha0). cbv beta in *. lia.
    + pose proof (proj1 (Forall_forall _ _) Hin e He). cbv beta in *. subst dir. lia.
    + pose proof (proj1 (Forall_forall _ _) Hin e He). cbv beta in *. subst dir. lia.
  - left. apply Forall_forall. intros a Ha.
    destruct (Hfrom a Ha) as (a0 & Ha0 & ->).
    assert (Hno : ((alien_x a0 + dir * v <=? 0)
                   || (alien_x a0 + dir * v >=? 1000 - 40)) = false).
    { destruct ((alien_x a0 + dir * v <=? 0) || (alien_x a0 + dir * v >=? 1000 - 40))
        eqn:Hc; [|reflexivity].
      rewrite <- Hhit. symmetry. apply existsb_exists.
      exists a0. split; [exact Ha0 | exact Hc]. }
    apply orb_false_iff in Hno. destruct Hno as [Hl Hr].
    destruct (Z.leb_spec (alien_x a0 + dir * v) 0); [discriminate|].
    destruct (Z.geb_spec (alien_x a0 + dir * v) (1000 - 40)); [discriminate|].
    lia.
Qed.

Lemma moved_formation (s : State) :
  aliens (move_aliens_and_animate (move_bullets (player_movement s))) =
    map (moved_alien (alien_direction s * alien_speed s)
           (if edge_hit_of s then 20 else 0)
           (alien_anim_counter s + 1 >=? ANIM_SPEED)) (aliens s).
Proof.
  destruct (formation_before_move s) as (Ha & Hd & Hs & Hc & He).
  rewrite move_aliens_and_animate_spec. cbv zeta. rewrite Ha, Hd, Hs, Hc, He.
  reflexivity.
Qed.

Lemma before_landing_survivors (w : Worker) :
  formation_cleared w = false ->
  aliens (state (before_landing w)) = aliens (state (resolve_collisions w)).
Proof.
  unfold before_landing, formation_cleared. generalize (resolve_collisions w).
  intros rc. unfold level_completion.
  destruct (aliens (state rc)) eqn:Ha; [discriminate|]. intros _. exact Ha.
Qed.

Lemma formation_ok_update_logic (w : Worker) :
  game_over (state w) = false ->
  alien_direction (state w) = 1 \/ alien_direction (state w) = -1 ->
  0 < alien_speed (state w) ->
  formation_ok (aliens (state w)) (alien_direction (state w)) (alien_speed (state w)) ->
  formation_ok (aliens (state (update_logic w)))
    (alien_direction (state (update_logic w))) (alien_speed (state (update_logic w))).
Proof.
  intros Hgo Hdir Hspd Hok.
  pose proof (fields_update_logic_running w Hgo) as Hf.
  apply session_fields_inv in Hf. destruct Hf as (_ & _ & Hd' & Hs' & _).
  rewrite Hd', Hs', (aliens_update_logic_landing w Hgo).
  destruct (formation_cleared w) eqn:Hc.
  - rewrite (before_landing_fresh w Hc). left. apply fresh_formation_inside.
  - rewrite (before_landing_survivors w Hc), Z.add_0_r.
    pose proof (aliens_resolve_collisions w) as Hsub.
    rewrite moved_formation in Hsub.
    revert Hsub. generalize (aliens (state (resolve_collisions w))).
    intros survivors Hsub. unfold edge_hit_of at 1.
    eapply formation_step; [exact Hdir | exact Hspd | exact Hok | exact Hsub].
Qed.

Lemma aliens_tick (g : Widget) :
  aliens (state (worker (tick g))) =
    if ticking (worker g) then aliens (state (update_logic (worker g)))
    else aliens (state (worker g)).
Proof.
  unfold tick, ticking, run_iteration.
  destruct (running (worker g)); [|reflexivity].
  destruct (paused (state (worker g))); [reflexivity|].
  destruct (game_over (state (worker g))) eqn:Hgo.
  - rewrite (update_logic_game_over _ Hgo). reflexivity.
  - cbn [orb andb negb]. generalize (update_logic (worker g)). reflexivity.
Qed.

Lemma aliens_start_game (d : Difficulty) (w : Worker) :
  exists r, aliens (state (start_game d w)) = map (fresh_alien r) (seq 0 55).
Proof.
  destruct (start_game_fresh d w) as (r & countdown & _ & Hs & _).
  exists r. rewrite Hs. reflexivity.
Qed.

Lemma aliens_restart (g : Widget) :
  exists r, aliens (state (worker (restart g))) = map (fresh_alien r) (seq 0 55).
Proof.
  unfold restart, update_key_state.
  destruct (reset_state_fresh (set_running false (worker g)))
    as (r & countdown & _ & Hs & _).
  revert Hs. generalize (reset_state (set_running false (worker g))).
  intros v Hs. widget_fields. exists r.
  cbn [state on_state set_state]. rewrite Hs. reflexivity.
Qed.

Lemma aliens_keyPressEvent_reset (k : Key) (g : Widget) :
  key_resets k g = true ->
  exists r, aliens (state (worker (keyPressEvent k g))) = map (fresh_alien r) (seq 0 55).
Proof.
  unfold keyPressEvent, key_resets.
  destruct k; cbn [difficulty_of_key is_difficulty_key is_restart_key orb andb];
    rewrite ?andb_false_r, ?andb_true_r; intros Hyes; try discriminate.
  - destruct (fields_restart g) as [_ ->]. apply aliens_restart.
  - rewrite selecting_debug_spawn, Hyes. widget_fields. apply aliens_start_game.
  - rewrite Hyes. widget_fields. apply aliens_start_game.
  - rewrite Hyes. widget_fields. apply aliens_start_game.
Qed.

Lemma aliens_of_frozen (w1 w2 : Worker) :
  frozen w1 = frozen w2 -> aliens (state w1) = aliens (state w2).
Proof. unfold frozen. intros Heq. injection Heq as _ Ha _ _. exact Ha. Qed.

Lemma formation_ok_handle (ev : Event) (g : Widget) :
  fields_ok (session_fields (state (worker g))) ->
  formation_ok (aliens (state (worker g))) (alien_direction (state (worker g)))
    (alien_speed (state (worker g))) ->
  formation_ok (aliens (state (worker (handle ev g))))
    (alien_direction (state (worker (handle ev g))))
    (alien_speed (state (worker (handle ev g)))).
Proof.
  intros Hfields Hok. destruct ev as [k|k|]; cbn [handle].
  - pose proof (fields_keyPressEvent k g) as Hf.
    destruct (key_resets k g) eqn:Hr.
    + destruct (aliens_keyPressEvent_reset k g Hr) as (r & ->).
      left. apply fresh_formation_inside.
    + apply session_fields_inv in Hf. destruct Hf as (_ & _ & -> & -> & _).
      rewrite (aliens_of_frozen _ _ (frozen_keyPressEvent k g Hr)). exact Hok.
  - pose proof (fields_keyReleaseEvent k g) as Hf.
    apply session_fields_inv in Hf. destruct Hf as (_ & _ & -> & -> & _).
    rewrite (aliens_of_frozen _ _ (frozen_keyReleaseEvent k g)). exact Hok.
  - pose proof (fields_tick g) as Hf. rewrite aliens_tick.
    destruct (ticking (worker g)) eqn:Ht.
    + apply session_fields_inv in Hf. destruct Hf as (_ & _ & -> & -> & _).
      unfold session_fields, fields_ok in Hfields.
      destruct Hfields as (_ & Hd & Hs & Hl & _).
      apply formation_ok_update_logic;
        [apply ticking_running; exact Ht | exact Hd | lia | exact Hok].
    + apply session_fields_inv in Hf. destruct Hf as (_ & _ & -> & -> & _).
      exact Hok.
Qed.

(** X16. From [start_game] on, after any events, the formation is
    either strictly inside the edges (0 < x < WORLD_W - 40 for every
    alien) or has just crossed one and is heading back: no alien is
    ever a whole step or more past an edge, so every alien's x stays
    strictly between [- alien_speed] and [WORLD_W - 40 + alien_speed]. *)
Theorem formation_stays_near_world (g : Widget) (d : Difficulty) (evs : list Event) :
  let s :=
    state (worker (run_events evs (set_worker (start_game d (worker g)) g))) in
  formation_ok (aliens s) (alien_direction s) (alien_speed s) /\
  Forall (fun a => - alien_speed s < alien_x a < WORLD_W - 40 + alien_speed s)
    (aliens s).
Proof.
  cbv zeta.
  assert (Hinv : forall evs0 g0,
             fields_ok (session_fields (state (worker g0))) ->
             formation_ok (aliens (state (worker g0)))
               (alien_direction (state (worker g0))) (alien_speed (state (worker g0))) ->
             fields_ok (session_fields (state (worker (run_events evs0 g0)))) /\
             formation_ok (aliens (state (worker (run_events evs0 g0))))
               (alien_direction (state (worker (run_events evs0 g0))))
               (alien_speed (state (worker (run_events evs0 g0))))).
  { unfold run_events. induction evs0 as [|ev rest IH]; intros g0 Hf Hok;
      cbn [fold_left].
    - split; assumption.
    - apply IH; [apply fields_ok_handle | apply formation_ok_handle]; assumption. }
  assert (Hf0 : fields_ok (session_fields
                  (state (worker (set_worker (start_game d (worker g)) g))))).
  { cbn [worker set_worker]. rewrite fields_start_game. cbn. repeat split; lia. }
  assert (Hok0 : formation_ok
                   (aliens (state (worker (set_worker (start_game d (worker g)) g))))
                   (alien_direction
                      (state (worker (set_worker (start_game d (worker g)) g))))
                   (alien_speed
                      (state (worker (set_worker (start_game d (worker g)) g))))).
  { cbn [worker set_worker]. destruct (aliens_start_game d (worker g)) as (r & ->).
    left. apply fresh_formation_inside. }
  destruct (Hinv evs _ Hf0 Hok0) as [Hf Hok].
  revert Hf Hok.
  generalize (run_events evs (set_worker (start_game d (worker g)) g)).
  intros g1 Hf Hok. split; [exact Hok|].
  unfold session_fields, fields_ok in Hf. destruct Hf as (_ & _ & Hs & Hl & _).
  unfold formation_ok, formation_in, WORLD_W in *.
  destruct Hok as [Hin|[[_ Hin]|[_ Hin]]];
    (eapply Forall_impl; [|exact Hin]); cbv beta; intros a Ha; lia.
Qed.

(** ** The signals of a tick *)

Lemma alien_shooting_signals (w : Worker) :
  exists fire,
    emitted (alien_shooting w) = emitted w ++ fire /\
    (fire = [] \/ fire = [UpdateAlienFire]).
Proof.
  unfold alien_shooting.
  destruct (alien_shoot_cooldown (state w) <=? 0);
    [|exists []; rewrite app_nil_r; split; [reflexivity|left; reflexivity]].
  destruct (aliens (state w)) as [|first rest];
    [exists []; rewrite app_nil_r; split; [reflexivity|left; reflexivity]|].
  destruct (random_lt_03 (rng w)) as [[|] g1];
    [|exists []; rewrite app_nil_r; split; [reflexivity|left; reflexivity]].
  destruct (choice (first :: rest) first g1) as [shooter g2].
  exists [UpdateAlienFire]. split; [reflexivity|right; reflexivity].
Qed.

Lemma before_player_hits_signals (w : Worker) :
  exists fire,
    emitted (before_player_hits w) = emitted w ++ fire /\
    (fire = [] \/ fire = [UpdateAlienFire]).
Proof.
  unfold before_player_hits, before_ship_collisions.
  rewrite emitted_mystery_ship_collisions, emitted_collision_detection,
    emitted_mystery_ship_movement.
  destruct (alien_shooting_signals
              (on_state
                 (fun s => move_aliens_and_animate (move_bullets (player_movement s))) w))
    as (fire & He & Hfire).
  exists fire. split; [exact He | exact Hfire].
Qed.

Lemma player_hit_loop_signals (copy : list Bullet) :
  forall w : Worker,
    exists requests,
      emitted (player_hit_loop copy w) = emitted w ++ requests /\
      Forall (fun sig => sig = RequestInitials (c_int (score (state w)))) requests /\
      score (state (player_hit_loop copy w)) = score (state w) /\
      game_over (state (player_hit_loop copy w)) =
        game_over (state w) || match requests with [] => false | _ :: _ => true end.
Proof.
  induction copy as [|b rest IH]; intros w; cbn [player_hit_loop].
  - exists []. rewrite app_nil_r, orb_false_r. repeat split. constructor.
  - destruct (intersects (bullet_rect b) (player_rect (state w))); [|apply IH].
    set (s2 := set_alien_bullets
                 (remove_bullet b
                    (alien_bullets (set_lives (lives (state w) - 1) (state w))))
                 (set_lives (lives (state w) - 1) (state w))).
    set (w2 := if lives s2 <=? 0
               then emit (RequestInitials (c_int (score s2)))
                      (on_state (set_game_over true) (set_state s2 w))
               else set_state s2 w).
    assert (Hw2 : exists first,
               emitted w2 = emitted w ++ first /\
               Forall (fun sig => sig = RequestInitials (c_int (score (state w)))) first /\
               score (state w2) = score (state w) /\
               game_over (state w2) =
                 game_over (state w)
                 || match first with [] => false | _ :: _ => true end).
    { subst w2. destruct (lives s2 <=? 0).
      - exists [RequestInitials (c_int (score (state w)))].
        rewrite orb_true_r. repeat split. constructor; [reflexivity|constructor].
      - exists []. rewrite app_nil_r, orb_false_r. repeat split. constructor. }
    clearbody w2. clear s2.
    destruct Hw2 as (first & He2 & Hf2 & Hs2 & Hg2).
    destruct (IH w2) as (more & He & Hf & Hs & Hg).
    revert He Hf Hs Hg. generalize (player_hit_loop rest w2). intros w' He Hf Hs Hg.
    exists (first ++ more).
    split; [rewrite He, He2, app_assoc; reflexivity|].
    split; [apply Forall_app; split; [exact Hf2 | rewrite <- Hs2; exact Hf]|].
    split; [rewrite Hs; exact Hs2|].
    rewrite Hg, Hg2, <- orb_assoc. f_equal.
    destruct first, more; reflexivity.
Qed.

Lemma landing_signals (bl : Worker) :
  exists requests,
    emitted (aliens_reach_bottom bl) = emitted bl ++ requests /\
    Forall (fun sig => sig = RequestInitials (c_int (score (state bl)))) requests /\
    score (state (aliens_reach_bottom bl)) = score (state bl) /\
    game_over (state (aliens_reach_bottom bl)) =
      game_over (state bl) || match requests with [] => false | _ :: _ => true end.
Proof.
  rewrite aliens_reach_bottom_spec. destruct (landed (state bl)).
  - exists [RequestInitials (c_int (score (state bl)))].
    rewrite orb_true_r. repeat split. constructor; [reflexivity|constructor].
  - exists []. rewrite app_nil_r, orb_false_r. repeat split. constructor.
Qed.

Lemma resolve_collisions_signals (w : Worker) :
  game_over (state w) = false ->
  exists fire early,
    emitted (resolve_collisions w) = emitted w ++ fire ++ early /\
    (fire = [] \/ fire = [UpdateAlienFire]) /\
    Forall (fun sig => sig = RequestInitials (c_int (score (state (resolve_collisions w)))))
      early /\
    game_over (state (resolve_collisions w)) =
      match early with [] => false | _ :: _ => true end.
Proof.
  intros Hgo. rewrite resolve_collisions_hits.
  destruct (before_player_hits_signals w) as (fire & Hef & Hfire).
  destruct (tally_before_player_hits w) as [_ Hgp]. rewrite Hgo in Hgp.
  revert Hef Hgp. generalize (before_player_hits w). intros p Hef Hgp.
  unfold alien_bullets_hit_player.
  destruct (player_hit_loop_signals (alien_bullets (state p)) p)
    as (early & Hee & Hfe & Hse & Hge).
  revert Hee Hfe Hse Hge. generalize (player_hit_loop (alien_bullets (state p)) p).
  intros q Hee Hfe Hse Hge.
  exists fire, early.
  split; [rewrite Hee, Hef, <- app_assoc; reflexivity|].
  split; [exact Hfire|].
  split; [rewrite Hse; exact Hfe|].
  rewrite Hge, Hgp. reflexivity.
Qed.

Lemma end_of_tick_signals (bl : Worker) :
  exists late,
    emitted (emit_state (aliens_reach_bottom bl)) =
      emitted bl ++ late ++ [UpdateState (state (emit_state (aliens_reach_bottom bl)))] /\
    Forall (fun sig => sig = RequestInitials (c_int (score (state bl)))) late /\
    score (state (emit_state (aliens_reach_bottom bl))) = score (state bl) /\
    game_over (state (emit_state (aliens_reach_bottom bl))) =
      game_over (state bl) || match late with [] => false | _ :: _ => true end.
Proof.
  destruct (landing_signals bl) as (late & Hel & Hfl & Hsl & Hgl).
  revert Hel Hfl Hsl Hgl. generalize (aliens_reach_bottom bl).
  intros w' Hel Hfl Hsl Hgl.
  exists late. rewrite state_emit_state. unfold emit_state. cbn [emit emitted].
  split; [rewrite Hel, <- app_assoc; reflexivity|].
  split; [exact Hfl|]. split; [exact Hsl | exact Hgl].
Qed.

Lemma c_int_in_range (z : Z) : - 2 ^ 31 <= z < 2 ^ 31 -> c_int z = z.
Proof.
  unfold c_int. change (2 ^ 31) with 2147483648. change (2 ^ 32) with 4294967296.
  intros Hz. rewrite Z.mod_small by lia. lia.
Qed.

(** X17. What a tick of a running game emits, in order: at most one
    alien-fire signal, then the [request_initials] signals, then exactly
    one snapshot, which is the state the tick ends with.  Every
    [request_initials] of the tick carries the score the tick ends
    with as a C++ [int]: the score itself when it lies in
    -2^31 .. 2^31 - 1, the score wrapped to 32 bits otherwise.  The
    tick ends the game exactly when it emits one. *)
Theorem signals_of_a_tick (w : Worker) :
  game_over (state w) = false ->
  exists fire requests,
    emitted (update_logic w) =
      emitted w ++ fire ++ requests ++ [UpdateState (state (update_logic w))] /\
    (fire = [] \/ fire = [UpdateAlienFire]) /\
    Forall (fun sig => sig = RequestInitials (c_int (score (state (update_logic w)))))
      requests /\
    (- 2 ^ 31 <= score (state (update_logic w)) < 2 ^ 31 ->
     Forall (fun sig => sig = RequestInitials (score (state (update_logic w))))
       requests) /\
    game_over (state (update_logic w)) =
      match requests with [] => false | _ :: _ => true end.
Proof.
  intros Hgo. rewrite (update_logic_running_landing w Hgo).
  destruct (end_of_tick_signals (before_landing w)) as (late & Hel & Hfl & Hsl & Hgl).
  destruct (before_landing_keeps w) as [Hek Htk].
  apply tally_inv in Htk. destruct Htk as (Hsk & _ & Hgk).
  rewrite Hek in Hel. rewrite Hsk in Hfl, Hsl. rewrite Hgk in Hgl.
  revert Hel Hfl Hsl Hgl.
  generalize (emit_state (aliens_reach_bottom (before_landing w))).
  intros w' Hel Hfl Hsl Hgl.
  destruct (resolve_collisions_signals w Hgo) as (fire & early & Hee & Hfire & Hfe & Hge).
  revert Hel Hfl Hsl Hgl Hee Hfe Hge. generalize (resolve_collisions w).
  intros rc Hel Hfl Hsl Hgl Hee Hfe Hge.
  assert (Hall : Forall (fun sig => sig = RequestInitials (c_int (score (state w'))))
                   (early ++ late)).
  { rewrite Hsl. apply Forall_app. split; [exact Hfe | exact Hfl]. }
  exists fire, (early ++ late).
  split.
  { rewrite Hel, Hee, <- !app_assoc. reflexivity. }
  split; [exact Hfire|]. split; [exact Hall|]. split.
  { intros Hrange. rewrite <- (c_int_in_range _ Hrange). exact Hall. }
  rewrite Hgl, Hge. destruct early, late; reflexivity.
Qed.

Lemma signals_of_a_tick_witness :
  exists fire requests,
    emitted (update_logic two_bullets_last_life) =
      emitted two_bullets_last_life ++ fire ++ requests
      ++ [UpdateState (state (update_logic two_bullets_last_life))] /\
    Forall
      (fun sig => sig = RequestInitials (score (state (update_logic two_bullets_last_life))))
      requests.
Proof.
  destruct (signals_of_a_tick two_bullets_last_life)
    as (fire & requests & He & _ & _ & Hf & _).
  - reflexivity.
  - exists fire, requests. split; [exact He|]. apply Hf. vm_compute.
    split; [discriminate | reflexivity].
Defined.

(** ** Lives of a running game *)

Lemma fresh_keyPressEvent_reset (k : Key) (g : Widget) :
  key_resets k g = true ->
  exists r countdown, state (worker (keyPressEvent k g)) = fresh_state r countdown.
Proof.
  unfold keyPressEvent, key_resets.
  destruct k; cbn [difficulty_of_key is_difficulty_key is_restart_key orb andb];
    rewrite ?andb_false_r, ?andb_true_r; intros Hyes; try discriminate.
  - destruct (fields_restart g) as [_ ->]. unfold restart, update_key_state.
    destruct (reset_state_fresh (set_running false (worker g)))
      as (r & countdown & _ & Hs & _).
    revert Hs. generalize (reset_state (set_running false (worker g))).
    intros v Hs. widget_fields. exists r, countdown.
    cbn [state on_state set_state]. rewrite Hs. reflexivity.
  - rewrite selecting_debug_spawn, Hyes. widget_fields.
    destruct (start_game_fresh M (worker (debug_spawn g)))
      as (r & countdown & _ & Hs & _).
    exists r, countdown. exact Hs.
  - rewrite Hyes. widget_fields.
    destruct (start_game_fresh E (worker g)) as (r & countdown & _ & Hs & _).
    exists r, countdown. exact Hs.
  - rewrite Hyes. widget_fields.
    destruct (start_game_fresh H (worker g)) as (r & countdown & _ & Hs & _).
    exists r, countdown. exact Hs.
Qed.

Lemma game_over_of_frozen (w1 w2 : Worker) :
  frozen w1 = frozen w2 -> game_over (state w1) = game_over (state w2).
Proof. unfold frozen. intros Heq. injection Heq as Hg _ _ _. exact Hg. Qed.

Lemma tick_idle (g : Widget) :
  ticking (worker g) = false -> worker (tick g) = worker g.
Proof.
  unfold tick, ticking, run_iteration.
  destruct (running (worker g)); [|reflexivity].
  destruct (paused (state (worker g))); [reflexivity|].
  destruct (game_over (state (worker g))) eqn:Hgo; [|discriminate].
  intros _. rewrite (update_logic_game_over _ Hgo). reflexivity.
Qed.

Lemma tick_ticking (g : Widget) :
  ticking (worker g) = true -> worker (tick g) = update_logic (worker g).
Proof.
  unfold tick, ticking, run_iteration.
  destruct (running (worker g)); [|discriminate].
  destruct (paused (state (worker g))); [discriminate|].
  destruct (game_over (state (worker g))); [discriminate|].
  intros _. cbn [orb]. generalize (update_logic (worker g)). reflexivity.
Qed.

Lemma lives_resolve_collisions (w : Worker) :
  game_over (state w) = false ->
  1 <= lives (state w) ->
  game_over (state (resolve_collisions w)) = false ->
  1 <= lives (state (resolve_collisions w)).
Proof.
  intros Hgo Hlives. rewrite resolve_collisions_hits.
  destruct (tally_before_player_hits w) as [Hlp Hgp]. rewrite Hgo in Hgp.
  revert Hlp Hgp. generalize (before_player_hits w). intros p Hlp Hgp.
  unfold alien_bullets_hit_player.
  pose proof (player_hit_loop_accounting (alien_bullets (state p)) p []
                eq_refl (Forall_nil _)) as Hh.
  cbv zeta in Hh. destruct Hh as (_ & _ & _ & Hl & Hg & _).
  revert Hl Hg. generalize (player_hit_loop (alien_bullets (state p)) p).
  intros q Hl Hg Hq. rewrite Hq, Hgp in Hg. cbn [orb] in Hg.
  rewrite Hl, Hlp.
  destruct (Z.ltb_spec 0 (Z.of_nat (length (filter (meets (player_rect (state p)))
                                              (alien_bullets (state p))))));
    [|lia].
  cbn [andb] in Hg. rewrite Hlp in Hg.
  destruct (Z.leb_spec
              (lives (state w)
               - Z.of_nat (length (filter (meets (player_rect (state p)))
                                     (alien_bullets (state p))))) 0);
    [discriminate | lia].
Qed.

Lemma lives_update_logic (w : Worker) :
  game_over (state w) = false ->
  1 <= lives (state w) ->
  game_over (state (update_logic w)) = false ->
  1 <= lives (state (update_logic w)).
Proof.
  intros Hgo Hlives. rewrite (update_logic_running_landing w Hgo).
  destruct (end_of_tick_signals (before_landing w)) as (late & _ & _ & _ & Hg).
  rewrite state_emit_state in *.
  pose proof (purse_aliens_reach_bottom (before_landing w)) as Hp.
  apply purse_inv in Hp. destruct Hp as [_ Hl].
  revert Hg Hl. generalize (aliens_reach_bottom (before_landing w)).
  intros w' Hg Hl Hw'. rewrite Hl. rewrite Hw' in Hg.
  destruct (before_landing_keeps w) as [_ Ht].
  apply tally_inv in Ht. destruct Ht as (_ & -> & Hgk).
  apply lives_resolve_collisions; [exact Hgo | exact Hlives|].
  rewrite <- Hgk. destruct (game_over (state (before_landing w)));
    [discriminate | reflexivity].
Qed.

Lemma lives_handle (ev : Event) (g : Widget) :
  (game_over (state (worker g)) = false -> 1 <= lives (state (worker g))) ->
  game_over (state (worker (handle ev g))) = false ->
  1 <= lives (state (worker (handle ev g))).
Proof.
  intros Hinv. destruct ev as [k|k|]; cbn [handle].
  - destruct (key_resets k g) eqn:Hr.
    + destruct (fresh_keyPressEvent_reset k g Hr) as (r & countdown & ->).
      intros _. cbn. lia.
    + rewrite (game_over_of_frozen _ _ (frozen_keyPressEvent k g Hr)).
      pose proof (purse_keyPressEvent k g Hr) as Hp.
      apply purse_inv in Hp. destruct Hp as [_ ->].
      intros Hgo. specialize (Hinv Hgo). destruct k; lia.
  - rewrite (game_over_of_frozen _ _ (frozen_keyReleaseEvent k g)).
    pose proof (purse_keyReleaseEvent k g) as Hp.
    apply purse_inv in Hp. destruct Hp as [_ ->]. exact Hinv.
  - destruct (ticking (worker g)) eqn:Ht.
    + rewrite (tick_ticking g Ht).
      pose proof (ticking_running _ Ht) as Hgo.
      apply lives_update_logic; [exact Hgo | exact (Hinv Hgo)].
    + rewrite (tick_idle g Ht). exact Hinv.
Qed.

(** X18. From [start_game] on, after any events, a game that is not
    over has at least one life: the hit that takes the last life sets
    [game_over] in the same step, and nothing else lowers the lives. *)
Theorem running_game_has_lives (g : Widget) (d : Difficulty) (evs : list Event) :
  let s :=
    state (worker (run_events evs (set_worker (start_game d (worker g)) g))) in
  game_over s = false -> 1 <= lives s.
Proof.
  cbv zeta.
  assert (Hinv : forall evs0 g0,
             (game_over (state (worker g0)) = false -> 1 <= lives (state (worker g0))) ->
             game_over (state (worker (run_events evs0 g0))) = false ->
             1 <= lives (state (worker (run_events evs0 g0)))).
  { unfold run_events. induction evs0 as [|ev rest IH]; intros g0 H0;
      cbn [fold_left].
    - exact H0.
    - apply IH. apply lives_handle. exact H0. }
  apply Hinv. cbn [worker set_worker].
  destruct (start_game_fresh d (worker g)) as (r & countdown & _ & -> & _).
  intros _. cbn. lia.
Qed.

Lemma running_game_has_lives_witness :
  1 <= lives (state (worker (run_events left_left_fire
                               (set_worker (start_game E (worker finished_game))
                                  finished_game)))).
Proof.
  apply (running_game_has_lives finished_game E left_left_fire).
  vm_compute. reflexivity.
Defined.
